(** * KonomiTV server settings: [server/app/config.py]

    A shallow embedding of the settings module of the KonomiTV server:
    the validators of the settings schema (port, EDCB and Mirakurun URLs,
    encoder), [ServerSettings.unverified], [LoadConfig], [SaveConfig],
    [Config] and [GetServerPort], with the fragment of Python's [re] module
    that [SaveConfig] and the encoder validator rely on.

    Python text is a sequence of Unicode code points; it is modelled as
    [list N].  Dictionaries are [gmap]s.  Exceptions are values of [exn]
    carried by [result]; the module-level state ([_CONFIG]), the settings
    file and the log live in a [world] threaded through the functions. *)

From Stdlib Require Import ZArith NArith List Ascii String Lia Bool.
From Stdlib Require Import DecimalString.
From stdpp Require Import base option gmap list.
Import ListNotations.

Local Open Scope N_scope.

(* ===================================================================== *)
(** * Text *)
(* ===================================================================== *)

(** A character is a code point, a Python [str] a list of them. *)
Abbreviation char := N (only parsing).
Abbreviation pystr := (list N) (only parsing).

Module Text.

Definition bytes_of (s : string) : list N :=
  map (fun b => N_of_ascii (ascii_of_byte b)) (list_byte_of_string s).

(** Source literals are written as UTF-8 string literals and decoded. *)
Fixpoint utf8_decode (bs : list N) : pystr :=
  match bs with
  | [] => []
  | b0 :: t =>
    if b0 <? 128 then b0 :: utf8_decode t
    else if b0 <? 224 then
      match t with
      | b1 :: t' => ((b0 mod 32) * 64 + b1 mod 64) :: utf8_decode t'
      | _ => []
      end
    else if b0 <? 240 then
      match t with
      | b1 :: b2 :: t' =>
          ((b0 mod 16) * 4096 + (b1 mod 64) * 64 + b2 mod 64) :: utf8_decode t'
      | _ => []
      end
    else
      match t with
      | b1 :: b2 :: b3 :: t' =>
          ((b0 mod 8) * 262144 + (b1 mod 64) * 4096 + (b2 mod 64) * 64 + b3 mod 64)
            :: utf8_decode t'
      | _ => []
      end
  end.

Definition u (s : string) : pystr := utf8_decode (bytes_of s).

Definition LF : char := 10.
Definition CR : char := 13.
Definition space : char := 32.
Definition dquote : char := 34.
Definition hash : char := 35.
Definition squote : char := 39.
Definition comma : char := 44.
Definition dot : char := 46.
Definition backslash : char := 92.

Definition str_eqb (a b : pystr) : bool := bool_decide (a = b).

(** [c in s] for a one-character [c]. *)
Definition contains_char (c : char) (s : pystr) : bool := existsb (N.eqb c) s.

Fixpoint starts_with (p s : pystr) : bool :=
  match p, s with
  | [], _ => true
  | a :: p', b :: s' => (a =? b) && starts_with p' s'
  | _ :: _, [] => false
  end.

(** [s.endswith(p)] *)
Definition ends_with (p s : pystr) : bool := starts_with (rev p) (rev s).

(** [s[:-n]] *)
Definition drop_last (n : nat) (s : pystr) : pystr := firstn (length s - n) s.

(** [s.replace(old, new)]: every non-overlapping occurrence, left to right.
    [skip] counts the characters of an occurrence still to be passed over. *)
Fixpoint replace_from (old new : pystr) (skip : nat) (s : pystr) : pystr :=
  match s with
  | [] => []
  | c :: t =>
    match skip with
    | S k => replace_from old new k t
    | O =>
      if starts_with old s
      then new ++ replace_from old new (length old - 1) t
      else c :: replace_from old new 0 t
    end
  end.

Definition str_replace (old new s : pystr) : pystr :=
  match old with
  | [] => new ++ flat_map (fun c => c :: new) s
  | _ :: _ => replace_from old new 0 s
  end.

(** [s.rstrip('/')]: every trailing occurrence of one character goes. *)
Fixpoint lstrip_char (c : char) (s : pystr) : pystr :=
  match s with
  | [] => []
  | x :: t => if x =? c then lstrip_char c t else s
  end.

Definition rstrip_char (c : char) (s : pystr) : pystr :=
  rev (lstrip_char c (rev s)).

(** [s.split(sep)] for a one-character separator. *)
Fixpoint split_char (sep : char) (s : pystr) : list pystr :=
  match s with
  | [] => [[]]
  | c :: t =>
    if c =? sep then [] :: split_char sep t
    else match split_char sep t with
         | [] => [[c]]
         | h :: r => (c :: h) :: r
         end
  end.

(** [sep.join(parts)] *)
Fixpoint join (sep : pystr) (parts : list pystr) : pystr :=
  match parts with
  | [] => []
  | [p] => p
  | p :: rest => p ++ sep ++ join sep rest
  end.

(** [str(n)] for an [int]. *)
Definition str_int (n : Z) : pystr :=
  bytes_of (NilZero.string_of_int (Z.to_int n)).

(** [file.readlines()] on a file opened in text mode with the default
    [newline=None]: universal newlines, every line keeps its terminator,
    which is always a single LF.  [cur] is the line being read, reversed. *)
Fixpoint readlines_from (cur : pystr) (s : pystr) : list pystr :=
  match s with
  | [] => match cur with [] => [] | _ :: _ => [rev cur] end
  | c :: t =>
    if c =? LF then rev (LF :: cur) :: readlines_from [] t
    else if c =? CR then
      match t with
      | c' :: t' =>
        if c' =? LF then rev (LF :: cur) :: readlines_from [] t'
        else rev (LF :: cur) :: readlines_from [] t
      | [] => [rev (LF :: cur)]
      end
    else readlines_from (c :: cur) t
  end.

Definition readlines (s : pystr) : list pystr := readlines_from [] s.

End Text.
Import Text.
Arguments u : simpl never.

(* ===================================================================== *)
(** * The fragment of Python's [re] used by [SaveConfig] *)
(* ===================================================================== *)

Module Re.

(** Patterns.  Repetition is over single-character classes, which is all
    the four patterns of [SaveConfig] need ([.*?], [.*], [\s*], [[0-9\.]+]). *)
Inductive regex : Type :=
| Eps
| Chr (c : char)                          (* a literal character *)
| Cls (p : char -> bool)                  (* a character class *)
| Bol                                     (* ^ (no MULTILINE flag) *)
| Eol                                     (* $ (no MULTILINE flag) *)
| Cat (r1 r2 : regex)
| Alt (r1 r2 : regex)                     (* r1|r2, r1 tried first *)
| Star (p : char -> bool)                 (* p*, greedy *)
| StarLazy (p : char -> bool)             (* p*?, non-greedy *)
| Opt (r : regex)                         (* r?, greedy *)
| Grp (name : option pystr) (r : regex).  (* (?P<name>r) or (r) *)

Fixpoint lit (s : pystr) : regex :=
  match s with
  | [] => Eps
  | c :: t => Cat (Chr c) (lit t)
  end.

Fixpoint rep (n : nat) (r : regex) : regex :=
  match n with
  | O => Eps
  | S n' => Cat r (rep n' r)
  end.

Definition re_seq (rs : list regex) : regex := fold_right Cat Eps rs.

Fixpoint alts (r : regex) (rs : list regex) : regex :=
  match rs with
  | [] => r
  | r' :: rs' => Alt r (alts r' rs')
  end.

(** [.] without DOTALL: anything but a line feed. *)
Definition any_char (c : char) : bool := negb (c =? LF).

(** [[0-9\.]] *)
Definition digit_or_dot (c : char) : bool :=
  ((48 <=? c) && (c <=? 57)) || (c =? dot).

(** [\s] in a [str] pattern: the characters for which [str.isspace()] holds. *)
Definition isspace (c : char) : bool :=
  ((9 <=? c) && (c <=? 13)) || ((28 <=? c) && (c <=? 32))
  || (c =? 133) || (c =? 160) || (c =? 5760)
  || ((8192 <=? c) && (c <=? 8202))
  || (c =? 8232) || (c =? 8233) || (c =? 8239) || (c =? 8287) || (c =? 12288).

(** The state of a match in progress: the offset reached, the text still
    ahead, and the groups closed so far (latest first). *)
Record mstate : Type := MState {
  m_pos : nat;
  m_rest : pystr;
  m_groups : list (pystr * pystr)
}.

Definition advance (st : mstate) (t : pystr) : mstate :=
  MState (S (m_pos st)) t (m_groups st).

(** Backtracking over a repetition of a class; [k] is what follows it. *)
Fixpoint star_greedy {A} (p : char -> bool) (k : mstate -> option A)
    (pos : nat) (g : list (pystr * pystr)) (s : pystr) : option A :=
  match s with
  | c :: t =>
    if p c then
      match star_greedy p k (S pos) g t with
      | Some x => Some x
      | None => k (MState pos s g)
      end
    else k (MState pos s g)
  | [] => k (MState pos [] g)
  end.

Fixpoint star_lazy {A} (p : char -> bool) (k : mstate -> option A)
    (pos : nat) (g : list (pystr * pystr)) (s : pystr) : option A :=
  match k (MState pos s g) with
  | Some x => Some x
  | None =>
    match s with
    | c :: t => if p c then star_lazy p k (S pos) g t else None
    | [] => None
    end
  end.

(** The matcher, in continuation-passing style: [exec r k st] runs [r] from
    [st] and hands every way of matching it to [k], in the order in which
    the backtracking engine of [re] tries them; the first success wins. *)
Fixpoint exec {A} (r : regex) (k : mstate -> option A) (st : mstate) : option A :=
  match r with
  | Eps => k st
  | Chr c =>
    match m_rest st with
    | c' :: t => if c' =? c then k (advance st t) else None
    | [] => None
    end
  | Cls p =>
    match m_rest st with
    | c' :: t => if p c' then k (advance st t) else None
    | [] => None
    end
  | Bol => match m_pos st with O => k st | S _ => None end
  | Eol =>
    match m_rest st with
    | [] => k st
    | [c] => if c =? LF then k st else None
    | _ :: _ :: _ => None
    end
  | Cat r1 r2 => exec r1 (exec r2 k) st
  | Alt r1 r2 =>
    match exec r1 k st with
    | Some x => Some x
    | None => exec r2 k st
    end
  | Star p => star_greedy p k (m_pos st) (m_groups st) (m_rest st)
  | StarLazy p => star_lazy p k (m_pos st) (m_groups st) (m_rest st)
  | Opt r1 =>
    match exec r1 k st with
    | Some x => Some x
    | None => k st
    end
  | Grp name r1 =>
    exec r1
      (fun st' =>
         match name with
         | Some n =>
           k (MState (m_pos st') (m_rest st')
                ((n, firstn (m_pos st' - m_pos st) (m_rest st)) :: m_groups st'))
         | None => k st'
         end)
      st
  end.

(** [re.match(pattern, s)] *)
Definition re_match (pattern : regex) (s : pystr) : option mstate :=
  exec pattern Some (MState 0 s []).

(** [m.groupdict()[name]]; [None] stands for Python's [None] (a group that
    took no part in the match). *)
Fixpoint assoc (name : pystr) (g : list (pystr * pystr)) : option pystr :=
  match g with
  | [] => None
  | (n, v) :: g' => if str_eqb n name then Some v else assoc name g'
  end.

Definition group (m : mstate) (name : pystr) : option pystr :=
  assoc name (m_groups m).

(** The names a pattern declares ([pattern.groupindex]). *)
Fixpoint group_names (r : regex) : list pystr :=
  match r with
  | Cat r1 r2 | Alt r1 r2 => group_names r1 ++ group_names r2
  | Opt r1 => group_names r1
  | Grp (Some n) r1 => n :: group_names r1
  | Grp None r1 => group_names r1
  | _ => []
  end.

(** ** Replacement templates

    The replacement string of [re.sub] is parsed for backslash escapes.
    Modelled: [\g<name>] with a group name, the escapes [\a \b \f \n \r \t
    \v \\], the error on any other ASCII letter, and the rule that any other
    escaped character stays as it is, backslash included.  The numeric
    escapes ([\0] to [\9], [\g<number>]) are outside this fragment and give
    [None], like the errors; a name in [\g<name>] is checked against the
    pattern's groups when the template is expanded. *)
Inductive titem : Type :=
| TLit (c : char)
| TGroup (name : pystr).

Inductive tmode : Type :=
| TText
| TEscape
| TGroupOpen
| TGroupName (acc : pystr).

Definition is_ascii_letter (c : char) : bool :=
  ((65 <=? c) && (c <=? 90)) || ((97 <=? c) && (c <=? 122)).

Definition is_digit (c : char) : bool := (48 <=? c) && (c <=? 57).

Definition escape_table (c : char) : option char :=
  if c =? 97 then Some 7          (* \a *)
  else if c =? 98 then Some 8     (* \b *)
  else if c =? 102 then Some 12   (* \f *)
  else if c =? 110 then Some 10   (* \n *)
  else if c =? 114 then Some 13   (* \r *)
  else if c =? 116 then Some 9    (* \t *)
  else if c =? 118 then Some 11   (* \v *)
  else if c =? backslash then Some backslash
  else None.

Fixpoint parse_template_from (mode : tmode) (s : pystr) : option (list titem) :=
  match s with
  | [] => match mode with TText => Some [] | _ => None end
  | c :: t =>
    match mode with
    | TText =>
      if c =? backslash then parse_template_from TEscape t
      else cons (TLit c) <$> parse_template_from TText t
    | TEscape =>
      if c =? 103 (* g *) then parse_template_from TGroupOpen t
      else if is_digit c then None
      else
        match escape_table c with
        | Some e => cons (TLit e) <$> parse_template_from TText t
        | None =>
          if is_ascii_letter c then None
          else (fun items => TLit backslash :: TLit c :: items)
                 <$> parse_template_from TText t
        end
    | TGroupOpen =>
      if c =? 60 (* < *) then parse_template_from (TGroupName []) t else None
    | TGroupName acc =>
      if c =? 62 (* > *) then cons (TGroup (rev acc)) <$> parse_template_from TText t
      else parse_template_from (TGroupName (c :: acc)) t
    end
  end.

Definition parse_template (s : pystr) : option (list titem) :=
  parse_template_from TText s.

(** [m.expand]: a name the pattern does not declare is an error; a declared
    group that took no part in the match expands to the empty string. *)
Fixpoint expand (names : list pystr) (m : mstate) (items : list titem)
  : option pystr :=
  match items with
  | [] => Some []
  | TLit c :: rest => cons c <$> expand names m rest
  | TGroup n :: rest =>
    if existsb (str_eqb n) names
    then app (default [] (group m n)) <$> expand names m rest
    else None
  end.

(** [re.sub(pattern, repl, s)] for a pattern that starts with [^]: without
    the MULTILINE flag such a pattern matches at offset 0 or nowhere
    (lemma [Bol_only_at_start]), so at most one occurrence is replaced and
    the text after it is copied. *)
Definition re_sub (pattern : regex) (repl : pystr) (s : pystr) : option pystr :=
  items ← parse_template repl;
  match re_match pattern s with
  | None => Some s
  | Some m =>
    text ← expand (group_names pattern) m items;
    Some (text ++ m_rest m)
  end.

End Re.
Import Re.

(* ===================================================================== *)
(** * Python values, exceptions and the module's state *)
(* ===================================================================== *)

Inductive exn : Type :=
| AssertionError (msg : pystr)
| KeyError (key : pystr)
| TypeError
| AttributeError
| ValueError (msg : pystr)
| FileNotFoundError
| ReError                               (* re.error *)
| NoSuchProcess (pid : Z)               (* psutil.NoSuchProcess *)
| LibraryError (name msg : pystr)       (* raised inside a collaborator *)
| SystemExit (code : Z).

(** [except Exception] does not catch [SystemExit]. *)
Definition is_Exception (e : exn) : bool :=
  match e with
  | SystemExit _ => false
  | _ => true
  end.

Inductive result (A : Type) : Type :=
| Ok (a : A)
| Raise (e : exn).
Arguments Ok {A} a.
Arguments Raise {A} e.

#[global] Instance result_ret : MRet result := fun A a => Ok a.
#[global] Instance result_bind : MBind result := fun A B f m =>
  match m with
  | Ok a => f a
  | Raise e => Raise e
  end.

(** The values a settings document holds.  A [float] is carried by the text
    [str()] gives for it, a [pathlib.Path] by its path text; of a list the
    model keeps what [SaveConfig] reads: the text [str()] gives for the
    whole list and for each of its items.  [VInt] and [VFloat] are values
    whose type is exactly [int] and [float]; [VIntSub] and [VFloatSub] are
    instances of a proper subclass of [int] and of [float] that print as
    their base class does, such as the [ScalarInt] and [ScalarFloat] that
    [ruamel.yaml] builds and that the schema keeps as they are. *)
Inductive pyvalue : Type :=
| VInt (n : Z)
| VFloat (repr : pystr)
| VBool (b : bool)
| VNone
| VStr (s : pystr)
| VPath (p : pystr)
| VList (repr : pystr) (items : list pystr)
| VIntSub (n : Z)
| VFloatSub (repr : pystr).

(** [str(value)] *)
Definition py_str (v : pyvalue) : pystr :=
  match v with
  | VInt n => str_int n
  | VFloat r => r
  | VBool true => u "True"
  | VBool false => u "False"
  | VNone => u "None"
  | VStr s => s
  | VPath p => p
  | VList r _ => r
  | VIntSub n => str_int n
  | VFloatSub r => r
  end.

(** [[str(item) for item in value]]: a [str] yields its characters, a list
    its items, anything else is not iterable. *)
Definition py_iter_str (v : pyvalue) : result (list pystr) :=
  match v with
  | VStr s => Ok (map (fun c => [c]) s)
  | VList _ items => Ok items
  | _ => Raise TypeError
  end.

(** [type(value) is str] *)
Definition type_is_str (v : pyvalue) : bool :=
  match v with VStr _ => true | _ => false end.

(** [value is Path]: identity with the class object [pathlib.Path] itself.
    A path held by a settings document is an instance of that class, never
    the class, so the test fails on every value of the model. *)
Definition is_the_Path_class (v : pyvalue) : bool := false.

(** [d[key]] on a dictionary. *)
Definition getitem {V} (d : gmap pystr V) (key : pystr) : result V :=
  match d !! key with
  | Some v => Ok v
  | None => Raise (KeyError key)
  end.

(** [ServerSettings]: five sections, each a model whose [dict()] maps field
    names to values. *)
Record ServerSettings : Type := {
  general : gmap pystr pyvalue;
  server : gmap pystr pyvalue;
  tv : gmap pystr pyvalue;
  capture : gmap pystr pyvalue;
  twitter : gmap pystr pyvalue
}.

(** [config.dict()] *)
Definition dict_of (config : ServerSettings) : gmap pystr (gmap pystr pyvalue) :=
  <[u "general" := general config]>
    (<[u "server" := server config]>
       (<[u "tv" := tv config]>
          (<[u "capture" := capture config]>
             (<[u "twitter" := twitter config]> ∅)))).

(** What the YAML parser may hand back for the top-level entries of the
    file: a mapping (a section) or something else. *)
Inductive rawvalue : Type :=
| RSection (fields : gmap pystr pyvalue)
| RValue (v : pyvalue).

(** [ruamel.yaml.YAML().load(file)] as seen by this module: it raises, or it
    returns [None] (empty document), or a document of which [dict(...)]
    gives a dictionary, or a document on which [dict(...)] raises. *)
Inductive yaml_document : Type :=
| YNone
| YMapping (d : gmap pystr rawvalue)
| YNotMapping (err_name err_msg : pystr).

Inductive yaml_result : Type :=
| YLoaded (doc : yaml_document)
| YRaises (err_name err_msg : pystr).

(** Constructing [ServerSettings] from the raw dictionary: the validated
    document, or a
    [ValidationError] with the messages of [error.errors()] and the text of
    [str(error)], or an exception that escapes a validator. *)
Inductive validation_result : Type :=
| Valid (config : ServerSettings)
| Invalid (messages : list pystr) (detail : pystr)
| Escapes (e : exn).

(** [os.linesep]: what a line feed becomes when text is written to a file
    opened in text mode. *)
Inductive newline : Type :=
| Posix        (* a line feed *)
| Windows.     (* a carriage return and a line feed *)

(** What becomes of [open(path, mode='w')] followed by [file.write(text)]:
    the text is stored; or [open] raises and the file is as it was; or the
    file has been emptied by [open] and [write] raises, with [kept] in the
    file. *)
Inductive write_result : Type :=
| Stored
| OpenRaises (err_name err_msg : pystr)
| WriteRaises (err_name err_msg : pystr) (kept : pystr).

(** The collaborators of the module. *)
Record environment : Type := {
  platform_environment : pystr;                        (* GetPlatformEnvironment() *)
  yaml_load : pystr -> yaml_result;
  validate : gmap pystr rawvalue -> validation_result;
  os_linesep : newline;
  file_write : pystr -> write_result
}.

Inductive level : Type := DEBUG | INFO | WARNING | ERROR.

Inductive event : Type :=
| EvExists                                (* Path.exists(_CONFIG_YAML_PATH) *)
| EvRead                                  (* open(_CONFIG_YAML_PATH) for reading *)
| EvWrite (text : pystr)                  (* file.write(text) *)
| EvLog (lv : level) (msg : pystr).       (* Logging.<level>(msg) *)

(** Module state and the outside world: the global [_CONFIG], the content of
    the file at [_CONFIG_YAML_PATH] ([None]: no such file) and what the
    module did so far. *)
Record world : Type := World {
  _CONFIG : option ServerSettings;
  config_yaml : option pystr;
  trace : list event
}.

Definition M (A : Type) : Type := world -> result A * world.

#[global] Instance M_ret : MRet M := fun A a w => (Ok a, w).
#[global] Instance M_bind : MBind M := fun A B f m w =>
  match m w with
  | (Ok a, w') => f a w'
  | (Raise e, w') => (Raise e, w')
  end.

Definition raise {A} (e : exn) : M A := fun w => (Raise e, w).

Definition lift {A} (r : result A) : M A := fun w => (r, w).

Definition emit (ev : event) : M unit := fun w =>
  (Ok tt, World (_CONFIG w) (config_yaml w) (trace w ++ [ev])).

Definition Logging_error (msg : pystr) : M unit := emit (EvLog ERROR msg).
Definition Logging_debug_simple (msg : pystr) : M unit := emit (EvLog DEBUG msg).

(** [sys.exit(code)] *)
Definition sys_exit {A} (code : Z) : M A := raise (SystemExit code).

Definition get_CONFIG : M (option ServerSettings) := fun w => (Ok (_CONFIG w), w).

Definition set_CONFIG (c : ServerSettings) : M unit := fun w =>
  (Ok tt, World (Some c) (config_yaml w) (trace w)).

(** [Path.exists(_CONFIG_YAML_PATH)] *)
Definition path_exists : M bool := fun w =>
  (Ok (bool_decide (is_Some (config_yaml w))),
   World (_CONFIG w) (config_yaml w) (trace w ++ [EvExists])).

(** [open(_CONFIG_YAML_PATH, encoding='utf-8')] and reading all of it. *)
Definition read_file : M pystr := fun w =>
  match config_yaml w with
  | Some text => (Ok text, World (_CONFIG w) (config_yaml w) (trace w ++ [EvRead]))
  | None => (Raise FileNotFoundError, w)
  end.

Definition linesep (n : newline) : pystr :=
  match n with
  | Posix => [LF]
  | Windows => [CR; LF]
  end.

(** What a text file opened for writing with the default [newline=None]
    stores for [text]: every line feed becomes [os.linesep]. *)
Definition translate_newlines (n : newline) (text : pystr) : pystr :=
  flat_map (fun c => if c =? LF then linesep n else [c]) text.

(** A code point that UTF-8 does not encode. *)
Definition is_surrogate (c : char) : bool := (55296 <=? c) && (c <=? 57343).

(** [open(_CONFIG_YAML_PATH, mode='w', encoding='utf-8')] and
    [file.write(text)].  Opening empties the file.  The text is encoded as a
    whole before any of it is stored, so text with a surrogate raises
    [UnicodeEncodeError] (its message is not modelled) and leaves the file
    empty. *)
Definition write_file (env : environment) (text : pystr) : M unit := fun w =>
  match file_write env text with
  | OpenRaises name msg => (Raise (LibraryError name msg), w)
  | WriteRaises name msg kept =>
    if existsb is_surrogate text
    then (Raise (LibraryError (u "UnicodeEncodeError") []),
          World (_CONFIG w) (Some []) (trace w))
    else (Raise (LibraryError name msg), World (_CONFIG w) (Some kept) (trace w))
  | Stored =>
    if existsb is_surrogate text
    then (Raise (LibraryError (u "UnicodeEncodeError") []),
          World (_CONFIG w) (Some []) (trace w))
    else (Ok tt,
          World (_CONFIG w) (Some (translate_newlines (os_linesep env) text))
            (trace w ++ [EvWrite text]))
  end.

(** [try: body / except Exception: handler] *)
Definition try_except_Exception {A} (body : M A) (handler : exn -> M A) : M A :=
  fun w =>
    match body w with
    | (Ok a, w') => (Ok a, w')
    | (Raise e, w') => if is_Exception e then handler e w' else (Raise e, w')
    end.

Definition _DOCKER_PATH_PREFIX : pystr := u "/host-rootfs".

(* ===================================================================== *)
(** * [SaveConfig] *)
(* ===================================================================== *)

(** ['.*?'|".*?"] *)
Definition quoted_token : regex :=
  Alt (re_seq [Chr squote; StarLazy any_char; Chr squote])
      (re_seq [Chr dquote; StarLazy any_char; Chr dquote]).

(** The tail of the two list patterns: [\s*], then an optional group of
    [#] and [.*], then [$]. *)
Definition trailing_comment : list regex :=
  [Star isspace; Opt (Grp None (re_seq [Chr hash; Star any_char])); Eol].

(** [^ {4}(?P<key>'.*?'|".*?"): \{$] *)
Definition parent_key_match_pattern : regex :=
  re_seq [Bol; rep 4 (Chr space); Grp (Some (u "key")) quoted_token;
          lit (u ": {"); Eol].

(** [^ {8}(?P<key>'.*?'|".*?"): \[] followed by [trailing_comment]. *)
Definition list_start_pattern : regex :=
  re_seq ([Bol; rep 8 (Chr space); Grp (Some (u "key")) quoted_token;
           lit (u ": [")] ++ trailing_comment).

(** [^ {8}\],] followed by [trailing_comment]. *)
Definition list_end_pattern : regex :=
  re_seq ([Bol; rep 8 (Chr space); lit (u "],")] ++ trailing_comment).

(** [^ {8}(?P<key>'.*?'|".*?"): (?P<value>[0-9\.]+|true|false|null|'.*?'|".*?"),$] *)
Definition key_value_match_pattern : regex :=
  re_seq [Bol; rep 8 (Chr space); Grp (Some (u "key")) quoted_token;
          lit (u ": ");
          Grp (Some (u "value"))
            (alts (Cat (Cls digit_or_dot) (Star digit_or_dot))
                  [lit (u "true"); lit (u "false"); lit (u "null");
                   re_seq [Chr squote; StarLazy any_char; Chr squote];
                   re_seq [Chr dquote; StarLazy any_char; Chr dquote]]);
          Chr comma; Eol].

(** The two [str.replace] calls on a matched key: every double quote goes,
    then every single quote. *)
Definition unquote (key : pystr) : pystr :=
  str_replace [squote] [] (str_replace [dquote] [] key).

(** [m.groupdict()['key']] followed by a method call on it. *)
Definition groupdict_get (m : mstate) (name : pystr) : result pystr :=
  match group m name with
  | Some v => Ok v
  | None => Raise AttributeError
  end.

(** The text written for a scalar: the [if]/[elif] chain of the scalar
    branch, before the backslashes are doubled. *)
Definition value_real_of (value : pyvalue) : pystr :=
  match value with
  | VInt _ | VFloat _ =>
    let value_real := py_str value in
    if ends_with (u ".0") value_real then drop_last 2 value_real else value_real
  | VBool true => u "true"
  | VBool false => u "false"
  | VNone => u "null"
  | _ => [squote] ++ py_str value ++ [squote]
  end.

(** [value_real.replace('\\', '\\\\')] *)
Definition escape_backslashes (value_real : pystr) : pystr :=
  str_replace [backslash] [backslash; backslash] value_real.

(** The replacement block of a list field:
    [f"    '{list_key}': [\n{new_list}\n    ],\n"]. *)
Definition list_block (list_key : pystr) (items : list pystr) : pystr :=
  let new_list :=
    join (u "," ++ [LF]) (map (fun item => u "        '" ++ item ++ u "'") items) in
  u "    '" ++ list_key ++ u "': [" ++ [LF] ++ new_list ++ [LF] ++ u "    ]," ++ [LF].

(** The three variables the loop carries from line to line. *)
Record scan_state : Type := ScanState {
  current_parent_key : pystr;
  in_list : bool;
  list_key : pystr
}.

Definition initial_scan_state : scan_state := ScanState [] false [].

(** One iteration of [for current_line in current_lines]: the state after
    it and what it appended to [new_lines]. *)
Definition scan_line (config_dict : gmap pystr (gmap pystr pyvalue))
    (st : scan_state) (current_line : pystr) : result (scan_state * list pystr) :=
  match re_match parent_key_match_pattern current_line with
  | Some parent_key_match =>
    key ← groupdict_get parent_key_match (u "key");
    Ok (ScanState (unquote key) (in_list st) (list_key st), [current_line])
  | None =>
  match re_match list_start_pattern current_line with
  | Some list_start_match =>
    key ← groupdict_get list_start_match (u "key");
    let st' := ScanState (current_parent_key st) true (unquote key) in
    section ← getitem config_dict (current_parent_key st');
    match section !! list_key st' with
    | Some value =>
      items ← py_iter_str value;
      Ok (st', [list_block (list_key st') items])
    | None => Ok (st', [current_line])
    end
  | None =>
  match re_match list_end_pattern current_line with
  | Some _ => Ok (ScanState (current_parent_key st) false (list_key st), [])
  | None =>
  if in_list st then Ok (st, [])
  else
  match re_match key_value_match_pattern current_line with
  | Some key_value_match =>
    key ← groupdict_get key_value_match (u "key");
    let key := unquote key in
    section ← getitem config_dict (current_parent_key st);
    match section !! key with
    | Some value =>
      let value_real := escape_backslashes (value_real_of value) in
      match re_sub key_value_match_pattern
              (u "        \g<key>: " ++ value_real ++ u ",") current_line with
      | Some new_line => Ok (st, [new_line])
      | None => Raise ReError
      end
    | None => Ok (st, [current_line])
    end
  | None => Ok (st, [current_line])
  end
  end
  end
  end.

(** The whole loop: final state and [new_lines]. *)
Fixpoint scan (config_dict : gmap pystr (gmap pystr pyvalue))
    (st : scan_state) (current_lines : list pystr)
  : result (scan_state * list pystr) :=
  match current_lines with
  | [] => Ok (st, [])
  | current_line :: rest =>
    '(st', out) ← scan_line config_dict st current_line;
    '(st'', out') ← scan config_dict st' rest;
    Ok (st'', out ++ out')
  end.

(** Under Docker, the prefix put on the path fields by [LoadConfig] is
    taken off again with [str.replace]. *)
Definition strip_docker_prefix (config_dict : gmap pystr (gmap pystr pyvalue))
  : result (gmap pystr (gmap pystr pyvalue)) :=
  capture_section ← getitem config_dict (u "capture");
  upload_folder ← getitem capture_section (u "upload_folder");
  let config_dict :=
    <[u "capture" :=
        <[u "upload_folder" :=
            VStr (str_replace _DOCKER_PATH_PREFIX [] (py_str upload_folder))]>
          capture_section]> config_dict in
  tv_section ← getitem config_dict (u "tv");
  debug_mode_ts_path ← getitem tv_section (u "debug_mode_ts_path");
  if type_is_str debug_mode_ts_path || is_the_Path_class debug_mode_ts_path
  then Ok (<[u "tv" :=
               <[u "debug_mode_ts_path" :=
                   VStr (str_replace _DOCKER_PATH_PREFIX []
                           (py_str debug_mode_ts_path))]> tv_section]> config_dict)
  else Ok config_dict.

(** The dictionary [SaveConfig] patches the file with. *)
Definition save_dict (env : environment) (config : ServerSettings)
  : result (gmap pystr (gmap pystr pyvalue)) :=
  let config_dict := dict_of config in
  if str_eqb (platform_environment env) (u "Linux-Docker")
  then strip_docker_prefix config_dict
  else Ok config_dict.

Definition SaveConfig (env : environment) (config : ServerSettings) : M unit :=
  config_dict ← lift (save_dict env config);
  text ← read_file;
  let current_lines := readlines text in
  '(_, new_lines) ← lift (scan config_dict initial_scan_state current_lines);
  write_file env (concat new_lines).

(* ===================================================================== *)
(** * The port validator of [_ServerSettingsServer] *)
(* ===================================================================== *)

Module Psutil.

(** [conn.laddr]: an address with a port. *)
Record addr : Type := Addr { addr_ip : pystr; addr_port : Z }.

(** An entry of [psutil.net_connections()]. *)
Record sconn : Type := SConn {
  conn_status : pystr;
  conn_pid : option Z;
  conn_laddr : option addr
}.

(** What [psutil] shows of the system: the current process and its parent,
    the sockets, and the process table ([parent_of pid] is [ppid()] of the
    process [pid], [None] when there is no such process, in which case
    [psutil.Process(pid)] raises [NoSuchProcess]). *)
Record snapshot : Type := Snapshot {
  current_pid : Z;
  current_ppid : Z;
  net_connections : list sconn;
  parent_of : Z -> option Z
}.

End Psutil.
Import Psutil.

Local Open Scope Z_scope.

Definition port_out_of_range_message : pystr :=
  u "ポート番号の設定が不正なため、KonomiTV を起動できません。" ++ [LF] ++
  u "設定したポート番号が 1024 ~ 65525 (65535 ではない) の間に収まっているかを確認してください。".

Definition port_in_use_message (port : Z) : pystr :=
  u "ポート " ++ str_int port ++
  u " は他のプロセスで使われているため、KonomiTV を起動できません。" ++ [LF] ++
  u "重複して KonomiTV を起動していないか、他のソフトでポート " ++ str_int port ++
  u " を使っていないかを確認してください。".

Definition companion_port_in_use_message (port : Z) : pystr :=
  u "ポート " ++ str_int (port + 10) ++ u " (" ++ str_int port ++
  u " + 10) は他のプロセスで使われているため、KonomiTV を起動できません。" ++ [LF] ++
  u "重複して KonomiTV を起動していないか、他のソフトでポート " ++ str_int (port + 10) ++
  u " を使っていないかを確認してください。".

(** The condition under which a listener is skipped: it belongs to the
    current process, to its parent, to a child or to a sibling. *)
Definition is_own_family (ps : snapshot) (process_pid process_ppid : Z) : bool :=
  (process_pid =? current_pid ps) ||
  (process_pid =? current_ppid ps) ||
  (process_ppid =? current_pid ps) ||
  (process_ppid =? current_ppid ps).

(** The loop over [psutil.net_connections()] that fills [used_ports]. *)
Fixpoint used_ports (ps : snapshot) (conns : list sconn) : result (list Z) :=
  match conns with
  | [] => Ok []
  | conn :: rest =>
    if str_eqb (conn_status conn) (u "LISTEN") then
      match conn_pid conn with
      | None => used_ports ps rest
      | Some pid =>
        match parent_of ps pid with
        | None => Raise (NoSuchProcess pid)
        | Some ppid =>
          if is_own_family ps pid ppid then used_ports ps rest
          else
            match conn_laddr conn with
            | Some a => ports ← used_ports ps rest; Ok (addr_port a :: ports)
            | None => used_ports ps rest
            end
        end
      end
    else used_ports ps rest
  end.

(** [port in used_ports] *)
Definition port_in (port : Z) (ports : list Z) : bool := existsb (Z.eqb port) ports.

Definition validate_port (ps : snapshot) (port : Z) : result Z :=
  if (port <? 1024) || (port >? 65525) then
    Raise (ValueError port_out_of_range_message)
  else
    ports ← used_ports ps (net_connections ps);
    if port_in port ports then
      Raise (ValueError (port_in_use_message port))
    else if port_in (port + 10) ports then
      Raise (ValueError (companion_port_in_use_message port))
    else Ok port.

Local Close Scope Z_scope.

(* ===================================================================== *)
(** * [LoadConfig], [Config], [GetServerPort] *)
(* ===================================================================== *)

(** [type(error).__name__] *)
Definition error_type_name (e : exn) : pystr :=
  match e with
  | AssertionError _ => u "AssertionError"
  | KeyError _ => u "KeyError"
  | TypeError => u "TypeError"
  | AttributeError => u "AttributeError"
  | ValueError _ => u "ValueError"
  | FileNotFoundError => u "FileNotFoundError"
  | ReError => u "error"
  | NoSuchProcess _ => u "NoSuchProcess"
  | LibraryError name _ => name
  | SystemExit _ => u "SystemExit"
  end.

(** [str(error)], where the model carries the message of the exception.
    What [LoadConfig] catches while it parses a file that exists is a
    [LibraryError] (lemma [load_yaml_raises]). *)
Definition error_message (e : exn) : pystr :=
  match e with
  | AssertionError msg | ValueError msg | LibraryError _ msg => msg
  | _ => []
  end.

(** [dict(ruamel.yaml.YAML().load(file))] with the check for an empty
    document that [LoadConfig] makes in between. *)
Definition load_yaml (env : environment) (text : pystr)
  : M (gmap pystr rawvalue) :=
  match yaml_load env text with
  | YRaises name msg => raise (LibraryError name msg)
  | YLoaded YNone =>
    Logging_error (u "設定ファイルが空のため、KonomiTV を起動できません。");;
    Logging_error (u "config.example.yaml を config.yaml にコピーし、お使いの環境に合わせて編集してください。");;
    sys_exit 1
  | YLoaded (YNotMapping name msg) => raise (LibraryError name msg)
  | YLoaded (YMapping d) => mret d
  end.

(** [config_dict['general'][field] = config_dict['general'][field].rstrip('/')] *)
Definition rstrip_url (field : pystr) (config_dict : gmap pystr rawvalue)
  : result (gmap pystr rawvalue) :=
  general_section ← getitem config_dict (u "general");
  match general_section with
  | RValue _ => Raise TypeError
  | RSection fields =>
    url ← getitem fields field;
    match url with
    | VStr s =>
      Ok (<[u "general" := RSection (<[field := VStr (rstrip_char 47 s)]> fields)]>
            config_dict)
    | _ => Raise AttributeError
    end
  end.

(** [config_dict['capture']['upload_folder'] = _DOCKER_PATH_PREFIX + ...] *)
Definition prefix_upload_folder (config_dict : gmap pystr rawvalue)
  : result (gmap pystr rawvalue) :=
  capture_section ← getitem config_dict (u "capture");
  match capture_section with
  | RValue _ => Raise TypeError
  | RSection fields =>
    upload_folder ← getitem fields (u "upload_folder");
    match upload_folder with
    | VStr s =>
      Ok (<[u "capture" :=
              RSection (<[u "upload_folder" := VStr (_DOCKER_PATH_PREFIX ++ s)]> fields)]>
            config_dict)
    | _ => Raise TypeError
    end
  end.

(** The same for [tv.debug_mode_ts_path], only when it is a [str]. *)
Definition prefix_debug_mode_ts_path (config_dict : gmap pystr rawvalue)
  : result (gmap pystr rawvalue) :=
  tv_section ← getitem config_dict (u "tv");
  match tv_section with
  | RValue _ => Raise TypeError
  | RSection fields =>
    debug_mode_ts_path ← getitem fields (u "debug_mode_ts_path");
    match debug_mode_ts_path with
    | VStr s =>
      Ok (<[u "tv" :=
              RSection (<[u "debug_mode_ts_path" := VStr (_DOCKER_PATH_PREFIX ++ s)]>
                          fields)]>
            config_dict)
    | _ => Ok config_dict
    end
  end.

(** One statement inside [try: ... except KeyError: pass]: a [KeyError]
    ends the block and leaves the dictionary as it is by then. *)
Definition unless_KeyError (config_dict : gmap pystr rawvalue)
    (statement : result (gmap pystr rawvalue))
    (next : gmap pystr rawvalue -> result (gmap pystr rawvalue))
  : result (gmap pystr rawvalue) :=
  match statement with
  | Ok config_dict' => next config_dict'
  | Raise (KeyError _) => Ok config_dict
  | Raise e => Raise e
  end.

Definition normalize (env : environment) (config_dict : gmap pystr rawvalue)
  : result (gmap pystr rawvalue) :=
  unless_KeyError config_dict (rstrip_url (u "edcb_url") config_dict) (fun d1 =>
  unless_KeyError d1 (rstrip_url (u "mirakurun_url") d1) (fun d2 =>
  if str_eqb (platform_environment env) (u "Linux-Docker") then
    unless_KeyError d2 (prefix_upload_folder d2) (fun d3 =>
    unless_KeyError d3 (prefix_debug_mode_ts_path d3) Ok)
  else Ok d2)).

(** [Model.construct] of pydantic, whose signature is
    [construct(cls, _fields_set=None, ** values)], called with the entries
    of [values] as keyword arguments: no validation.  A keyword [cls]
    collides with the first parameter and raises [TypeError]; a keyword
    [_fields_set] is taken as that parameter and is no field; every other
    entry is kept, and the optional fields that are absent get their
    default ([None]). *)
Definition construct (optional_fields : list pystr) (values : gmap pystr pyvalue)
  : result (gmap pystr pyvalue) :=
  match values !! u "cls" with
  | Some _ => Raise TypeError
  | None =>
    Ok (delete (u "_fields_set") values
          ∪ list_to_map (map (fun name => (name, VNone)) optional_fields))
  end.

(** [config_dict[name]] unpacked as keyword arguments. *)
Definition keyword_arguments (config_dict : gmap pystr rawvalue) (name : pystr)
  : result (gmap pystr pyvalue) :=
  entry ← getitem config_dict name;
  match entry with
  | RSection fields => Ok fields
  | RValue _ => Raise TypeError
  end.

(** [ServerSettings.unverified(config_dict)] *)
Definition unverified (config_dict : gmap pystr rawvalue) : result ServerSettings :=
  g ← keyword_arguments config_dict (u "general") ≫= construct [];
  s ← keyword_arguments config_dict (u "server")
        ≫= construct [u "custom_https_certificate"; u "custom_https_private_key"];
  t ← keyword_arguments config_dict (u "tv") ≫= construct [u "debug_mode_ts_path"];
  c ← keyword_arguments config_dict (u "capture") ≫= construct [];
  w ← keyword_arguments config_dict (u "twitter")
        ≫= construct [u "consumer_key"; u "consumer_secret"];
  Ok {| general := g; server := s; tv := t; capture := c; twitter := w |}.

(** The marker of a message written by one of the module's validators. *)
Definition kuten : char := 12290%N.

Definition is_custom_error (msg : pystr) : bool := contains_char kuten msg.

(** [for message in ...: Logging.error(message)] *)
Fixpoint log_each (lines : list pystr) : M unit :=
  match lines with
  | [] => mret tt
  | message :: rest => Logging_error message;; log_each rest
  end.

(** The first loop of the [except ValidationError] block: what it logs and
    the final value of [custom_error]. *)
Fixpoint log_custom_errors (messages : list pystr) : M bool :=
  match messages with
  | [] => mret false
  | msg :: rest =>
    if is_custom_error msg then
      log_each (split_char LF msg);;
      log_custom_errors rest;;
      mret true
    else log_custom_errors rest
  end.

(** The [except ValidationError as error] block. *)
Definition report_validation_error {A} (messages : list pystr) (detail : pystr) : M A :=
  custom_error ← log_custom_errors messages;
  if custom_error : bool then sys_exit 1
  else
    Logging_error (u "設定内容が不正なため、KonomiTV を起動できません。");;
    Logging_error (u "以下のエラーメッセージを参考に、config.yaml の記述が正しいかを確認してください。");;
    Logging_error detail;;
    sys_exit 1.

Definition LoadConfig (env : environment) (bypass_validation : bool) : M ServerSettings :=
  current ← get_CONFIG;
  match current with
  | Some _ => raise (AssertionError (u "LoadConfig() は既に呼び出されています。"))
  | None =>
    file_exists ← path_exists;
    if negb file_exists then
      Logging_error (u "設定ファイルが配置されていないため、KonomiTV を起動できません。");;
      Logging_error (u "config.example.yaml を config.yaml にコピーし、お使いの環境に合わせて編集してください。");;
      sys_exit 1
    else
      config_dict ←
        try_except_Exception
          (text ← read_file; load_yaml env text)
          (fun error =>
             Logging_error (u "設定ファイルのロード中にエラーが発生したため、KonomiTV を起動できません。");;
             Logging_error (error_type_name error ++ u ": " ++ error_message error);;
             sys_exit 1);
      config_dict ← lift (normalize env config_dict);
      if negb bypass_validation then
        match validate env config_dict with
        | Valid config =>
          set_CONFIG config;;
          Logging_debug_simple (u "Server settings loaded.");;
          mret config
        | Invalid messages detail => report_validation_error messages detail
        | Escapes e => raise e
        end
      else
        config ← lift (unverified config_dict);
        set_CONFIG config;;
        Logging_debug_simple (u "Server settings loaded (bypassed validation).");;
        mret config
  end.

Definition Config : M ServerSettings :=
  current ← get_CONFIG;
  match current with
  | Some config => mret config
  | None => raise (AssertionError (u "サーバー設定データが初期化されていません。"))
  end.

Definition GetServerPort (env : environment) : M pyvalue :=
  try_except_Exception
    (text ← read_file;
     config_dict ←
       lift (match yaml_load env text with
             | YRaises name msg => Raise (LibraryError name msg)
             | YLoaded YNone => Raise TypeError
             | YLoaded (YNotMapping name msg) => Raise (LibraryError name msg)
             | YLoaded (YMapping d) => Ok d
             end);
     server_section ← lift (getitem config_dict (u "server"));
     match server_section with
     | RSection fields => lift (getitem fields (u "port"))
     | RValue _ => raise TypeError
     end)
    (fun _ => mret (VInt 7000)).

(* ===================================================================== *)
(** * The validators of [_ServerSettingsGeneral] *)
(* ===================================================================== *)

(** What a validator does besides returning or raising. *)
Inductive action : Type :=
| EnumService (edcb_url : pystr) (connect_timeout : Z)   (* CtrlCmdUtil(url).sendEnumService() *)
| HttpGet (url : pystr) (timeout : Z)                    (* requests.get(url, timeout) *)
| RunProcess (args : list pystr) (stderr_to_stdout : bool)  (* subprocess.run(args) *)
| LogInfo (msg : pystr)                                  (* Logging.info(msg) *)
| LogWarning (msg : pystr).                              (* Logging.warning(msg) *)

(** A validator: the actions it took, in order, and how it ended. *)
Definition V (A : Type) : Type := (list action * result A)%type.

#[global] Instance V_ret : MRet V := fun A a => ([], Ok a).
#[global] Instance V_bind : MBind V := fun A B f m =>
  match m with
  | (done, Ok a) => let '(more, r) := f a in (done ++ more, r)
  | (done, Raise e) => (done, Raise e)
  end.

Definition act (a : action) : V unit := ([a], Ok tt).

Definition fail {A} (e : exn) : V A := ([], Raise e).

Definition lift_result {A} (r : result A) : V A := ([], r).

(** [response.json()]: it raises [JSONDecodeError], or gives an object, of
    which [current] is the text of [.get('current')] ([None] when absent or
    null), or gives a value that is not an object and has no [get]. *)
Inductive json_body : Type :=
| JsonInvalid
| JsonObject (current : option pystr)
| JsonOther.

(** [requests.get(...)]: [ConnectionError] or [Timeout], another exception,
    or a response. *)
Inductive http_outcome : Type :=
| Unreachable
| RequestFails (err_name err_msg : pystr)
| Response (status_code : Z) (body : json_body).

(** What the validators take from outside this file: the URL helpers and the
    client of [app.utils.EDCB], [requests], [platform], the table
    [LIBRARY_PATH] of [app.constants] and [subprocess].  The text of a
    process is its standard output decoded as UTF-8.  The validator of the
    Mirakurun URL raises [requests.exceptions.JSONDecodeError()] without
    arguments; whether that class can be built so is a matter of the
    [requests] release, and [json_error_without_args] says which: [true]
    when it can (the error is raised and caught just below), [false] when
    building it raises [TypeError] (which is not caught there). *)
Record collaborators : Type := {
  getEDCBHost : pystr -> option pystr;
  getEDCBPort : pystr -> option Z;
  sendEnumService : pystr -> bool;
  requests_get : pystr -> http_outcome;
  json_error_without_args : bool;
  platform_machine : pystr;
  LIBRARY_PATH : pystr -> option pystr;
  subprocess_stdout : list pystr -> bool -> result pystr
}.

(** [values.get('backend') == name] *)
Definition backend_is (values : gmap pystr pyvalue) (name : pystr) : bool :=
  match values !! u "backend" with
  | Some (VStr s) => str_eqb s name
  | _ => false
  end.

Definition edcb_url_incomplete_message : pystr :=
  u "URL 内にホスト名またはポートが指定されていません。" ++ [LF] ++
  u "EDCB の URL を間違えている可能性があります。".

Definition edcb_unreachable_message (edcb_url : pystr) : pystr :=
  u "EDCB (" ++ edcb_url ++ u "/) にアクセスできませんでした。" ++ [LF] ++
  u "EDCB が起動していないか、URL を間違えている可能性があります。".

Definition validate_edcb_url (c : collaborators) (edcb_url : pystr)
    (values : gmap pystr pyvalue) : V pystr :=
  (if backend_is values (u "EDCB") then
     let edcb_host := getEDCBHost c edcb_url in
     let edcb_port := getEDCBPort c edcb_url in
     if match edcb_host with
        | None => true
        | Some host =>
          bool_decide (edcb_port = None) && negb (str_eqb host (u "edcb-namedpipe"))
        end
     then fail (ValueError edcb_url_incomplete_message)
     else
       act (EnumService edcb_url 5);;
       if sendEnumService c edcb_url
       then act (LogInfo (u "Backend: EDCB (" ++ edcb_url ++ u "/)"))
       else fail (ValueError (edcb_unreachable_message edcb_url))
   else mret tt);;
  mret edcb_url.

Definition mirakurun_unreachable_message (mirakurun_url : pystr) : pystr :=
  u "Mirakurun (" ++ mirakurun_url ++ u "/) にアクセスできませんでした。" ++ [LF] ++
  u "Mirakurun が起動していないか、URL を間違えている可能性があります。".

Definition not_mirakurun_message (mirakurun_url : pystr) : pystr :=
  mirakurun_url ++ u "/ は Mirakurun の URL ではありません。" ++ [LF] ++
  u "Mirakurun の URL を間違えている可能性があります。".

(** [raise requests.exceptions.JSONDecodeError()] inside the second [try]
    of the Mirakurun validator, as seen from outside that [try]. *)
Definition raise_bare_json_error {A} (c : collaborators) (mirakurun_url : pystr) : V A :=
  if json_error_without_args c
  then fail (ValueError (not_mirakurun_message mirakurun_url))
  else fail TypeError.

Definition validate_mirakurun_url (c : collaborators) (mirakurun_url : pystr)
    (values : gmap pystr pyvalue) : V pystr :=
  (if backend_is values (u "Mirakurun") then
     let url := mirakurun_url ++ u "/api/version" in
     act (HttpGet url 20);;
     match requests_get c url with
     | Unreachable => fail (ValueError (mirakurun_unreachable_message mirakurun_url))
     | RequestFails name msg => fail (LibraryError name msg)
     | Response status_code body =>
       current ←
         match body with
         | JsonInvalid => fail (ValueError (not_mirakurun_message mirakurun_url))
         | JsonObject current =>
           if negb (status_code =? 200)%Z then raise_bare_json_error c mirakurun_url
           else match current with
                | None => raise_bare_json_error c mirakurun_url
                | Some version => mret version
                end
         | JsonOther =>
           if negb (status_code =? 200)%Z then raise_bare_json_error c mirakurun_url
           else fail AttributeError
         end;
       act (LogInfo (u "Backend: Mirakurun " ++ current ++ u " (" ++ mirakurun_url ++ u "/)"))
     end
   else mret tt);;
  mret mirakurun_url.

(** [needle in s] *)
Fixpoint contains (needle s : pystr) : bool :=
  starts_with needle s ||
  match s with
  | [] => false
  | _ :: t => contains needle t
  end.

(** [s.strip()] *)
Fixpoint lstrip_space (s : pystr) : pystr :=
  match s with
  | [] => []
  | c :: t => if isspace c then lstrip_space t else s
  end.

Definition strip (s : pystr) : pystr := rev (lstrip_space (rev (lstrip_space s))).

(** [re.sub(pattern, '', s)] for a pattern that matches no empty text: the
    text is scanned from the left and every match found is left out.
    [skip] counts the characters of a match still to be passed over. *)
Fixpoint cut_matches (pattern : regex) (pos skip : nat) (s : pystr) : pystr :=
  match s with
  | [] => []
  | c :: t =>
    match skip with
    | S k => cut_matches pattern (S pos) k t
    | O =>
      match exec pattern Some (MState pos s []) with
      | Some m => cut_matches pattern (S pos) (m_pos m - pos - 1) t
      | None => c :: cut_matches pattern (S pos) 0 t
      end
    end
  end.

(** [ Copyright.*$] and [ by rigaya.*$] *)
Definition copyright_pattern : regex :=
  re_seq [lit (u " Copyright"); Star any_char; Eol].

Definition by_rigaya_pattern : regex :=
  re_seq [lit (u " by rigaya"); Star any_char; Eol].

(** The version line that [validate_encoder] logs, from the output of
    [--version]. *)
Definition encoder_version_of (stdout : pystr) : pystr :=
  let encoder_version := hd [] (split_char LF stdout) in
  let encoder_version := cut_matches copyright_pattern 0 0 encoder_version in
  let encoder_version := cut_matches by_rigaya_pattern 0 0 encoder_version in
  strip (str_replace (u "ffmpeg") (u "FFmpeg") encoder_version).

(** The output of [--check-hw] without its lines that hold [reader:]. *)
Definition without_reader_lines (stdout : pystr) : pystr :=
  join [LF]
    (List.filter (fun line => negb (contains (u "reader:") line)) (split_char LF stdout)).

Definition rkmppenc_on_x64_message : pystr :=
  u "x64 アーキテクチャでは rkmppenc は使用できません。" ++ [LF] ++
  u "利用するエンコーダーを FFmpeg・QSVEncC・NVEncC・VCEEncC のいずれかに変更してください。".

Definition x64_encoder_on_arm64_message : pystr :=
  u "arm64 アーキテクチャでは QSVEncC・NVEncC・VCEEncC は使用できません。" ++ [LF] ++
  u "利用するエンコーダーを FFmpeg・rkmppenc のいずれかに変更してください。".

Definition encoder_unavailable_message (encoder : pystr) : pystr :=
  u "お使いの環境では " ++ encoder ++
  u " がサポートされていないため、KonomiTV を起動できません。" ++ [LF] ++
  u "別のエンコーダーを選択するか、" ++ encoder ++ u " の動作環境を整備してください。".

Definition no_hevc_message (encoder : pystr) : pystr :=
  u "お使いの環境では " ++ encoder ++
  u " での H.265/HEVC エンコードがサポートされていないため、通信節約モードは利用できません。".

(** [subprocess.run([LIBRARY_PATH[encoder], flag], ...)] and the decoding of
    its output. *)
Definition run_encoder (c : collaborators) (encoder flag : pystr)
    (stderr_to_stdout : bool) : V pystr :=
  match LIBRARY_PATH c encoder with
  | None => fail (KeyError encoder)
  | Some path =>
    act (RunProcess [path; flag] stderr_to_stdout);;
    lift_result (subprocess_stdout c [path; flag] stderr_to_stdout)
  end.

(** [x in [a, b, ...]] on strings. *)
Definition str_in (x : pystr) (l : list pystr) : bool := existsb (str_eqb x) l.

Definition validate_encoder (c : collaborators) (encoder : pystr) : V pystr :=
  let current_arch := platform_machine c in
  if str_in current_arch [u "AMD64"; u "x86_64"] && str_eqb encoder (u "rkmppenc")
  then fail (ValueError rkmppenc_on_x64_message)
  else if str_eqb current_arch (u "aarch64")
          && str_in encoder [u "QSVEncC"; u "NVEncC"; u "VCEEncC"]
  then fail (ValueError x64_encoder_on_arm64_message)
  else
    (if negb (str_eqb encoder (u "FFmpeg")) then
       result_stdout ← run_encoder c encoder (u "--check-hw") false;
       let result_stdout := without_reader_lines result_stdout in
       if contains (u "unavailable.") result_stdout
       then fail (ValueError (encoder_unavailable_message encoder))
       else if negb (contains (u "H.265/HEVC") result_stdout)
            then act (LogWarning (no_hevc_message encoder))
            else mret tt
     else mret tt);;
    version_stdout ← run_encoder c encoder (u "--version") true;
    act (LogInfo (u "Encoder: " ++ encoder_version_of version_stdout));;
    mret encoder.

(* ===================================================================== *)
(** * What a pattern matches *)
(* ===================================================================== *)

(** [matches r pos w after g g']: at offset [pos], with [after] following,
    the pattern [r] can consume exactly [w], turning the closed groups [g]
    into [g'].  This is the declarative reading of a pattern; [exec] finds
    the first such way in backtracking order. *)
Fixpoint matches (r : regex) (pos : nat) (w after : pystr)
    (g g' : list (pystr * pystr)) : Prop :=
  match r with
  | Eps => w = [] /\ g' = g
  | Chr c => w = [c] /\ g' = g
  | Cls p => exists c, w = [c] /\ p c = true /\ g' = g
  | Bol => w = [] /\ pos = 0%nat /\ g' = g
  | Eol => w = [] /\ (after = [] \/ after = [LF]) /\ g' = g
  | Cat r1 r2 =>
    exists w1 w2 g1,
      w = w1 ++ w2 /\
      matches r1 pos w1 (w2 ++ after) g g1 /\
      matches r2 (pos + length w1) w2 after g1 g'
  | Alt r1 r2 => matches r1 pos w after g g' \/ matches r2 pos w after g g'
  | Star p | StarLazy p => forallb p w = true /\ g' = g
  | Opt r1 => matches r1 pos w after g g' \/ (w = [] /\ g' = g)
  | Grp (Some n) r1 => exists g1, matches r1 pos w after g g1 /\ g' = (n, w) :: g1
  | Grp None r1 => matches r1 pos w after g g'
  end.

(* ===================================================================== *)
(** * Shapes of lines *)
(* ===================================================================== *)

(** [n] blanks. *)
Definition indent (n : nat) : pystr := repeat space n.

(** A quoted token: a quote, a body without line feed, the same quote. *)
Definition quoted_by (q : char) (w : pystr) : Prop :=
  exists body, w = q :: body ++ [q] /\ forallb any_char body = true.

(** The tail of a list line: blanks, then nothing or a comment. *)
Definition comment_tail (w : pystr) : Prop :=
  exists blanks comment,
    w = blanks ++ comment /\ forallb isspace blanks = true /\
    (comment = [] \/ exists c, comment = hash :: c /\ forallb any_char c = true).

(** A line that none of the four patterns matches. *)
Definition unrecognized (line : pystr) : Prop :=
  re_match parent_key_match_pattern line = None /\
  re_match list_start_pattern line = None /\
  re_match list_end_pattern line = None /\
  re_match key_value_match_pattern line = None.

(** A line with its terminator and no other line break. *)
Definition proper_line (l : pystr) : Prop :=
  exists body, l = body ++ [LF] /\ (LF ∉ body) /\ (CR ∉ body).


(* ===================================================================== *)
(** * The blocks written for list fields *)
(* ===================================================================== *)






(* ===================================================================== *)
(** * The port validator *)
(* ===================================================================== *)

(** A socket that counts as a foreign listener on port [q]. *)
Definition foreign_listener (ps : snapshot) (conn : sconn) (q : Z) : Prop :=
  exists pid ppid a,
    conn_status conn = u "LISTEN" /\
    conn_pid conn = Some pid /\
    parent_of ps pid = Some ppid /\
    pid <> current_pid ps /\ pid <> current_ppid ps /\
    ppid <> current_pid ps /\ ppid <> current_ppid ps /\
    conn_laddr conn = Some a /\ addr_port a = q.

(** Every listening socket with an owner has its owner in the process
    table. *)
Definition owners_known (ps : snapshot) (conns : list sconn) : Prop :=
  forall conn pid,
    In conn conns -> conn_status conn = u "LISTEN" -> conn_pid conn = Some pid ->
    is_Some (parent_of ps pid).

(* ===================================================================== *)
(** * The log and the calls of the module *)
(* ===================================================================== *)

(** The world after [lines] were logged at error level. *)
Definition log_errors (w : world) (lines : list pystr) : world :=
  World (_CONFIG w) (config_yaml w) (trace w ++ map (EvLog ERROR) lines).

(** The lines of the messages written by the module's own validators. *)
Definition custom_lines (messages : list pystr) : list pystr :=
  flat_map (split_char LF) (List.filter is_custom_error messages).

(** The report on a failure that no validator of the module explains. *)
Definition generic_lines (detail : pystr) : list pystr :=
  [u "設定内容が不正なため、KonomiTV を起動できません。";
   u "以下のエラーメッセージを参考に、config.yaml の記述が正しいかを確認してください。";
   detail].

(** The world after the file was opened and read. *)
Definition after_read (w : world) : world :=
  World (_CONFIG w) (config_yaml w) (trace w ++ [EvRead]).

(** What the [try] block of [GetServerPort] makes of the text it read. *)
Definition port_in_file (env : environment) (text : pystr) : result pyvalue :=
  match yaml_load env text with
  | YRaises name msg => Raise (LibraryError name msg)
  | YLoaded YNone => Raise TypeError
  | YLoaded (YNotMapping name msg) => Raise (LibraryError name msg)
  | YLoaded (YMapping d) =>
    match d !! u "server" with
    | None => Raise (KeyError (u "server"))
    | Some (RValue _) => Raise TypeError
    | Some (RSection fields) =>
      match fields !! u "port" with
      | None => Raise (KeyError (u "port"))
      | Some v => Ok v
      end
    end
  end.

(** The assertion of [LoadConfig]. *)
Definition already_called : exn :=
  AssertionError (u "LoadConfig() は既に呼び出されています。").

(** The calls the module offers. *)
Inductive call : Type :=
| CallLoadConfig (env : environment) (bypass_validation : bool)
| CallSaveConfig (env : environment) (config : ServerSettings)
| CallConfig
| CallGetServerPort (env : environment).

(** The world after a call, whatever the call returned or raised. *)
Definition after_call (w : world) (c : call) : world :=
  match c with
  | CallLoadConfig env bypass_validation => (LoadConfig env bypass_validation w).2
  | CallSaveConfig env config => (SaveConfig env config w).2
  | CallConfig => (Config w).2
  | CallGetServerPort env => (GetServerPort env w).2
  end.

Definition after_calls (w : world) (calls : list call) : world :=
  fold_left after_call calls w.

(* ===================================================================== *)
(** * Proof tactics *)
(* ===================================================================== *)

(** Replaces every [u "..."] literal of the goal by its code points. *)
Ltac eval_u :=
  repeat match goal with
  | |- context [u ?s] =>
    let v := eval vm_compute in (u s) in change (u s) with v
  end.

Ltac eval_u_in H :=
  repeat match type of H with
  | context [u ?s] =>
    let v := eval vm_compute in (u s) in change (u s) with v in H
  end.


(* ===================================================================== *)
(** * Sample data *)
(* ===================================================================== *)

Module Sample.

Definition no_section : gmap pystr pyvalue := ∅.

Definition settings (g s t c w : gmap pystr pyvalue) : ServerSettings :=
  {| general := g; server := s; tv := t; capture := c; twitter := w |}.

(** A bare-metal deployment on which the file can be written; its parser
    and its schema are never reached. *)
Definition linux : environment :=
  {| platform_environment := u "Linux";
     yaml_load := fun _ => YLoaded YNone;
     validate := fun _ => Invalid [] [];
     os_linesep := Posix;
     file_write := fun _ => Stored |}.

Definition docker : environment :=
  {| platform_environment := u "Linux-Docker";
     yaml_load := fun _ => YLoaded YNone;
     validate := fun _ => Invalid [] [];
     os_linesep := Posix;
     file_write := fun _ => Stored |}.

Definition on_disk (text : pystr) : world := World None (Some text) [].

(** A line of the file, with its terminator. *)
Definition ln (s : string) : pystr := u s ++ [LF].

Definition debug_on : ServerSettings :=
  settings {[ u "debug" := VBool true ]} no_section no_section no_section no_section.

Definition in_general : scan_state := ScanState (u "general") false [].


End Sample.


Definition two_folders : ServerSettings :=
  Sample.settings Sample.no_section Sample.no_section Sample.no_section
    {[ u "folders" := VList (u "['/mnt/a', '/mnt/b']") [u "/mnt/a"; u "/mnt/b"] ]}
    Sample.no_section.


Local Open Scope Z_scope.


Local Close Scope Z_scope.

(** A settings file that parses, and a schema that refuses the port. *)
Definition sample_raw : gmap pystr rawvalue :=
  {[ u "general" :=
       RSection {[ u "edcb_url" := VStr (u "tcp://192.168.1.11:4510/");
                   u "mirakurun_url" := VStr (u "http://192.168.1.11:40772/") ]};
     u "server" := RSection {[ u "port" := VInt 80 ]} ]}.

Definition sample_text : pystr := Sample.ln "{'server': {'port': 80}}".

Definition sample_normalized : gmap pystr rawvalue :=
  {[ u "general" :=
       RSection {[ u "edcb_url" := VStr (u "tcp://192.168.1.11:4510");
                   u "mirakurun_url" := VStr (u "http://192.168.1.11:40772") ]};
     u "server" := RSection {[ u "port" := VInt 80 ]} ]}.

Definition refusing (messages : list pystr) (detail : pystr) : environment :=
  {| platform_environment := u "Linux";
     yaml_load := fun _ => YLoaded (YMapping sample_raw);
     validate := fun _ => Invalid messages detail;
     os_linesep := Posix;
     file_write := fun _ => Stored |}.

(** A schema that accepts the file and returns a document. *)
Definition sample_settings : ServerSettings :=
  Sample.settings Sample.no_section {[ u "port" := VInt 7000 ]}
                  Sample.no_section Sample.no_section Sample.no_section.

Definition accepting : environment :=
  {| platform_environment := u "Linux";
     yaml_load := fun _ => YLoaded (YMapping sample_raw);
     validate := fun _ => Valid sample_settings;
     os_linesep := Posix;
     file_write := fun _ => Stored |}.

Definition sample_loaded : world :=
  World (Some sample_settings) (Some sample_text)
        [EvExists; EvRead; EvLog DEBUG (u "Server settings loaded.")].

(* ===================================================================== *)
(** * The validators of [_ServerSettingsGeneral]: vocabulary *)
(* ===================================================================== *)

(** The check that [validate_edcb_url] makes before it connects: the URL
    has a host, and a port unless the host is the named pipe. *)
Definition edcb_url_complete (c : collaborators) (edcb_url : pystr) : Prop :=
  exists host, getEDCBHost c edcb_url = Some host /\
               (is_Some (getEDCBPort c edcb_url) \/ host = u "edcb-namedpipe").

(** An action that reaches outside the process. *)
Definition is_probe (a : action) : bool :=
  match a with
  | EnumService _ _ | HttpGet _ _ | RunProcess _ _ => true
  | LogInfo _ | LogWarning _ => false
  end.

(** The architecture test at the head of [validate_encoder]. *)
Definition encoder_fits_machine (c : collaborators) (encoder : pystr) : Prop :=
  ~ ((platform_machine c = u "AMD64" \/ platform_machine c = u "x86_64")
     /\ encoder = u "rkmppenc") /\
  ~ (platform_machine c = u "aarch64"
     /\ (encoder = u "QSVEncC" \/ encoder = u "NVEncC" \/ encoder = u "VCEEncC")).

(** A line of the output of [--check-hw] that counts for the test of
    [unavailable.]: it does not hold [reader:] and holds [unavailable.]. *)
Definition reports_unavailable (line : pystr) : Prop :=
  contains (u "reader:") line = false /\ contains (u "unavailable.") line = true.

(** Collaborators for the examples: an EDCB that answers on the named pipe,
    a Mirakurun that answers with its version, an x64 machine on which
    QSVEncC reports an unavailable reader only. *)
Definition sample_collaborators : collaborators :=
  {| getEDCBHost := fun url =>
       if str_eqb url (u "tcp://edcb-namedpipe") then Some (u "edcb-namedpipe") else None;
     getEDCBPort := fun _ => None;
     sendEnumService := fun _ => true;
     requests_get := fun _ => Response 200 (JsonObject (Some (u "3.9.0")));
     json_error_without_args := false;
     platform_machine := u "x86_64";
     LIBRARY_PATH := fun encoder => Some (u "/thirdparty/" ++ encoder);
     subprocess_stdout := fun args _ =>
       if str_eqb (List.last args []) (u "--check-hw")
       then Ok (u "avsw reader: unavailable." ++ [LF] ++ u "H.264/AVC" ++ [LF] ++ u "H.265/HEVC" ++ [LF])
       else Ok (u "QSVEncC (x64) 7.38 by rigaya" ++ [LF]) |}.

(** Runs the binds of a validator. *)
Ltac run_V := cbn [mbind V_bind act fail mret V_ret lift_result fst snd app negb].

(** Decides [is_custom_error] on a message built from literals and
    variable parts: one of the literals holds the mark. *)
Ltac find_mark :=
  unfold is_custom_error, contains_char; rewrite ?existsb_app;
  repeat match goal with
         | |- context [existsb (N.eqb kuten) (u ?s)] =>
           let b := eval vm_compute in (existsb (N.eqb kuten) (u s)) in
           change (existsb (N.eqb kuten) (u s)) with b
         end;
  rewrite ?orb_true_r, ?orb_true_l; reflexivity.

(* ===================================================================== *)
(** * The calls of the module: further vocabulary *)
(* ===================================================================== *)

(** The assertion of [Config]. *)
Definition not_initialized : exn :=
  AssertionError (u "サーバー設定データが初期化されていません。").

(** The world after the existence of the file was checked. *)
Definition after_exists (w : world) : world :=
  World (_CONFIG w) (config_yaml w) (trace w ++ [EvExists]).

(** The two lines logged for a file that is missing, that is empty, and
    that cannot be loaded. *)
Definition missing_file_lines : list pystr :=
  [u "設定ファイルが配置されていないため、KonomiTV を起動できません。";
   u "config.example.yaml を config.yaml にコピーし、お使いの環境に合わせて編集してください。"].

Definition empty_file_lines : list pystr :=
  [u "設定ファイルが空のため、KonomiTV を起動できません。";
   u "config.example.yaml を config.yaml にコピーし、お使いの環境に合わせて編集してください。"].

Definition load_error_lines (err_name err_msg : pystr) : list pystr :=
  [u "設定ファイルのロード中にエラーが発生したため、KonomiTV を起動できません。";
   err_name ++ u ": " ++ err_msg].

(** The world after a document was stored in [_CONFIG] and the debug line
    [msg] was logged. *)
Definition after_load (w : world) (config : ServerSettings) (msg : pystr) : world :=
  World (Some config) (config_yaml w) (trace w ++ [EvLog DEBUG msg]).




(** What [construct] makes of the keyword arguments [given], for a model
    with the optional fields [optional_fields]: the entry [_fields_set] is
    gone, every other entry is kept, an optional field that is absent
    holds [None], and no other name is added. *)
Definition constructed_from (optional_fields : list pystr)
    (given fields : gmap pystr pyvalue) : Prop :=
  fields !! u "_fields_set" = None /\
  (forall k v, k <> u "_fields_set" -> given !! k = Some v -> fields !! k = Some v) /\
  (forall k, In k optional_fields -> given !! k = None -> fields !! k = Some VNone) /\
  (forall k, given !! k = None -> ~ In k optional_fields -> fields !! k = None).

(** The five sections, in the order in which [unverified] reads them. *)
Definition section_names : list pystr :=
  [u "general"; u "server"; u "tv"; u "capture"; u "twitter"].

(** Closes a goal [u "a" <> u "b"] on two literals. *)
Ltac key_ne := let E := fresh in intros E; vm_compute in E; discriminate E.

(** Runs the binds of a call of the module. *)
Ltac run_M :=
  repeat progress unfold mbind, M_bind, mret, M_ret, lift, raise, sys_exit,
    Logging_error, Logging_debug_simple, emit, set_CONFIG;
  cbn [is_Exception error_type_name error_message fst snd _CONFIG config_yaml trace].

(* ===================================================================== *)
(** * Lines that [SaveConfig] writes: vocabulary *)
(* ===================================================================== *)

(** A key between two quotes of one kind, with no such quote and no line
    feed inside. *)
Definition plain_key (key : pystr) : Prop :=
  exists q body,
    key = q :: body ++ [q] /\ (q = squote \/ q = dquote) /\
    (q ∉ body) /\ forallb any_char body = true.

(** A value written without quotes that the scalar pattern reads back:
    digits and dots, or one of the three words. *)
Definition bare_token (t : pystr) : Prop :=
  (t <> [] /\ forallb digit_or_dot t = true) \/
  t = u "true" \/ t = u "false" \/ t = u "null".

(** A value that the scalar pattern reads back: a bare one, or text without
    line feed between single quotes. *)
Definition value_token (t : pystr) : Prop :=
  bare_token t \/
  exists s, t = squote :: s ++ [squote] /\ forallb any_char s = true.

(** The line of a scalar field. *)
Definition scalar_line (key value rest : pystr) : pystr :=
  indent 8 ++ key ++ u ": " ++ value ++ [comma] ++ rest.

(** The value group of the scalar pattern. *)
Definition value_group : regex :=
  Grp (Some (u "value"))
    (alts (Cat (Cls digit_or_dot) (Star digit_or_dot))
          [lit (u "true"); lit (u "false"); lit (u "null");
           re_seq [Chr squote; StarLazy any_char; Chr squote];
           re_seq [Chr dquote; StarLazy any_char; Chr dquote]]).

(** The first character of what the value group can match. *)
Definition value_head (c : char) : bool :=
  digit_or_dot c || (c =? 116) || (c =? 102) || (c =? 110)
  || (c =? squote) || (c =? dquote).

(* ===================================================================== *)
(** * The version line of an encoder: vocabulary *)
(* ===================================================================== *)

(** The part of [s] before the first occurrence of [needle]; all of [s]
    when there is none. *)
Fixpoint before_first (needle s : pystr) : pystr :=
  match s with
  | [] => []
  | c :: t => if starts_with needle s then [] else c :: before_first needle t
  end.

(* ===================================================================== *)
(** * The lines of the file: vocabulary *)
(* ===================================================================== *)

(** How a line ends on disk. *)
Inductive terminator : Type :=
| NoEnd        (* the last line, with no line break after it *)
| EndLF
| EndCR
| EndCRLF.

Definition terminator_text (t : terminator) : pystr :=
  match t with
  | NoEnd => []
  | EndLF => [LF]
  | EndCR => [CR]
  | EndCRLF => [CR; LF]
  end.

(** A line of the file: its characters up to the line break, and the line
    break. *)
Record raw_line : Type := RawLine {
  line_body : pystr;
  line_end : terminator
}.

(** The lines of a text, cut where universal newlines cut it: the
    traversal of [readlines_from], keeping the line breaks as they are. *)
Fixpoint raw_lines_from (cur : pystr) (s : pystr) : list raw_line :=
  match s with
  | [] => match cur with [] => [] | _ :: _ => [RawLine (rev cur) NoEnd] end
  | c :: t =>
    if c =? LF then RawLine (rev cur) EndLF :: raw_lines_from [] t
    else if c =? CR then
      match t with
      | c' :: t' =>
        if c' =? LF then RawLine (rev cur) EndCRLF :: raw_lines_from [] t'
        else RawLine (rev cur) EndCR :: raw_lines_from [] t
      | [] => [RawLine (rev cur) EndCR]
      end
    else raw_lines_from (c :: cur) t
  end.

Definition raw_lines (s : pystr) : list raw_line := raw_lines_from [] s.

(** A line as the file holds it, as [readlines] hands it to the loop, and
    as a file with the line break [n] holds it. *)
Definition line_on_disk (l : raw_line) : pystr :=
  line_body l ++ terminator_text (line_end l).

Definition line_as_read (l : raw_line) : pystr :=
  line_body l ++ match line_end l with NoEnd => [] | _ => [LF] end.

Definition line_as_written (n : newline) (l : raw_line) : pystr :=
  line_body l ++ match line_end l with NoEnd => [] | _ => linesep n end.

(** What the file holds once [text] has been written to it. *)
Definition written (env : environment) (text : pystr) : pystr :=
  translate_newlines (os_linesep env) text.

(** The lines [before] leave a list block open: one of them is a
    list-opening line and no list-closing line follows it. *)
Definition inside_list_block (before : list pystr) : Prop :=
  exists l1 opening l2,
    before = l1 ++ opening :: l2 /\
    is_Some (re_match list_start_pattern opening) /\
    forall l, In l l2 -> re_match list_end_pattern l = None.

(** The section in which a line that follows [before] stands: the key,
    without its quotes, of the last section-opening line, and the empty
    string when there is none. *)
Definition section_at (before : list pystr) (name : pystr) : Prop :=
  ((forall l, In l before -> re_match parent_key_match_pattern l = None) /\ name = []) \/
  exists l1 opening l2 m key,
    before = l1 ++ opening :: l2 /\
    re_match parent_key_match_pattern opening = Some m /\
    m_groups m = [(u "key", key)] /\
    name = unquote key /\
    forall l, In l l2 -> re_match parent_key_match_pattern l = None.




(* ===================================================================== *)
(** * Lemmas on the matcher *)
(* ===================================================================== *)

Section MatcherSound.

Context {A : Type}.
Implicit Types (k : mstate -> option A) (p : char -> bool).

Lemma star_greedy_sound p k s : forall pos g x,
  star_greedy p k pos g s = Some x ->
  exists w after,
    s = w ++ after /\ forallb p w = true /\
    k (MState (pos + length w) after g) = Some x.
Proof.
  induction s as [|c t IH]; intros pos g x H; simpl in H.
  - exists [], []. rewrite Nat.add_0_r. auto.
  - destruct (p c) eqn:Hp.
    + destruct (star_greedy p k (S pos) g t) as [y|] eqn:Hs.
      * injection H as ->. apply IH in Hs as (w & after & -> & Hw & Hk).
        exists (c :: w), after. simpl. rewrite Hp, Hw.
        replace (pos + S (length w))%nat with (S pos + length w)%nat by lia. auto.
      * exists [], (c :: t). rewrite Nat.add_0_r. auto.
    + exists [], (c :: t). rewrite Nat.add_0_r. auto.
Qed.

Lemma star_lazy_sound p k s : forall pos g x,
  star_lazy p k pos g s = Some x ->
  exists w after,
    s = w ++ after /\ forallb p w = true /\
    k (MState (pos + length w) after g) = Some x.
Proof.
  induction s as [|c t IH]; intros pos g x H; simpl in H.
  - destruct (k (MState pos [] g)) as [y|] eqn:Hk; [|discriminate].
    injection H as ->. exists [], []. rewrite Nat.add_0_r. auto.
  - destruct (k (MState pos (c :: t) g)) as [y|] eqn:Hk.
    + injection H as ->. exists [], (c :: t). rewrite Nat.add_0_r. auto.
    + destruct (p c) eqn:Hp; [|discriminate].
      apply IH in H as (w & after & -> & Hw & Hk').
      exists (c :: w), after. simpl. rewrite Hp, Hw.
      replace (pos + S (length w))%nat with (S pos + length w)%nat by lia. auto.
Qed.

End MatcherSound.

(** Every success of [exec] is a way of matching the pattern. *)
Lemma exec_sound {A} (r : regex) : forall (k : mstate -> option A) st x,
  exec r k st = Some x ->
  exists w after g',
    m_rest st = w ++ after /\
    matches r (m_pos st) w after (m_groups st) g' /\
    k (MState (m_pos st + length w) after g') = Some x.
Proof.
  induction r as [ |c|p| | |r1 IH1 r2 IH2|r1 IH1 r2 IH2|p|p|r1 IH1|name r1 IH1];
    intros k [pos rest g] x H; unfold advance in *; simpl in *.
  - exists [], rest, g. rewrite Nat.add_0_r. auto.
  - destruct rest as [|c' t]; [discriminate|].
    destruct (N.eqb_spec c' c) as [->|]; [|discriminate].
    exists [c], t, g. unfold advance in H. simpl in *. rewrite Nat.add_1_r. auto.
  - destruct rest as [|c' t]; [discriminate|].
    destruct (p c') eqn:Hp; [|discriminate].
    exists [c'], t, g. unfold advance in H. simpl in *. rewrite Nat.add_1_r.
    split; [done|]. split; [|done]. exists c'. auto.
  - destruct pos; [|discriminate].
    exists [], rest, g. auto.
  - destruct rest as [|c [|c' t]]; try discriminate.
    + exists [], [], g. rewrite Nat.add_0_r. auto 10.
    + destruct (N.eqb_spec c LF) as [->|]; [|discriminate].
      exists [], [LF], g. rewrite Nat.add_0_r. auto 10.
  - apply IH1 in H as (w1 & after1 & g1 & Hrest & Hm1 & Hk). simpl in *.
    apply IH2 in Hk as (w2 & after & g2 & Hrest2 & Hm2 & Hk). simpl in *.
    subst. exists (w1 ++ w2), after, g2.
    rewrite <- app_assoc, length_app, Nat.add_assoc.
    split; [done|]. split; [|done]. exists w1, w2, g1. auto.
  - destruct (exec r1 k (MState pos rest g)) as [y|] eqn:H1.
    + injection H as ->. apply IH1 in H1 as (w & after & g' & ? & ? & ?).
      exists w, after, g'. auto.
    + apply IH2 in H as (w & after & g' & ? & ? & ?).
      exists w, after, g'. auto.
  - apply star_greedy_sound in H as (w & after & ? & ? & ?).
    exists w, after, g. auto.
  - apply star_lazy_sound in H as (w & after & ? & ? & ?).
    exists w, after, g. auto.
  - destruct (exec r1 k (MState pos rest g)) as [y|] eqn:H1.
    + injection H as ->. apply IH1 in H1 as (w & after & g' & ? & ? & ?).
      exists w, after, g'. auto.
    + exists [], rest, g. rewrite Nat.add_0_r. auto.
  - apply IH1 in H as (w & after & g' & Hrest & Hm & Hk). simpl in *.
    destruct name as [n|].
    + exists w, after, ((n, w) :: g'). subst.
      replace (pos + length w - pos)%nat with (length w) in Hk by lia.
      rewrite firstn_app, Nat.sub_diag, firstn_all in Hk. simpl in Hk.
      rewrite app_nil_r in Hk. split; [done|]. split; [|done].
      exists g'. auto.
    + exists w, after, g'. auto.
Qed.

(** What [re.match] returns describes a decomposition of the text. *)
Lemma re_match_sound (r : regex) (s : pystr) (m : mstate) :
  re_match r s = Some m ->
  exists w, s = w ++ m_rest m /\ matches r 0 w (m_rest m) [] (m_groups m).
Proof.
  intros H. apply exec_sound in H as (w & after & g' & Hs & Hm & Hk).
  simpl in *. injection Hk as <-. exists w. auto.
Qed.

(** A text that the pattern cannot match in any way is not matched. *)
Lemma re_match_none (r : regex) (s : pystr) :
  (forall w after g', s = w ++ after -> ~ matches r 0 w after [] g') ->
  re_match r s = None.
Proof.
  intros H. destruct (re_match r s) as [m|] eqn:Hm; [|done].
  apply re_match_sound in Hm as (w & Hs & Hw). exfalso. eapply H; eauto.
Qed.

(** Without MULTILINE, [^] holds at offset 0 only. *)
Lemma Bol_only_at_start {A} (r : regex) (k : mstate -> option A) pos rest g :
  exec (Cat Bol r) k (MState (S pos) rest g) = None.
Proof. reflexivity. Qed.

(** ** The building blocks of the four patterns *)

Lemma matches_lit (s : pystr) : forall pos w after g g',
  matches (lit s) pos w after g g' -> w = s /\ g' = g.
Proof.
  induction s as [|c t IH]; intros pos w after g g' H.
  - exact H.
  - destruct H as (w1 & w2 & g1 & -> & [-> ->] & H).
    apply IH in H as [-> ->]. auto.
Qed.

Lemma matches_rep_Chr (n : nat) (c : char) : forall pos w after g g',
  matches (rep n (Chr c)) pos w after g g' -> w = repeat c n /\ g' = g.
Proof.
  induction n as [|n IH]; intros pos w after g g' H.
  - exact H.
  - destruct H as (w1 & w2 & g1 & -> & [-> ->] & H).
    apply IH in H as [-> ->]. auto.
Qed.

Lemma matches_quoted (q : char) pos w after g g' :
  matches (re_seq [Chr q; StarLazy any_char; Chr q]) pos w after g g' ->
  quoted_by q w /\ g' = g.
Proof.
  intros (w1 & w2 & g1 & -> & [-> ->] & (w3 & w4 & g2 & -> & [Hb ->] &
          (w5 & w6 & g3 & -> & [-> ->] & [-> ->]))).
  split; [|done]. exists w3. rewrite app_nil_r. auto.
Qed.

Lemma matches_quoted_token pos w after g g' :
  matches quoted_token pos w after g g' ->
  (quoted_by squote w \/ quoted_by dquote w) /\ g' = g.
Proof.
  intros [H|H]; apply matches_quoted in H as [? ->]; auto.
Qed.

(** The leading part shared by the list and scalar patterns. *)
Lemma matches_key_group pos w after g g' :
  matches (Grp (Some (u "key")) quoted_token) pos w after g g' ->
  (quoted_by squote w \/ quoted_by dquote w) /\ g' = (u "key", w) :: g.
Proof.
  intros (g1 & H & ->). apply matches_quoted_token in H as [? ->]. auto.
Qed.

(** What a scalar line looks like, and what the match object holds. *)
Lemma key_value_match_inv (line : pystr) (m : mstate) :
  re_match key_value_match_pattern line = Some m ->
  exists key value,
    line = indent 8 ++ key ++ u ": " ++ value ++ [comma] ++ m_rest m /\
    (m_rest m = [] \/ m_rest m = [LF]) /\
    (quoted_by squote key \/ quoted_by dquote key) /\
    m_groups m = [(u "value", value); (u "key", key)].
Proof.
  intros H. apply re_match_sound in H as (w & -> & H).
  destruct H as (w0 & r0 & g0 & -> & (-> & _ & ->) & H).
  destruct H as (w1 & r1 & g1 & -> & Hsp & H).
  apply matches_rep_Chr in Hsp as [-> ->].
  destruct H as (key & r2 & g2 & -> & Hkey & H).
  apply matches_key_group in Hkey as [Hq ->].
  destruct H as (w3 & r3 & g3 & -> & Hsep & H).
  apply matches_lit in Hsep as [-> ->].
  destruct H as (value & r4 & g4 & -> & (g5 & Hval & ->) & H).
  destruct H as (w5 & r5 & g6 & -> & [-> ->] & H).
  destruct H as (w6 & r6 & g7 & -> & (-> & Hend & ->) & [-> ->]).
  assert (g5 = [(u "key", key)]) as ->.
  { destruct Hval as [(?&?&?&_&(?&_&_&->)&(_&->))|[Hval|[Hval|[Hval|[Hval|Hval]]]]];
      [done|try (apply matches_lit in Hval as [_ ->]; done)..];
      apply matches_quoted in Hval as [_ ->]; done. }
  exists key, value. simpl in Hend. repeat split; auto.
  unfold indent. rewrite <- !app_assoc, !app_nil_l. reflexivity.
Qed.

(** What a section-opening line looks like. *)
Lemma parent_key_match_inv (line : pystr) (m : mstate) :
  re_match parent_key_match_pattern line = Some m ->
  exists key,
    line = indent 4 ++ key ++ u ": {" ++ m_rest m /\
    (m_rest m = [] \/ m_rest m = [LF]) /\
    (quoted_by squote key \/ quoted_by dquote key) /\
    m_groups m = [(u "key", key)].
Proof.
  intros H. apply re_match_sound in H as (w & -> & H).
  destruct H as (w0 & r0 & g0 & -> & (-> & _ & ->) & H).
  destruct H as (w1 & r1 & g1 & -> & Hsp & H).
  apply matches_rep_Chr in Hsp as [-> ->].
  destruct H as (key & r2 & g2 & -> & Hkey & H).
  apply matches_key_group in Hkey as [Hq ->].
  destruct H as (w3 & r3 & g3 & -> & Hsep & H).
  apply matches_lit in Hsep as [-> ->].
  destruct H as (w6 & r6 & g7 & -> & (-> & Hend & ->) & [-> ->]).
  exists key. simpl in Hend. repeat split; auto.
  unfold indent. rewrite <- !app_assoc, !app_nil_l. reflexivity.
Qed.

Lemma matches_trailing_comment pos w after g g' :
  matches (re_seq trailing_comment) pos w after g g' ->
  comment_tail w /\ (after = [] \/ after = [LF]) /\ g' = g.
Proof.
  intros (blanks & r0 & g0 & -> & [Hb ->] & (comment & r1 & g1 & -> & Hc &
          (w2 & r2 & g2 & -> & (-> & Hend & ->) & [-> ->]))).
  simpl in Hend. rewrite !app_nil_r.
  destruct Hc as [(w3 & r3 & g3 & -> & [-> ->] &
                   (c & r4 & g4 & -> & [Hc ->] & [-> ->]))|[-> ->]].
  - repeat split; auto. exists blanks, (hash :: c). rewrite app_nil_r.
    repeat split; auto. right. exists c. auto.
  - repeat split; auto. exists blanks, []. auto.
Qed.

(** What a list-opening line looks like. *)
Lemma list_start_inv (line : pystr) (m : mstate) :
  re_match list_start_pattern line = Some m ->
  exists key tail,
    line = indent 8 ++ key ++ u ": [" ++ tail ++ m_rest m /\
    comment_tail tail /\
    (m_rest m = [] \/ m_rest m = [LF]) /\
    (quoted_by squote key \/ quoted_by dquote key) /\
    m_groups m = [(u "key", key)].
Proof.
  intros H. apply re_match_sound in H as (w & -> & H).
  destruct H as (w0 & r0 & g0 & -> & (-> & _ & ->) & H).
  destruct H as (w1 & r1 & g1 & -> & Hsp & H).
  apply matches_rep_Chr in Hsp as [-> ->].
  destruct H as (key & r2 & g2 & -> & Hkey & H).
  apply matches_key_group in Hkey as [Hq ->].
  destruct H as (w3 & r3 & g3 & -> & Hsep & H).
  apply matches_lit in Hsep as [-> ->].
  apply matches_trailing_comment in H as (Ht & Hend & ->).
  exists key, r3. repeat split; auto.
  unfold indent. rewrite <- !app_assoc, !app_nil_l. reflexivity.
Qed.

(** What a list-closing line looks like. *)
Lemma list_end_inv (line : pystr) (m : mstate) :
  re_match list_end_pattern line = Some m ->
  exists tail,
    line = indent 8 ++ u "]," ++ tail ++ m_rest m /\
    comment_tail tail /\
    (m_rest m = [] \/ m_rest m = [LF]).
Proof.
  intros H. apply re_match_sound in H as (w & -> & H).
  destruct H as (w0 & r0 & g0 & -> & (-> & _ & ->) & H).
  destruct H as (w1 & r1 & g1 & -> & Hsp & H).
  apply matches_rep_Chr in Hsp as [-> ->].
  destruct H as (w3 & r3 & g3 & -> & Hsep & H).
  apply matches_lit in Hsep as [-> ->].
  apply matches_trailing_comment in H as (Ht & Hend & _).
  exists r3. repeat split; auto.
Qed.

(** A line that starts with eight blanks and a quote matches neither the
    section-opening nor the list-closing pattern. *)
Lemma indented_quote_not_parent (q : char) (body : pystr) :
  q = squote \/ q = dquote ->
  re_match parent_key_match_pattern (indent 8 ++ q :: body) = None.
Proof.
  intros Hq. destruct (re_match _ _) as [m|] eqn:E; [|done].
  apply parent_key_match_inv in E as (key & E & _ & Hk & _).
  exfalso. destruct Hk as [(b & -> & _)|(b & -> & _)];
    cbv [indent repeat app] in E; simplify_eq.
Qed.

Lemma indented_quote_not_list_end (q : char) (body : pystr) :
  q = squote \/ q = dquote ->
  re_match list_end_pattern (indent 8 ++ q :: body) = None.
Proof.
  intros Hq. destruct (re_match _ _) as [m|] eqn:E; [|done].
  apply list_end_inv in E as (tail & E & _).
  exfalso. eval_u_in E. cbv [indent repeat app] in E.
  destruct Hq as [->| ->]; simplify_eq.
Qed.

(* ===================================================================== *)
(** * Checks on concrete inputs *)
(* ===================================================================== *)

Example u_kuten : u "。" = [kuten].
Proof. reflexivity. Qed.

Example str_int_samples : str_int 7010 = u "7010" /\ str_int (-5) = u "-5" /\ str_int 0 = u "0".
Proof. repeat split; reflexivity. Qed.

Example replace_every_occurrence :
  str_replace (u "ab") (u "-") (u "xababyab") = u "x--y-".
Proof. reflexivity. Qed.

Example rstrip_slashes : rstrip_char 47 (u "http://host:40772//") = u "http://host:40772".
Proof. reflexivity. Qed.

Example split_at_line_feeds :
  split_char LF (u "a" ++ [LF] ++ u "b" ++ [LF]) = [u "a"; u "b"; []].
Proof. reflexivity. Qed.

Example readlines_universal_newlines :
  readlines (u "a" ++ [CR; LF] ++ u "b" ++ [CR] ++ u "c")
  = [u "a" ++ [LF]; u "b" ++ [LF]; u "c"].
Proof. reflexivity. Qed.

(** A section line, with and without its line feed. *)
Example parent_key_sample :
  (re_match parent_key_match_pattern (Sample.ln "    'general': {")
   ≫= fun m => group m (u "key")) = Some (u "'general'") /\
  (re_match parent_key_match_pattern (u "    'general': {")
   ≫= fun m => group m (u "key")) = Some (u "'general'") /\
  re_match parent_key_match_pattern (Sample.ln "    'general': { ") = None.
Proof. repeat split; vm_compute; reflexivity. Qed.

(** The non-greedy key stops at the first quote that lets the rest match. *)
Example key_value_sample :
  (re_match key_value_match_pattern (Sample.ln "        'edcb_url': 'tcp://127.0.0.1:4510/',")
   ≫= fun m => group m (u "value")) = Some (u "'tcp://127.0.0.1:4510/'") /\
  (re_match key_value_match_pattern (Sample.ln "        'a': 'b': 1,")
   ≫= fun m => group m (u "key")) = Some (u "'a': 'b'") /\
  re_match key_value_match_pattern (Sample.ln "        'port': 7000, # port") = None /\
  re_match key_value_match_pattern (Sample.ln "        'port': -1,") = None.
Proof. repeat split; vm_compute; reflexivity. Qed.

(** A comment and an ideographic space may follow the bracket. *)
Example list_start_sample :
  is_Some (re_match list_start_pattern (Sample.ln "        'folders': [  # paths")) /\
  is_Some (re_match list_start_pattern (u "        'folders': [" ++ [12288; LF])) /\
  re_match list_start_pattern (Sample.ln "        'folders': ['a'],") = None /\
  is_Some (re_match list_end_pattern (Sample.ln "        ],")).
Proof. repeat split; vm_compute; eauto. Qed.

(** The template of a scalar line: doubled backslashes come out single. *)
Example re_sub_sample :
  re_sub key_value_match_pattern
    (u "        \g<key>: 'C:\\TV'," ) (Sample.ln "        'upload_folder': 'old',")
  = Some (Sample.ln "        'upload_folder': 'C:\TV',") /\
  re_sub key_value_match_pattern (u "\q") (Sample.ln "        'a': 1,") = None.
Proof. repeat split; vm_compute; reflexivity. Qed.

(* ===================================================================== *)
(** * Lemmas on text *)
(* ===================================================================== *)

(** Replacing a single character is a character-wise substitution. *)
Lemma str_replace_char (c : char) (new s : pystr) :
  str_replace [c] new s = flat_map (fun x => if x =? c then new else [x])%N s.
Proof.
  unfold str_replace. induction s as [|x t IH]; [done|].
  simpl. rewrite andb_true_r, N.eqb_sym. destruct (x =? c)%N; simpl; by rewrite IH.
Qed.




(* ===================================================================== *)
(** * Lemmas on replacement templates *)
(* ===================================================================== *)

(** The doubled backslashes of [escape_backslashes] are read back by the
    template parser as single ones: the template of an escaped text is the
    text itself. *)
Lemma parse_template_escaped (x rest : pystr) (items : list titem) :
  parse_template_from TText rest = Some items ->
  parse_template_from TText (escape_backslashes x ++ rest)
  = Some (map TLit x ++ items).
Proof.
  intros Hrest. unfold escape_backslashes. rewrite str_replace_char.
  induction x as [|c t IH]; [done|].
  simpl. destruct (N.eqb_spec c backslash) as [->|Hne].
  - simpl. rewrite IH. done.
  - simpl. apply N.eqb_neq in Hne. rewrite Hne, IH. done.
Qed.

Lemma expand_literals (names : list pystr) (m : mstate) (x : pystr)
    (items : list titem) :
  expand names m (map TLit x ++ items) = app x <$> expand names m items.
Proof.
  induction x as [|c t IH]; simpl.
  - by destruct (expand names m items).
  - rewrite IH. by destruct (expand names m items).
Qed.

(** The substitution made on a scalar line: the text between the colon and
    the comma is replaced by [value_real], as it was before its backslashes
    were doubled; everything else of the line stays. *)
Lemma re_sub_key_value (line : pystr) (m : mstate) (key value value_real : pystr) :
  re_match key_value_match_pattern line = Some m ->
  m_groups m = [(u "value", value); (u "key", key)] ->
  re_sub key_value_match_pattern
    (u "        \g<key>: " ++ escape_backslashes value_real ++ u ",") line
  = Some (indent 8 ++ key ++ u ": " ++ value_real ++ [comma] ++ m_rest m).
Proof.
  intros Hm Hg. unfold re_sub. rewrite Hm.
  assert (parse_template
            (u "        \g<key>: " ++ escape_backslashes value_real ++ u ",")
          = Some (map TLit (indent 8) ++ [TGroup (u "key")] ++ map TLit (u ": ")
                    ++ map TLit value_real ++ [TLit comma])) as ->.
  { unfold parse_template. eval_u. cbn [app].
    change (parse_template_from TText ?s) with
      (parse_template_from TText s) at 1.
    cbn -[escape_backslashes app].
    rewrite (parse_template_escaped value_real [44%N] [TLit 44%N]) by done.
    reflexivity. }
  cbn [mbind option_bind].
  rewrite expand_literals.
  cbn [expand app]. unfold group. rewrite Hg.
  replace (existsb (str_eqb (u "key")) (group_names key_value_match_pattern))
    with true by (vm_compute; reflexivity).
  replace (assoc (u "key") [(u "value", value); (u "key", key)]) with (Some key)
    by (vm_compute; reflexivity).
  rewrite expand_literals, expand_literals.
  cbn [expand fmap option_fmap option_map mbind option_bind default].
  f_equal. rewrite <- ?app_assoc. reflexivity.
Qed.

(* ===================================================================== *)
(** * Lemmas on the formatting of scalars *)
(* ===================================================================== *)

Lemma bytes_of_String (a : ascii) (s : string) :
  bytes_of (String a s) = N_of_ascii a :: bytes_of s.
Proof.
  unfold bytes_of. simpl. by rewrite ascii_of_byte_of_ascii.
Qed.

(** The decimal text of an integer holds digits and a sign, no dot. *)
Lemma string_of_uint_no_dot (d : Decimal.uint) :
  dot ∉ bytes_of (NilEmpty.string_of_uint d).
Proof.
  induction d; simpl; [apply not_elem_of_nil|..];
    rewrite bytes_of_String; apply not_elem_of_cons;
    (split; [intros E; vm_compute in E; discriminate|auto]).
Qed.

Lemma str_int_no_dot (n : Z) : dot ∉ str_int n.
Proof.
  unfold str_int.
  assert (forall d, dot ∉ bytes_of (NilZero.string_of_uint d)) as Hu.
  { intros d. pose proof (string_of_uint_no_dot d) as H.
    destruct d; try exact H. simpl. rewrite bytes_of_String.
    apply not_elem_of_cons.
    split; [intros E; vm_compute in E; discriminate|apply not_elem_of_nil]. }
  destruct (Z.to_int n) as [d|d]; simpl; [apply Hu|].
  rewrite bytes_of_String. apply not_elem_of_cons.
  split; [intros E; vm_compute in E; discriminate|apply Hu].
Qed.


Lemma ends_with_dot_zero_inv (s : pystr) :
  ends_with (u ".0") s = true -> dot ∈ s.
Proof.
  unfold ends_with. intros H. apply list_elem_of_In, in_rev, list_elem_of_In.
  change (rev (u ".0")) with [48%N; dot] in H.
  destruct (rev s) as [|a [|b t]]; cbn [starts_with] in H;
    [discriminate|by rewrite andb_false_r in H|].
  apply andb_prop in H as [_ H]. apply andb_prop in H as [H _].
  apply N.eqb_eq in H as <-.
  apply list_elem_of_further, list_elem_of_here.
Qed.


(** An [int] is written as its decimal text. *)
Lemma value_real_of_int (n : Z) : value_real_of (VInt n) = str_int n.
Proof.
  unfold value_real_of. simpl.
  destruct (ends_with (u ".0") (str_int n)) eqn:E; [|done].
  apply ends_with_dot_zero_inv in E. by apply str_int_no_dot in E.
Qed.


Lemma value_real_of_other_float (repr : pystr) :
  ends_with (u ".0") repr = false -> value_real_of (VFloat repr) = repr.
Proof. unfold value_real_of. simpl. by intros ->. Qed.

(* ===================================================================== *)
(** * Lemmas on the loop of [SaveConfig] *)
(* ===================================================================== *)

(** A scalar line that reaches the scalar branch, with its field in the
    current section: only the value token is replaced. *)
Lemma scan_line_scalar (config_dict : gmap pystr (gmap pystr pyvalue))
    (st : scan_state) (line : pystr) (m : mstate) (key value : pystr)
    (section : gmap pystr pyvalue) (v : pyvalue) :
  in_list st = false ->
  re_match list_start_pattern line = None ->
  re_match key_value_match_pattern line = Some m ->
  m_groups m = [(u "value", value); (u "key", key)] ->
  config_dict !! current_parent_key st = Some section ->
  section !! unquote key = Some v ->
  scan_line config_dict st line
  = Ok (st, [indent 8 ++ key ++ u ": " ++ value_real_of v ++ [comma] ++ m_rest m]).
Proof.
  intros Hin Hls Hkv Hg Hsec Hv.
  pose proof (key_value_match_inv _ _ Hkv) as (key' & value' & Hline & _ & Hq & Hg').
  rewrite Hg in Hg'. injection Hg' as <- <-.
  assert (exists q body, (q = squote \/ q = dquote) /\ line = indent 8 ++ q :: body)
    as (q & body & Hqq & Hshape).
  { destruct Hq as [(b & -> & _)|(b & -> & _)]; eexists _, _;
      (split; [|rewrite Hline; simpl; reflexivity]); auto. }
  unfold scan_line.
  rewrite Hshape at 1. rewrite indented_quote_not_parent by done.
  rewrite Hls.
  rewrite Hshape at 1. rewrite indented_quote_not_list_end by done.
  rewrite Hin, Hkv.
  unfold groupdict_get, group. rewrite Hg.
  replace (assoc (u "key") [(u "value", value); (u "key", key)]) with (Some key)
    by (vm_compute; reflexivity).
  cbn [mbind result_bind]. unfold getitem. rewrite Hsec.
  cbn [mbind result_bind]. rewrite Hv.
  rewrite (re_sub_key_value line m key value) by done.
  destruct st; done.
Qed.

(** A list-opening or scalar line starts with eight blanks and a quote. *)
Lemma field_line_shape (line : pystr) :
  is_Some (re_match list_start_pattern line) \/
  is_Some (re_match key_value_match_pattern line) ->
  exists q body, (q = squote \/ q = dquote) /\ line = indent 8 ++ q :: body.
Proof.
  assert (forall key rest,
            quoted_by squote key \/ quoted_by dquote key ->
            exists q body, (q = squote \/ q = dquote) /\
                           indent 8 ++ key ++ rest = indent 8 ++ q :: body) as Hshape.
  { intros key rest [(b & -> & _)|(b & -> & _)].
    - exists squote, ((b ++ [squote]) ++ rest). split; [by left|reflexivity].
    - exists dquote, ((b ++ [dquote]) ++ rest). split; [by right|reflexivity]. }
  intros [[m H]|[m H]].
  - apply list_start_inv in H as (key & tail & -> & _ & _ & Hq & _).
    by apply Hshape.
  - apply key_value_match_inv in H as (key & value & -> & _ & Hq & _).
    by apply Hshape.
Qed.

(* ===================================================================== *)
(** * The loop of [SaveConfig] as a whole *)
(* ===================================================================== *)

Lemma scan_line_unrecognized (config_dict : gmap pystr (gmap pystr pyvalue))
    (st : scan_state) (line : pystr) :
  unrecognized line ->
  scan_line config_dict st line = Ok (st, if in_list st then [] else [line]).
Proof.
  intros (H1 & H2 & H3 & H4). unfold scan_line. rewrite H1, H2, H3, H4.
  by destruct (in_list st).
Qed.

(** The loop over two stretches of lines. *)
Lemma scan_app (config_dict : gmap pystr (gmap pystr pyvalue)) (l1 l2 : list pystr) :
  forall st,
    scan config_dict st (l1 ++ l2)
    = '(st1, out1) ← scan config_dict st l1;
      '(st2, out2) ← scan config_dict st1 l2;
      Ok (st2, out1 ++ out2).
Proof.
  induction l1 as [|l l1 IH]; intros st; simpl.
  - destruct (scan config_dict st l2) as [[st2 out2]|e]; done.
  - destruct (scan_line config_dict st l) as [[st' out]|e]; [|done]. simpl.
    rewrite IH. destruct (scan config_dict st' l1) as [[st1 out1]|e]; [|done]. simpl.
    destruct (scan config_dict st1 l2) as [[st2 out2]|e]; [|done]. simpl.
    by rewrite app_assoc.
Qed.

(** What [SaveConfig] does once its dictionary is built and the loop has
    run to its end, when the text can be encoded and the file takes it. *)
Lemma SaveConfig_writes (env : environment) (config : ServerSettings) (w : world)
    (config_dict : gmap pystr (gmap pystr pyvalue)) (text : pystr)
    (st : scan_state) (new_lines : list pystr) :
  save_dict env config = Ok config_dict ->
  config_yaml w = Some text ->
  scan config_dict initial_scan_state (readlines text) = Ok (st, new_lines) ->
  file_write env (concat new_lines) = Stored ->
  existsb is_surrogate (concat new_lines) = false ->
  SaveConfig env config w
  = (Ok tt,
     World (_CONFIG w)
       (Some (translate_newlines (os_linesep env) (concat new_lines)))
       (trace w ++ [EvRead; EvWrite (concat new_lines)])).
Proof.
  intros Hd Hf Hs Hw Hu. unfold SaveConfig, mbind, M_bind, lift, read_file, write_file.
  rewrite Hd, Hf. cbn [config_yaml _CONFIG trace]. rewrite Hs, Hw, Hu.
  cbn [config_yaml _CONFIG trace]. by rewrite <- app_assoc.
Qed.

(** When the loop raises, nothing is written. *)
Lemma SaveConfig_raises (env : environment) (config : ServerSettings) (w : world)
    (config_dict : gmap pystr (gmap pystr pyvalue)) (text : pystr) (e : exn) :
  save_dict env config = Ok config_dict ->
  config_yaml w = Some text ->
  scan config_dict initial_scan_state (readlines text) = Raise e ->
  SaveConfig env config w
  = (Raise e, World (_CONFIG w) (config_yaml w) (trace w ++ [EvRead])).
Proof.
  intros Hd Hf Hs. unfold SaveConfig, mbind, M_bind, lift, read_file.
  rewrite Hd, Hf. simpl. by rewrite Hs.
Qed.

(* ===================================================================== *)
(** * C3: the Docker path prefix *)
(* ===================================================================== *)

(** Taking the prefix off with [str.replace] passes over the prefix that
    [LoadConfig] put in front and goes on with the path itself. *)
Lemma replace_from_skip (old new x p : pystr) :
  replace_from old new (length x) (x ++ p) = replace_from old new 0 p.
Proof. induction x as [|c t IH]; [done|]. simpl. exact IH. Qed.

Lemma starts_with_app (p s : pystr) : starts_with p (p ++ s) = true.
Proof. induction p as [|c t IH]; [done|]. simpl. by rewrite N.eqb_refl, IH. Qed.

Lemma strip_after_prepend (p : pystr) :
  str_replace _DOCKER_PATH_PREFIX [] (_DOCKER_PATH_PREFIX ++ p)
  = str_replace _DOCKER_PATH_PREFIX [] p.
Proof.
  change _DOCKER_PATH_PREFIX with (47%N :: u "host-rootfs").
  unfold str_replace. cbn [app replace_from].
  change (47%N :: u "host-rootfs" ++ p) with ((47%N :: u "host-rootfs") ++ p).
  rewrite starts_with_app. cbn [app length].
  replace (S (length (u "host-rootfs")) - 1)%nat with (length (u "host-rootfs")) by lia.
  apply replace_from_skip.
Qed.

(** C3 (defect in the code).  Under Docker [SaveConfig] does not undo what
    [LoadConfig] did to the two path fields.  A debug capture path held as a
    [pathlib.Path], which is what a validated document holds, keeps its
    prefix: the test [type(...) is str or ... is Path] fails on it, and the
    prefixed path is written to the file.  And [str.replace] takes out every
    occurrence of the prefix, so a host path that itself contains
    [/host-rootfs] does not come back. *)
Theorem C3_docker_prefix_not_reversed :
  let ts := u "/mnt/rec/test.ts" in
  let folder := u "/mnt/captures" in
  let loaded :=
    Sample.settings Sample.no_section Sample.no_section
      {[ u "debug_mode_ts_path" := VPath (_DOCKER_PATH_PREFIX ++ ts) ]}
      {[ u "upload_folder" := VPath (_DOCKER_PATH_PREFIX ++ folder) ]}
      Sample.no_section in
  let text :=
    Sample.ln "    'tv': {" ++
    Sample.ln "        'debug_mode_ts_path': '/mnt/rec/test.ts'," ++
    Sample.ln "    }," ++
    Sample.ln "    'capture': {" ++
    Sample.ln "        'upload_folder': '/mnt/captures'," ++
    Sample.ln "    }," in
  prefix_debug_mode_ts_path
    {[ u "tv" := RSection {[ u "debug_mode_ts_path" := VStr ts ]} ]}
  = Ok {[ u "tv" :=
            RSection {[ u "debug_mode_ts_path" := VStr (_DOCKER_PATH_PREFIX ++ ts) ]} ]} /\
  save_dict Sample.docker loaded
  = Ok (<[ u "capture" := {[ u "upload_folder" := VStr folder ]} ]> (dict_of loaded)) /\
  config_yaml (SaveConfig Sample.docker loaded (Sample.on_disk text)).2
  = Some (Sample.ln "    'tv': {" ++
          Sample.ln "        'debug_mode_ts_path': '/host-rootfs/mnt/rec/test.ts'," ++
          Sample.ln "    }," ++
          Sample.ln "    'capture': {" ++
          Sample.ln "        'upload_folder': '/mnt/captures'," ++
          Sample.ln "    },") /\
  str_replace _DOCKER_PATH_PREFIX [] (_DOCKER_PATH_PREFIX ++ u "/mnt/host-rootfs/captures")
  = u "/mnt/captures".
Proof.
  intros ts folder loaded text. repeat split; vm_compute; reflexivity.
Qed.

(* ===================================================================== *)
(** * C4, C5: the port validator *)
(* ===================================================================== *)

Local Open Scope Z_scope.

Lemma is_own_family_false (ps : snapshot) (pid ppid : Z) :
  is_own_family ps pid ppid = false <->
  pid <> current_pid ps /\ pid <> current_ppid ps /\
  ppid <> current_pid ps /\ ppid <> current_ppid ps.
Proof.
  unfold is_own_family. rewrite !orb_false_iff, !Z.eqb_neq. tauto.
Qed.

Lemma str_eqb_eq (a b : pystr) : str_eqb a b = true <-> a = b.
Proof. unfold str_eqb. apply bool_decide_eq_true. Qed.

Lemma port_in_spec (port : Z) (ports : list Z) :
  port_in port ports = true <-> In port ports.
Proof.
  unfold port_in. rewrite existsb_exists. split.
  - intros (x & Hx & <-%Z.eqb_eq). done.
  - intros H. exists port. by rewrite Z.eqb_refl.
Qed.

(** The loop ends with the ports of the foreign listeners, in order. *)
Lemma used_ports_spec (ps : snapshot) (conns : list sconn) :
  owners_known ps conns ->
  exists ports,
    used_ports ps conns = Ok ports /\
    forall q, In q ports <-> exists conn, In conn conns /\ foreign_listener ps conn q.
Proof.
  induction conns as [|conn rest IH]; intros Hk.
  - exists []. split; [done|]. intros q. split; [done|]. by intros (? & [] & _).
  - destruct IH as (ports & Hp & Hspec).
    { intros c pid Hc. apply Hk. by right. }
    assert (forall q, (exists c, In c rest /\ foreign_listener ps c q) ->
                      exists c, In c (conn :: rest) /\ foreign_listener ps c q) as Hweak.
    { intros q (c & Hc & Hf). exists c. split; [by right|done]. }
    assert (forall q, ~ foreign_listener ps conn q ->
              (exists c, In c (conn :: rest) /\ foreign_listener ps c q) ->
              exists c, In c rest /\ foreign_listener ps c q) as Hskip.
    { intros q Hn (c & [<-|Hc] & Hf); [done|]. by exists c. }
    simpl. destruct (str_eqb (conn_status conn) (u "LISTEN")) eqn:Hst.
    2:{ exists ports. split; [done|]. intros q. rewrite Hspec. split; [auto|].
        apply Hskip. intros (?&?&?&Hs&_). apply str_eqb_eq in Hs. congruence. }
    apply str_eqb_eq in Hst.
    destruct (conn_pid conn) as [pid|] eqn:Hpid.
    2:{ exists ports. split; [done|]. intros q. rewrite Hspec. split; [auto|].
        apply Hskip. intros (?&?&?&_&?&_). congruence. }
    destruct (Hk conn pid) as [ppid Hpp]; [by left|done|done|]. rewrite Hpp.
    destruct (is_own_family ps pid ppid) eqn:Hfam.
    { exists ports. split; [done|]. intros q. rewrite Hspec. split; [auto|].
      apply Hskip. intros (pid'&ppid'&?&_&?&?&?&?&?&?&_).
      assert (pid' = pid) as -> by congruence.
      assert (ppid' = ppid) as -> by congruence.
      assert (is_own_family ps pid ppid = false) by (by apply is_own_family_false).
      congruence. }
    apply is_own_family_false in Hfam as (?&?&?&?).
    destruct (conn_laddr conn) as [a|] eqn:Ha.
    2:{ exists ports. split; [done|]. intros q. rewrite Hspec. split; [auto|].
        apply Hskip. intros (?&?&?&_&_&_&_&_&_&_&?&_). congruence. }
    rewrite Hp. exists (addr_port a :: ports). split; [done|].
    intros q. simpl. rewrite Hspec. split.
    + intros [<-|Hq]; [|auto]. exists conn. split; [by left|].
      exists pid, ppid, a. auto 10.
    + intros (c & [<-|Hc] & Hf).
      * left. destruct Hf as (?&?&a'&_&_&_&_&_&_&_&Ha'&<-). congruence.
      * right. by exists c.
Qed.

Lemma validate_port_in_range (ps : snapshot) (port : Z) (ports : list Z) :
  1024 <= port <= 65525 ->
  used_ports ps (net_connections ps) = Ok ports ->
  validate_port ps port
  = if port_in port ports then Raise (ValueError (port_in_use_message port))
    else if port_in (port + 10) ports
         then Raise (ValueError (companion_port_in_use_message port))
         else Ok port.
Proof.
  intros Hr Hp. unfold validate_port.
  replace (port <? 1024) with false by (symmetry; apply Z.ltb_ge; lia).
  replace (port >? 65525) with false by (symmetry; rewrite Z.gtb_ltb; apply Z.ltb_ge; lia).
  simpl. by rewrite Hp.
Qed.

(** The loop stops at the first listening socket whose owner is gone. *)
Lemma used_ports_vanished (ps : snapshot) (before after : list sconn)
    (conn : sconn) (pid : Z) :
  owners_known ps before ->
  conn_status conn = u "LISTEN" ->
  conn_pid conn = Some pid ->
  parent_of ps pid = None ->
  used_ports ps (before ++ conn :: after) = Raise (NoSuchProcess pid).
Proof.
  intros Hb Hs Hp Hn. induction before as [|c before IH].
  - cbn [app used_ports]. rewrite Hs, Hp, Hn.
    by replace (str_eqb (u "LISTEN") (u "LISTEN")) with true
      by (symmetry; by apply str_eqb_eq).
  - assert (IH' : used_ports ps (before ++ conn :: after) = Raise (NoSuchProcess pid)).
    { apply IH. intros c' pid' Hin. apply Hb. by right. }
    cbn [app used_ports]. rewrite IH'.
    destruct (str_eqb (conn_status c) (u "LISTEN")) eqn:El; [|done].
    apply str_eqb_eq in El.
    destruct (conn_pid c) as [pid'|] eqn:Epid; [|done].
    destruct (Hb c pid' (or_introl eq_refl) El Epid) as [ppid Epp]. rewrite Epp.
    destruct (is_own_family ps pid' ppid); [done|].
    by destruct (conn_laddr c).
Qed.






(** The loop over the sockets fails only on a missing process. *)
Lemma used_ports_raises (ps : snapshot) (conns : list sconn) (e : exn) :
  used_ports ps conns = Raise e -> exists pid, e = NoSuchProcess pid.
Proof.
  induction conns as [|c r IH]; simpl; [discriminate|].
  destruct (str_eqb _ _); [|done].
  destruct (conn_pid c) as [pid|]; [|done].
  destruct (parent_of ps pid) as [ppid|]; [|intros [= <-]; by eexists].
  destruct (is_own_family ps pid ppid); [done|].
  destruct (conn_laddr c); [|done].
  destruct (used_ports ps r) as [ports|e']; simpl; [discriminate|].
  intros [= <-]. by apply IH.
Qed.





Local Close Scope Z_scope.

(* ===================================================================== *)
(** * C6: validation failure in [LoadConfig] *)
(* ===================================================================== *)

Lemma log_errors_nil (w : world) : log_errors w [] = w.
Proof. destruct w. unfold log_errors. simpl. by rewrite app_nil_r. Qed.

Lemma log_errors_app (w : world) (l1 l2 : list pystr) :
  log_errors (log_errors w l1) l2 = log_errors w (l1 ++ l2).
Proof. unfold log_errors. simpl. by rewrite map_app, app_assoc. Qed.

Lemma Logging_error_spec (msg : pystr) (w : world) :
  Logging_error msg w = (Ok tt, log_errors w [msg]).
Proof. reflexivity. Qed.

Lemma log_each_spec (lines : list pystr) : forall w,
  log_each lines w = (Ok tt, log_errors w lines).
Proof.
  induction lines as [|l r IH]; intros w.
  - by rewrite log_errors_nil.
  - simpl. unfold mbind, M_bind. rewrite Logging_error_spec, IH.
    by rewrite log_errors_app.
Qed.

Lemma log_custom_errors_spec (messages : list pystr) : forall w,
  log_custom_errors messages w
  = (Ok (existsb is_custom_error messages), log_errors w (custom_lines messages)).
Proof.
  induction messages as [|msg rest IH]; intros w.
  - by rewrite log_errors_nil.
  - unfold custom_lines. simpl. destruct (is_custom_error msg) eqn:E; simpl.
    + unfold mbind, M_bind. rewrite log_each_spec, IH. unfold mret, M_ret.
      by rewrite log_errors_app.
    + apply IH.
Qed.

Lemma report_validation_error_spec {A} (messages : list pystr) (detail : pystr)
    (w : world) :
  @report_validation_error A messages detail w
  = (Raise (SystemExit 1),
     log_errors w (if existsb is_custom_error messages
                   then custom_lines messages
                   else generic_lines detail)).
Proof.
  unfold report_validation_error, mbind, M_bind.
  rewrite log_custom_errors_spec.
  destruct (existsb is_custom_error messages) eqn:E; [done|].
  assert (custom_lines messages = []) as ->.
  { unfold custom_lines. clear -E. induction messages as [|m r IH]; [done|].
    simpl in *. apply orb_false_iff in E as [-> E]. by apply IH. }
  rewrite log_errors_nil.
  by rewrite !Logging_error_spec, !log_errors_app.
Qed.

(** Parsing raises what the parser or [dict] raised, or leaves through
    [sys.exit] on an empty document. *)
Lemma load_yaml_raises (env : environment) (text : pystr) (w w' : world) (e : exn) :
  load_yaml env text w = (Raise e, w') ->
  e = SystemExit 1 \/ exists name msg, e = LibraryError name msg.
Proof.
  unfold load_yaml.
  destruct (yaml_load env text) as [[ |d|name msg]|name msg]; simpl.
  - intros [= <- _]. by left.
  - discriminate.
  - intros [= <- _]. right. by eexists _, _.
  - intros [= <- _]. right. by eexists _, _.
Qed.

(** C6.  Let [LoadConfig] be called with validation on, find the file, parse
    it to a dictionary and normalize it, and let the schema refuse the
    dictionary with the messages [messages] and the text [detail].  Then the
    call ends in [SystemExit(1)], [_CONFIG] stays unset, and what is logged
    at error level is: if a message holds the mark, the lines of the marked
    messages, message by message and split at the line feeds, and nothing of
    the other messages; if none does, the two generic lines and [detail]. *)
Theorem C6_validation_failure
    (env : environment) (w : world) (text : pystr)
    (config_dict normalized : gmap pystr rawvalue)
    (messages : list pystr) (detail : pystr) :
  _CONFIG w = None ->
  config_yaml w = Some text ->
  yaml_load env text = YLoaded (YMapping config_dict) ->
  normalize env config_dict = Ok normalized ->
  validate env normalized = Invalid messages detail ->
  LoadConfig env false w
  = (Raise (SystemExit 1),
     World None (Some text)
       (trace w ++ [EvExists; EvRead] ++
        map (EvLog ERROR)
          (if existsb is_custom_error messages
           then flat_map (split_char LF) (List.filter is_custom_error messages)
           else [u "設定内容が不正なため、KonomiTV を起動できません。";
                 u "以下のエラーメッセージを参考に、config.yaml の記述が正しいかを確認してください。";
                 detail]))).
Proof.
  intros Hc Hf Hy Hn Hv.
  unfold LoadConfig, mbind, M_bind, get_CONFIG, path_exists.
  rewrite Hc, Hf. simpl.
  unfold try_except_Exception, mbind, M_bind, read_file, load_yaml. simpl.
  rewrite Hy. unfold mret, M_ret, lift. rewrite Hn, Hv.
  rewrite report_validation_error_spec. unfold log_errors. simpl.
  rewrite Hc, <- !app_assoc. reflexivity.
Qed.

(** The port message of the module and a generic message of the schema: the
    two lines of the former are logged, the latter is not.  With the generic
    message alone, the generic report is logged. *)
Lemma C6_witness :
  let generic := u "value is not a valid boolean" in
  let detail := u "2 validation errors for ServerSettings" in
  let env := refusing [port_out_of_range_message; generic] detail in
  let w := Sample.on_disk sample_text in
  _CONFIG w = None /\
  config_yaml w = Some sample_text /\
  yaml_load env sample_text = YLoaded (YMapping sample_raw) /\
  normalize env sample_raw = Ok sample_normalized /\
  validate env sample_normalized = Invalid [port_out_of_range_message; generic] detail /\
  LoadConfig env false w
  = (Raise (SystemExit 1),
     World None (Some sample_text)
       [EvExists; EvRead;
        EvLog ERROR (u "ポート番号の設定が不正なため、KonomiTV を起動できません。");
        EvLog ERROR (u "設定したポート番号が 1024 ~ 65525 (65535 ではない) の間に収まっているかを確認してください。")]) /\
  LoadConfig (refusing [generic] detail) false w
  = (Raise (SystemExit 1),
     World None (Some sample_text)
       [EvExists; EvRead;
        EvLog ERROR (u "設定内容が不正なため、KonomiTV を起動できません。");
        EvLog ERROR (u "以下のエラーメッセージを参考に、config.yaml の記述が正しいかを確認してください。");
        EvLog ERROR detail]).
Proof.
  intros generic detail env w.
  assert (_CONFIG w = None) as H1 by reflexivity.
  assert (config_yaml w = Some sample_text) as H2 by reflexivity.
  assert (yaml_load env sample_text = YLoaded (YMapping sample_raw)) as H3
    by reflexivity.
  assert (normalize env sample_raw = Ok sample_normalized) as H4
    by (vm_compute; reflexivity).
  assert (validate env sample_normalized
          = Invalid [port_out_of_range_message; generic] detail) as H5 by reflexivity.
  repeat (split; [assumption|]).
  split.
  - rewrite (C6_validation_failure env w sample_text sample_raw sample_normalized
               [port_out_of_range_message; generic] detail H1 H2 H3 H4 H5).
    vm_compute. reflexivity.
  - vm_compute. reflexivity.
Defined.

(* ===================================================================== *)
(** * C7: [LoadConfig] runs once *)
(* ===================================================================== *)

Lemma LoadConfig_again (env : environment) (b : bool) (w : world) (c : ServerSettings) :
  _CONFIG w = Some c -> LoadConfig env b w = (Raise already_called, w).
Proof.
  intros H. unfold LoadConfig, mbind, M_bind, get_CONFIG. by rewrite H.
Qed.

Lemma log_keeps_CONFIG (lv : level) (msg : pystr) (w : world) :
  _CONFIG (emit (EvLog lv msg) w).2 = _CONFIG w.
Proof. reflexivity. Qed.

(** A call of [LoadConfig] that returns has set [_CONFIG] to what it
    returns. *)
Lemma LoadConfig_sets (env : environment) (b : bool) (w w' : world)
    (c : ServerSettings) :
  LoadConfig env b w = (Ok c, w') -> _CONFIG w' = Some c.
Proof.
  unfold LoadConfig, mbind, M_bind, get_CONFIG, path_exists.
  destruct (_CONFIG w); [discriminate|].
  destruct (config_yaml w) as [text|] eqn:Hf; simpl; [|discriminate].
  unfold try_except_Exception, mbind, M_bind, read_file, load_yaml. simpl.
  destruct (yaml_load env text) as [[ |d|n msg]|n msg]; simpl; try discriminate.
  unfold lift. destruct (normalize env d) as [d'|e]; [|discriminate].
  destruct b; simpl.
  - destruct (unverified d') as [c'|e]; [|discriminate].
    simpl. intros [= <- <-]. reflexivity.
  - destruct (validate env d') as [c'|msgs detail|e]; simpl.
    + intros [= <- <-]. reflexivity.
    + rewrite report_validation_error_spec. discriminate.
    + discriminate.
Qed.

Lemma SaveConfig_keeps_CONFIG (env : environment) (config : ServerSettings) (w : world) :
  _CONFIG (SaveConfig env config w).2 = _CONFIG w.
Proof.
  unfold SaveConfig, mbind, M_bind, lift, read_file, write_file.
  destruct (save_dict env config); [|done].
  destruct (config_yaml w); [|done]. simpl.
  destruct (scan _ _ _) as [[? new_lines]|?]; [|reflexivity].
  destruct (file_write env (concat new_lines));
    destruct (existsb is_surrogate (concat new_lines)); reflexivity.
Qed.

Lemma Config_keeps_CONFIG (w : world) : _CONFIG (Config w).2 = _CONFIG w.
Proof.
  unfold Config, mbind, M_bind, get_CONFIG. destruct (_CONFIG w) eqn:E; exact E.
Qed.

Lemma GetServerPort_keeps_CONFIG (env : environment) (w : world) :
  _CONFIG (GetServerPort env w).2 = _CONFIG w.
Proof.
  unfold GetServerPort, try_except_Exception, mbind, M_bind, read_file, lift, raise.
  destruct (config_yaml w) as [text|]; [|done]. simpl.
  destruct (yaml_load env text) as [[ |d|n msg]|n msg]; simpl; try done.
  destruct (getitem d (u "server")) as [[fields|v]|e]; simpl; try done.
  - destruct (getitem fields (u "port")) as [v|e]; simpl; [done|].
    by destruct (is_Exception e).
  - by destruct (is_Exception e).
Qed.

Lemma after_call_keeps_CONFIG (w : world) (c : call) (config : ServerSettings) :
  _CONFIG w = Some config -> _CONFIG (after_call w c) = Some config.
Proof.
  intros H. destruct c as [env b|env cfg| |env]; simpl.
  - by rewrite (LoadConfig_again env b w config H).
  - by rewrite SaveConfig_keeps_CONFIG.
  - by rewrite Config_keeps_CONFIG.
  - by rewrite GetServerPort_keeps_CONFIG.
Qed.

(** C7.  When a call of [LoadConfig] has returned a document, [_CONFIG] holds
    that document, and every later call of [LoadConfig], with any flag, any
    collaborators and any file, fails the assertion and leaves the world as
    it is: the file is neither looked for nor read, nothing is logged.  No
    sequence of calls of the module changes [_CONFIG] once it is set. *)
Theorem C7_load_once
    (env : environment) (bypass_validation : bool) (w w' : world)
    (config : ServerSettings) :
  LoadConfig env bypass_validation w = (Ok config, w') ->
  _CONFIG w' = Some config /\
  (forall env' bypass' w'',
     _CONFIG w'' = _CONFIG w' ->
     LoadConfig env' bypass' w'' = (Raise already_called, w'')) /\
  (forall calls, _CONFIG (after_calls w' calls) = Some config).
Proof.
  intros H. apply LoadConfig_sets in H. split; [exact H|]. split.
  - intros env' b' w'' Hw. apply (LoadConfig_again env' b' w'' config). congruence.
  - intros calls. revert w' H. induction calls as [|c cs IH]; intros w' H; [exact H|].
    simpl. apply IH. by apply after_call_keeps_CONFIG.
Qed.

(** The first call loads the document; a second call, here without
    validation and with other collaborators, fails and changes nothing; and
    [_CONFIG] is the same after further calls. *)
Lemma C7_witness :
  LoadConfig accepting false (Sample.on_disk sample_text)
  = (Ok sample_settings, sample_loaded) /\
  _CONFIG sample_loaded = Some sample_settings /\
  LoadConfig Sample.docker true sample_loaded = (Raise already_called, sample_loaded) /\
  _CONFIG (after_calls sample_loaded
             [CallSaveConfig Sample.linux Sample.debug_on;
              CallLoadConfig accepting false;
              CallGetServerPort accepting;
              CallConfig])
  = Some sample_settings.
Proof.
  assert (LoadConfig accepting false (Sample.on_disk sample_text)
          = (Ok sample_settings, sample_loaded)) as H by (vm_compute; reflexivity).
  split; [exact H|].
  destruct (C7_load_once accepting false (Sample.on_disk sample_text) sample_loaded
              sample_settings H) as (H1 & H2 & H3).
  split; [exact H1|]. split; [apply H2; reflexivity|apply H3].
Defined.

(* ===================================================================== *)
(** * C8: [GetServerPort] *)
(* ===================================================================== *)

(** With a file to read, [GetServerPort] returns what the file holds at
    [server.port], and 7000 when there is no such thing. *)
Lemma GetServerPort_on_file (env : environment) (w : world) (text : pystr) :
  config_yaml w = Some text ->
  GetServerPort env w
  = (match port_in_file env text with
     | Ok v => Ok v
     | Raise _ => Ok (VInt 7000)
     end, after_read w).
Proof.
  intros Hf.
  unfold GetServerPort, try_except_Exception, mbind, M_bind, read_file, lift, raise,
    after_read, port_in_file.
  rewrite Hf. simpl.
  destruct (yaml_load env text) as [[ |d|n msg]|n msg]; simpl; try done.
  unfold getitem.
  destruct (d !! u "server") as [[fields|v]|]; simpl; try done.
  by destruct (fields !! u "port").
Qed.

(** C8 (defect in the code).  [GetServerPort] never raises.  It returns 7000
    when there is no file, when the parser raises, when the document is
    empty or is not a mapping, when there is no [server] entry or that entry
    is not a mapping, and when the section has no [port]; when the section
    has a [port], it returns the value stored there as it is, whatever its
    type, and the schema is not consulted.  So the result is not always an
    integer, as the signature and the docstring of the function promise: for
    a file whose port is the string ['7000'] the function returns that
    string. *)
Theorem C8_GetServerPort :
  (forall (env : environment) (w : world),
     (exists v w', GetServerPort env w = (Ok v, w')) /\
     (config_yaml w = None -> GetServerPort env w = (Ok (VInt 7000), w)) /\
     (forall text,
        config_yaml w = Some text ->
        (forall name msg,
           yaml_load env text = YRaises name msg ->
           GetServerPort env w = (Ok (VInt 7000), after_read w)) /\
        (yaml_load env text = YLoaded YNone ->
         GetServerPort env w = (Ok (VInt 7000), after_read w)) /\
        (forall name msg,
           yaml_load env text = YLoaded (YNotMapping name msg) ->
           GetServerPort env w = (Ok (VInt 7000), after_read w)) /\
        (forall d,
           yaml_load env text = YLoaded (YMapping d) ->
           (d !! u "server" = None ->
            GetServerPort env w = (Ok (VInt 7000), after_read w)) /\
           (forall v, d !! u "server" = Some (RValue v) ->
                      GetServerPort env w = (Ok (VInt 7000), after_read w)) /\
           (forall fields,
              d !! u "server" = Some (RSection fields) ->
              (fields !! u "port" = None ->
               GetServerPort env w = (Ok (VInt 7000), after_read w)) /\
              (forall v, fields !! u "port" = Some v ->
                         GetServerPort env w = (Ok v, after_read w))))) /\
     (forall schema,
        GetServerPort {| platform_environment := platform_environment env;
                         yaml_load := yaml_load env;
                         validate := schema;
                         os_linesep := os_linesep env;
                         file_write := file_write env |} w
        = GetServerPort env w)) /\
  (let env :=
     {| platform_environment := u "Linux";
        yaml_load := fun _ =>
          YLoaded (YMapping {[ u "server" := RSection {[ u "port" := VStr (u "7000") ]} ]});
        validate := fun _ => Invalid [] [];
        os_linesep := Posix;
        file_write := fun _ => Stored |} in
   let w := Sample.on_disk (Sample.ln "{'server': {'port': '7000'}}") in
   GetServerPort env w = (Ok (VStr (u "7000")), after_read w) /\
   forall n, (GetServerPort env w).1 <> Ok (VInt n) /\
             (GetServerPort env w).1 <> Ok (VIntSub n)).
Proof.
  split.
  - intros env w. split; [|split; [|split]].
    + unfold GetServerPort, try_except_Exception, mbind, M_bind, read_file, lift, raise.
      destruct (config_yaml w) as [text|]; [|by eexists _, _]. simpl.
      destruct (yaml_load env text) as [[ |d|n msg]|n msg]; simpl; try by eexists _, _.
      unfold getitem.
      destruct (d !! u "server") as [[fields|v]|]; simpl; try by eexists _, _.
      destruct (fields !! u "port"); simpl; by eexists _, _.
    + intros Hf. unfold GetServerPort, try_except_Exception, mbind, M_bind, read_file.
      by rewrite Hf.
    + intros text Hf. rewrite (GetServerPort_on_file env w text Hf).
      unfold port_in_file.
      split; [by intros n msg ->|]. split; [by intros ->|]. split; [by intros n msg ->|].
      intros d ->. split; [by intros ->|]. split; [by intros v ->|].
      intros fields ->. split; [by intros ->|by intros v ->].
    + intros schema. reflexivity.
  - intros env w.
    assert (GetServerPort env w = (Ok (VStr (u "7000")), after_read w)) as H
      by (vm_compute; reflexivity).
    split; [exact H|]. intros n. rewrite H. split; discriminate.
Qed.

(* ===================================================================== *)
(** * C9: list blocks *)
(* ===================================================================== *)


Lemma readlines_from_line (body rest : pystr) : forall cur,
  LF ∉ body -> CR ∉ body ->
  readlines_from cur (body ++ LF :: rest)
  = (rev cur ++ body ++ [LF]) :: readlines_from [] rest.
Proof.
  induction body as [|c t IH]; intros cur Hlf Hcr.
  - reflexivity.
  - apply not_elem_of_cons in Hlf as [Hc1 Hlf].
    apply not_elem_of_cons in Hcr as [Hc2 Hcr].
    cbn [app readlines_from].
    replace (c =? LF)%N with false by (symmetry; apply N.eqb_neq; congruence).
    replace (c =? CR)%N with false by (symmetry; apply N.eqb_neq; congruence).
    rewrite IH by done. simpl. by rewrite <- app_assoc.
Qed.

(** Reading back what was written as proper lines gives these lines. *)
Lemma readlines_concat (ls : list pystr) :
  (forall l, In l ls -> proper_line l) -> readlines (concat ls) = ls.
Proof.
  unfold readlines. induction ls as [|l r IH]; intros H; [done|].
  destruct (H l (or_introl eq_refl)) as (body & -> & Hlf & Hcr).
  cbn [concat]. rewrite <- app_assoc. cbn [app].
  rewrite readlines_from_line by done. rewrite IH by (intros; apply H; by right).
  reflexivity.
Qed.

(** Two texts cut at their first quote. *)
Lemma first_quote_unique (q : char) (a b s t : pystr) :
  q ∉ a -> q ∉ s -> a ++ q :: s = b ++ q :: t -> a = b /\ s = t.
Proof.
  revert b. induction a as [|x a IH]; intros b Ha Hs H.
  - destruct b as [|y b]; simpl in H.
    + by injection H as ->.
    + injection H as <- ->. exfalso. apply Hs.
      apply elem_of_app. right. apply list_elem_of_here.
  - apply not_elem_of_cons in Ha as [Hx Ha].
    destruct b as [|y b]; simpl in H; injection H as -> H; [done|].
    apply IH in H as [-> ->]; done.
Qed.











Lemma not_elem_of_literal (c : char) (s : pystr) :
  forallb (fun x => negb (x =? c)) s = true -> c ∉ s.
Proof.
  induction s as [|x t IH]; simpl; [intros _; apply not_elem_of_nil|].
  intros [Hx Ht]%andb_prop. apply not_elem_of_cons. split; [|by apply IH].
  apply negb_true_iff, N.eqb_neq in Hx. congruence.
Qed.




(** A list-opening line whose field is in the current section: the block
    is emitted and a list block is open from then on. *)
Lemma scan_line_list_start (config_dict : gmap pystr (gmap pystr pyvalue))
    (st : scan_state) (line : pystr) (m : mstate) (key : pystr)
    (section : gmap pystr pyvalue) (v : pyvalue) (items : list pystr) :
  re_match list_start_pattern line = Some m ->
  m_groups m = [(u "key", key)] ->
  config_dict !! current_parent_key st = Some section ->
  section !! unquote key = Some v ->
  py_iter_str v = Ok items ->
  scan_line config_dict st line
  = Ok (ScanState (current_parent_key st) true (unquote key),
        [list_block (unquote key) items]).
Proof.
  intros Hm Hg Hsec Hv Hit.
  destruct (field_line_shape line (or_introl (ex_intro _ m Hm)))
    as (q & body & Hq & Hshape).
  unfold scan_line.
  rewrite Hshape at 1. rewrite indented_quote_not_parent by done.
  rewrite Hm. unfold groupdict_get, group. rewrite Hg.
  replace (assoc (u "key") [(u "key", key)]) with (Some key)
    by (vm_compute; reflexivity).
  cbn [mbind result_bind current_parent_key list_key]. unfold getitem.
  rewrite Hsec. cbn [mbind result_bind]. rewrite Hv, Hit. reflexivity.
Qed.


(* ===================================================================== *)
(** * C10: a field line before any section *)
(* ===================================================================== *)

(** The dictionary of a document has the five section names as its keys;
    the empty string is not among them. *)
Lemma dict_of_no_empty_key (config : ServerSettings) : dict_of config !! [] = None.
Proof.
  unfold dict_of. rewrite !lookup_insert_ne by (vm_compute; discriminate).
  apply lookup_empty.
Qed.

Lemma save_dict_no_empty_key (env : environment) (config : ServerSettings)
    (d : gmap pystr (gmap pystr pyvalue)) :
  save_dict env config = Ok d -> d !! [] = None.
Proof.
  unfold save_dict, strip_docker_prefix.
  destruct (str_eqb _ _); [|intros [= <-]; apply dict_of_no_empty_key].
  destruct (getitem (dict_of config) (u "capture")) as [cs|e]; [|discriminate]. simpl.
  destruct (getitem cs (u "upload_folder")) as [uf|e]; [|discriminate]. simpl.
  destruct (getitem _ (u "tv")) as [ts|e]; [|discriminate]. simpl.
  destruct (getitem ts (u "debug_mode_ts_path")) as [p|e]; [|discriminate]. simpl.
  destruct (type_is_str p || is_the_Path_class p); intros [= <-];
    rewrite ?lookup_insert_ne by (vm_compute; discriminate);
    apply dict_of_no_empty_key.
Qed.

(** [SaveConfig] fails before the loop only with a [KeyError]. *)
Lemma save_dict_raises (env : environment) (config : ServerSettings) (e : exn) :
  save_dict env config = Raise e -> exists key, e = KeyError key.
Proof.
  unfold save_dict, strip_docker_prefix, getitem.
  destruct (str_eqb _ _); [|discriminate].
  repeat (case_match; simpl; try discriminate); intros [= <-]; by eexists.
Qed.

(** While no section was opened, the loop either raises [KeyError('')] or
    goes on with no section and no list block open. *)
Lemma scan_before_any_section (config_dict : gmap pystr (gmap pystr pyvalue))
    (lines : list pystr) :
  config_dict !! [] = None ->
  (forall l, In l lines -> re_match parent_key_match_pattern l = None) ->
  forall st,
    current_parent_key st = [] -> in_list st = false ->
    scan config_dict st lines = Raise (KeyError []) \/
    exists st' out,
      scan config_dict st lines = Ok (st', out) /\
      current_parent_key st' = [] /\ in_list st' = false.
Proof.
  intros Hd. induction lines as [|l rest IH]; intros Hnp st Hk Hin.
  - right. by exists st, [].
  - assert (scan_line config_dict st l = Raise (KeyError []) \/
            exists st' out, scan_line config_dict st l = Ok (st', out) /\
                            current_parent_key st' = [] /\ in_list st' = false) as Hl.
    { unfold scan_line. rewrite (Hnp l) by (by left).
      destruct (re_match list_start_pattern l) as [m|] eqn:Els.
      { left. apply list_start_inv in Els as (key & ? & _ & _ & _ & _ & Hg).
        unfold groupdict_get, group. rewrite Hg.
        replace (assoc (u "key") [(u "key", key)]) with (Some key)
          by (vm_compute; reflexivity).
        cbn [mbind result_bind current_parent_key]. unfold getitem. by rewrite Hk, Hd. }
      destruct (re_match list_end_pattern l) as [m|].
      { right. eexists _, _. by split. }
      rewrite Hin.
      destruct (re_match key_value_match_pattern l) as [m|] eqn:Ekv.
      { left. apply key_value_match_inv in Ekv as (key & value & _ & _ & _ & Hg).
        unfold groupdict_get, group. rewrite Hg.
        replace (assoc (u "key") [(u "value", value); (u "key", key)]) with (Some key)
          by (vm_compute; reflexivity).
        cbn [mbind result_bind current_parent_key]. unfold getitem. by rewrite Hk, Hd. }
      right. eexists _, _. by split. }
    simpl. destruct Hl as [->|(st' & out & -> & Hk' & Hin')]; [by left|]. simpl.
    destruct (IH (fun l' Hl' => Hnp l' (or_intror Hl')) st' Hk' Hin')
      as [->|(st'' & out' & -> & ? & ?)]; [by left|].
    right. by eexists _, _.
Qed.

(** Such a line, read while no section and no list block is open, makes the
    loop look up the empty section name. *)
Lemma scan_line_field_no_section (config_dict : gmap pystr (gmap pystr pyvalue))
    (st : scan_state) (line : pystr) :
  config_dict !! [] = None ->
  current_parent_key st = [] -> in_list st = false ->
  is_Some (re_match list_start_pattern line) \/
  is_Some (re_match key_value_match_pattern line) ->
  scan_line config_dict st line = Raise (KeyError []).
Proof.
  intros Hd Hk Hin Hline.
  destruct (field_line_shape line Hline) as (q & body & Hq & Hshape).
  unfold scan_line.
  rewrite Hshape at 1. rewrite indented_quote_not_parent by done.
  destruct (re_match list_start_pattern line) as [m|] eqn:Els.
  { apply list_start_inv in Els as (key & ? & _ & _ & _ & _ & Hg).
    unfold groupdict_get, group. rewrite Hg.
    replace (assoc (u "key") [(u "key", key)]) with (Some key)
      by (vm_compute; reflexivity).
    cbn [mbind result_bind current_parent_key]. unfold getitem. by rewrite Hk, Hd. }
  rewrite Hshape at 1. rewrite indented_quote_not_list_end by done.
  rewrite Hin. destruct Hline as [[? [=]]|[m Ekv]]. rewrite Ekv.
  apply key_value_match_inv in Ekv as (key & value & _ & _ & _ & Hg).
  unfold groupdict_get, group. rewrite Hg.
  replace (assoc (u "key") [(u "value", value); (u "key", key)]) with (Some key)
    by (vm_compute; reflexivity).
  cbn [mbind result_bind current_parent_key]. unfold getitem. by rewrite Hk, Hd.
Qed.

(** C10.  Let the file hold a list-opening or scalar line with no
    section-opening line before it.  Then [SaveConfig] raises a [KeyError]
    and the file stays as it was, nothing being written.  Unless the
    dictionary could not be built (under Docker, a path field missing from
    the document), the file has been read and the key of the error is the
    empty string, the initial value of [current_parent_key]. *)
Theorem C10_field_before_any_section
    (env : environment) (config : ServerSettings) (w : world)
    (text : pystr) (before after : list pystr) (line : pystr) :
  config_yaml w = Some text ->
  readlines text = before ++ line :: after ->
  (forall l, In l before -> re_match parent_key_match_pattern l = None) ->
  is_Some (re_match list_start_pattern line) \/
  is_Some (re_match key_value_match_pattern line) ->
  (exists key, (SaveConfig env config w).1 = Raise (KeyError key)) /\
  config_yaml (SaveConfig env config w).2 = Some text /\
  (trace (SaveConfig env config w).2 = trace w \/
   trace (SaveConfig env config w).2 = trace w ++ [EvRead]) /\
  (forall d, save_dict env config = Ok d ->
             SaveConfig env config w = (Raise (KeyError []), after_read w)) /\
  (platform_environment env <> u "Linux-Docker" ->
   SaveConfig env config w = (Raise (KeyError []), after_read w)).
Proof.
  intros Hf Hlines Hbefore Hline.
  assert (forall d, save_dict env config = Ok d ->
            SaveConfig env config w = (Raise (KeyError []), after_read w)) as Hrun.
  { intros d Hd. pose proof (save_dict_no_empty_key _ _ _ Hd) as Hno.
    rewrite (SaveConfig_raises env config w d text (KeyError []) Hd Hf); [done|].
    rewrite Hlines, scan_app.
    destruct (scan_before_any_section d before Hno Hbefore initial_scan_state
                eq_refl eq_refl) as [->|(st & out & -> & Hk & Hin)]; [done|].
    simpl. by rewrite (scan_line_field_no_section d st line Hno Hk Hin Hline). }
  destruct (save_dict env config) as [d|e] eqn:Hd.
  - rewrite (Hrun d eq_refl). simpl. repeat split; eauto.
  - destruct (save_dict_raises _ _ _ Hd) as [key ->].
    assert (SaveConfig env config w = (Raise (KeyError key), w)) as ->.
    { unfold SaveConfig, mbind, M_bind, lift. by rewrite Hd. }
    simpl. repeat split; eauto; try discriminate.
    intros Hp. unfold save_dict in Hd.
    destruct (str_eqb _ _) eqn:E; [|discriminate].
    by apply str_eqb_eq in E.
Qed.

(** A file whose first line is a field, with no section line above it. *)
Lemma C10_witness :
  let text :=
    Sample.ln "        'debug': false," ++
    Sample.ln "    'general': {" ++
    Sample.ln "    }," in
  let w := Sample.on_disk text in
  config_yaml w = Some text /\
  readlines text
  = [] ++ Sample.ln "        'debug': false,"
       :: [Sample.ln "    'general': {"; Sample.ln "    },"] /\
  is_Some (re_match key_value_match_pattern (Sample.ln "        'debug': false,")) /\
  SaveConfig Sample.linux Sample.debug_on w
  = (Raise (KeyError []), World None (Some text) [EvRead]).
Proof.
  intros text w.
  assert (config_yaml w = Some text) as H1 by reflexivity.
  assert (readlines text
          = [] ++ Sample.ln "        'debug': false,"
               :: [Sample.ln "    'general': {"; Sample.ln "    },"]) as H2
    by (vm_compute; reflexivity).
  assert (is_Some (re_match key_value_match_pattern
                     (Sample.ln "        'debug': false,"))) as H3
    by (vm_compute; eexists; reflexivity).
  split; [exact H1|]. split; [exact H2|]. split; [exact H3|].
  destruct (C10_field_before_any_section Sample.linux Sample.debug_on w text []
              [Sample.ln "    'general': {"; Sample.ln "    },"]
              (Sample.ln "        'debug': false,") H1 H2
              (fun l (H : In l []) => match H with end) (or_intror H3))
    as (_ & _ & _ & _ & H).
  apply H. vm_compute. discriminate.
Defined.

(* ===================================================================== *)
(** * The validators of [_ServerSettingsGeneral] *)
(* ===================================================================== *)

Lemma str_eqb_neq (a b : pystr) : str_eqb a b = false <-> a <> b.
Proof. unfold str_eqb. by rewrite bool_decide_eq_false. Qed.

(** [values.get('backend')] equals at most one name. *)
Lemma backend_is_one (values : gmap pystr pyvalue) (a b : pystr) :
  backend_is values a = true -> backend_is values b = true -> a = b.
Proof.
  unfold backend_is. destruct (values !! u "backend") as [[]|]; try done.
  rewrite !str_eqb_eq. congruence.
Qed.

(** The four ways through [validate_edcb_url]. *)
Lemma validate_edcb_url_cases (c : collaborators) (edcb_url : pystr)
    (values : gmap pystr pyvalue) :
  (backend_is values (u "EDCB") = false /\
   validate_edcb_url c edcb_url values = ([], Ok edcb_url)) \/
  (backend_is values (u "EDCB") = true /\ ~ edcb_url_complete c edcb_url /\
   validate_edcb_url c edcb_url values
   = ([], Raise (ValueError edcb_url_incomplete_message))) \/
  (backend_is values (u "EDCB") = true /\ edcb_url_complete c edcb_url /\
   sendEnumService c edcb_url = false /\
   validate_edcb_url c edcb_url values
   = ([EnumService edcb_url 5], Raise (ValueError (edcb_unreachable_message edcb_url)))) \/
  (backend_is values (u "EDCB") = true /\ edcb_url_complete c edcb_url /\
   sendEnumService c edcb_url = true /\
   validate_edcb_url c edcb_url values
   = ([EnumService edcb_url 5; LogInfo (u "Backend: EDCB (" ++ edcb_url ++ u "/)")],
      Ok edcb_url)).
Proof.
  unfold validate_edcb_url, edcb_url_complete.
  destruct (backend_is values (u "EDCB")); [|by left].
  right.
  destruct (getEDCBHost c edcb_url) as [host|] eqn:Eh.
  - destruct (getEDCBPort c edcb_url) as [port|] eqn:Ep.
    + right. rewrite bool_decide_eq_false_2 by done. cbn [andb].
      assert (exists h, Some host = Some h /\ (is_Some (Some port) \/ h = u "edcb-namedpipe"))
        by (exists host; split; [done|left; by eexists]).
      destruct (sendEnumService c edcb_url); [right|left]; by split_and!.
    + rewrite bool_decide_eq_true_2 by done. cbn [andb].
      destruct (str_eqb host (u "edcb-namedpipe")) eqn:En; cbn [negb].
      * apply str_eqb_eq in En. right.
        assert (exists h, Some host = Some h /\ (is_Some (@None Z) \/ h = u "edcb-namedpipe"))
          by (exists host; split; [done|by right]).
        destruct (sendEnumService c edcb_url); [right|left]; by split_and!.
      * apply str_eqb_neq in En. left. split_and!; [done| |done].
        intros (h & [= <-] & [[? [=]]|?]); done.
  - left. split_and!; [done| |done]. by intros (h & [=] & _).
Qed.

Lemma edcb_messages_marked (edcb_url : pystr) :
  is_custom_error edcb_url_incomplete_message = true /\
  is_custom_error (edcb_unreachable_message edcb_url) = true.
Proof.
  split; [vm_compute; reflexivity|].
  unfold edcb_unreachable_message. find_mark.
Qed.

(** X1.  [validate_edcb_url] returns the URL it was given and nothing else.
    It accepts exactly when the backend is not EDCB, or the URL has a host
    and a port (the named pipe needs no port) and the service list could be
    fetched.  It connects, with a timeout of five seconds, exactly when the
    backend is EDCB and the URL is complete: an incomplete URL is refused
    before any connection.  Every failure is a [ValueError] whose message
    holds the mark of the module's validators. *)
Theorem validate_edcb_url_outcome (c : collaborators) (edcb_url : pystr)
    (values : gmap pystr pyvalue) :
  let outcome := validate_edcb_url c edcb_url values in
  (forall v, outcome.2 = Ok v -> v = edcb_url) /\
  ((exists v, outcome.2 = Ok v) <->
   backend_is values (u "EDCB") = false \/
   (edcb_url_complete c edcb_url /\ sendEnumService c edcb_url = true)) /\
  (In (EnumService edcb_url 5) outcome.1 <->
   backend_is values (u "EDCB") = true /\ edcb_url_complete c edcb_url) /\
  (forall a, In a outcome.1 -> is_probe a = true -> a = EnumService edcb_url 5) /\
  (forall e, outcome.2 = Raise e ->
             exists msg, e = ValueError msg /\ is_custom_error msg = true).
Proof.
  intros outcome. subst outcome.
  destruct (edcb_messages_marked edcb_url) as [M1 M2].
  destruct (validate_edcb_url_cases c edcb_url values)
    as [(Hb & ->)|[(Hb & Hc & ->)|[(Hb & Hc & Hs & ->)|(Hb & Hc & Hs & ->)]]];
    cbn [fst snd]; split_and!.
  - by intros v [= <-].
  - split; [by left|by exists edcb_url].
  - split; [intros []|intros [? _]; congruence].
  - intros a [].
  - intros e [=].
  - intros v [=].
  - split; [intros [v [=]]|intros [?|[? _]]; [congruence|done]].
  - split; [intros []|intros [_ ?]; done].
  - intros a [].
  - intros e [= <-]. eexists. split; [reflexivity|exact M1].
  - intros v [=].
  - split; [intros [v [=]]|intros [?|[_ ?]]; congruence].
  - split; [done|intros _; by left].
  - intros a [<-|[]] _. reflexivity.
  - intros e [= <-]. eexists. split; [reflexivity|exact M2].
  - by intros v [= <-].
  - split; [by right|by exists edcb_url].
  - split; [done|intros _; by left].
  - intros a [<-|[<-|[]]]; [reflexivity|discriminate].
  - intros e [=].
Qed.

Lemma mirakurun_messages_marked (mirakurun_url : pystr) :
  is_custom_error (mirakurun_unreachable_message mirakurun_url) = true /\
  is_custom_error (not_mirakurun_message mirakurun_url) = true.
Proof.
  split.
  - unfold mirakurun_unreachable_message. find_mark.
  - unfold not_mirakurun_message. find_mark.
Qed.

(** X2.  [validate_mirakurun_url] returns the URL it was given.  It accepts
    exactly when the backend is not Mirakurun, or the request for
    [/api/version] is answered with status 200 and a JSON object that has a
    [current] entry.  The request, with a timeout of twenty seconds, is made
    exactly when the backend is Mirakurun; a connection error or a timeout
    gives the message of an unreachable server; and every [ValueError] holds
    the mark of the module's validators.  This holds whichever way the bare
    [JSONDecodeError] of the code behaves. *)
Theorem validate_mirakurun_url_outcome (c : collaborators) (mirakurun_url : pystr)
    (values : gmap pystr pyvalue) :
  let outcome := validate_mirakurun_url c mirakurun_url values in
  let url := mirakurun_url ++ u "/api/version" in
  (forall v, outcome.2 = Ok v -> v = mirakurun_url) /\
  ((exists v, outcome.2 = Ok v) <->
   backend_is values (u "Mirakurun") = false \/
   exists version, requests_get c url = Response 200 (JsonObject (Some version))) /\
  (In (HttpGet url 20) outcome.1 <-> backend_is values (u "Mirakurun") = true) /\
  (forall a, In a outcome.1 -> is_probe a = true -> a = HttpGet url 20) /\
  (backend_is values (u "Mirakurun") = true ->
   requests_get c url = Unreachable ->
   outcome = ([HttpGet url 20],
              Raise (ValueError (mirakurun_unreachable_message mirakurun_url)))) /\
  (forall msg, outcome.2 = Raise (ValueError msg) -> is_custom_error msg = true).
Proof.
  intros outcome url. subst outcome.
  destruct (mirakurun_messages_marked mirakurun_url) as [M1 M2].
  unfold validate_mirakurun_url, raise_bare_json_error. fold url.
  destruct (backend_is values (u "Mirakurun")).
  2:{ run_V. split_and!.
      - by intros v [= <-].
      - split; [by left|by eexists].
      - split; [intros []|discriminate].
      - intros a [].
      - discriminate.
      - discriminate. }
  destruct (requests_get c url) as [|name msg|status body] eqn:Er.
  - run_V. split_and!.
    + discriminate.
    + split; [intros [v [=]]|intros [[=]|[v [=]]]].
    + split; [reflexivity|by left].
    + by intros a [<-|[]].
    + reflexivity.
    + intros msg [= <-]. exact M1.
  - run_V. split_and!.
    + discriminate.
    + split; [intros [v [=]]|intros [[=]|[v [=]]]].
    + split; [reflexivity|by left].
    + by intros a [<-|[]].
    + discriminate.
    + discriminate.
  - assert (Hmsg : forall (r : result pystr) msg,
               (r = Raise (ValueError (not_mirakurun_message mirakurun_url)) \/
                r = Raise TypeError \/ r = Raise AttributeError \/ r = Ok mirakurun_url) ->
               r = Raise (ValueError msg) -> is_custom_error msg = true).
    { intros r msg [->|[->|[->| ->]]]; [|discriminate..]. intros [= <-]. exact M2. }
    destruct body as [|[version|]|]; destruct (Z.eqb_spec status 200) as [->|Hs];
      destruct (json_error_without_args c); run_V; split_and!.
    all: try discriminate.
    all: try (intros v [= <-]; reflexivity).
    all: try (split; [reflexivity|intros _; by left]).
    all: try (intros msg; apply Hmsg; auto; fail).
    all: try (split; [intros [v [=]]|intros [[=]|[v [=]]]]; congruence).
    all: try (split; [intros _; right; by eexists|intros _; by eexists]).
    all: try (intros a [<-|[<-|[]]]; (reflexivity || discriminate)).
    all: try (by intros a [<-|[]]).
Qed.

Lemma validate_edcb_url_other_backend (c : collaborators) (edcb_url : pystr)
    (values : gmap pystr pyvalue) :
  backend_is values (u "EDCB") = false ->
  validate_edcb_url c edcb_url values = ([], Ok edcb_url).
Proof. intros H. unfold validate_edcb_url. by rewrite H. Qed.

Lemma validate_mirakurun_url_other_backend (c : collaborators) (mirakurun_url : pystr)
    (values : gmap pystr pyvalue) :
  backend_is values (u "Mirakurun") = false ->
  validate_mirakurun_url c mirakurun_url values = ([], Ok mirakurun_url).
Proof. intros H. unfold validate_mirakurun_url. by rewrite H. Qed.

(** X3.  For every set of validated values, at most one of the two backends
    is contacted: one of the two URL validators returns at once, without an
    action.  When [backend] is not among the values (its own validation
    failed), neither server is contacted and both URLs are accepted. *)
Theorem only_the_chosen_backend_is_probed (c : collaborators)
    (edcb_url mirakurun_url : pystr) (values : gmap pystr pyvalue) :
  (validate_edcb_url c edcb_url values = ([], Ok edcb_url) \/
   validate_mirakurun_url c mirakurun_url values = ([], Ok mirakurun_url)) /\
  (values !! u "backend" = None ->
   validate_edcb_url c edcb_url values = ([], Ok edcb_url) /\
   validate_mirakurun_url c mirakurun_url values = ([], Ok mirakurun_url)).
Proof.
  split.
  - destruct (backend_is values (u "EDCB")) eqn:E1.
    + right. apply validate_mirakurun_url_other_backend.
      destruct (backend_is values (u "Mirakurun")) eqn:E2; [|done].
      pose proof (backend_is_one _ _ _ E1 E2) as E. vm_compute in E. discriminate.
    + left. by apply validate_edcb_url_other_backend.
  - intros Hb. split.
    + apply validate_edcb_url_other_backend. unfold backend_is. by rewrite Hb.
    + apply validate_mirakurun_url_other_backend. unfold backend_is. by rewrite Hb.
Qed.

(** ** [validate_encoder] *)

Lemma starts_with_before_LF (needle a b : pystr) :
  LF ∉ needle ->
  starts_with needle (a ++ LF :: b) = starts_with needle a.
Proof.
  revert a. induction needle as [|x needle IH]; intros a Hx; [done|].
  apply not_elem_of_cons in Hx as [Hx Hn].
  destruct a as [|y a]; cbn [app starts_with].
  - apply andb_false_iff. left. apply N.eqb_neq. congruence.
  - by rewrite IH.
Qed.

Lemma contains_nil (needle : pystr) : needle <> [] -> contains needle [] = false.
Proof. by destruct needle. Qed.

(** A text without a line feed is found in [a], a line feed, [b] exactly
    when it is found in [a] or in [b]. *)
Lemma contains_across_LF (needle a b : pystr) :
  LF ∉ needle -> needle <> [] ->
  contains needle (a ++ LF :: b) = contains needle a || contains needle b.
Proof.
  intros Hx Hn. induction a as [|y a IH].
  - rewrite contains_nil by done. cbn [app contains orb].
    pose proof (starts_with_before_LF needle [] b Hx) as E.
    cbn [app] in E. rewrite E.
    destruct needle; [done|reflexivity].
  - cbn [app contains].
    pose proof (starts_with_before_LF needle (y :: a) b Hx) as E.
    cbn [app] in E. rewrite E, IH.
    by rewrite orb_assoc.
Qed.

Lemma contains_join (needle : pystr) (lines : list pystr) :
  LF ∉ needle -> needle <> [] ->
  contains needle (join [LF] lines) = existsb (contains needle) lines.
Proof.
  intros Hx Hn. induction lines as [|l [|l' lines] IH].
  - by apply contains_nil.
  - cbn [join existsb]. by rewrite orb_false_r.
  - change (join [LF] (l :: l' :: lines)) with (l ++ LF :: join [LF] (l' :: lines)).
    rewrite contains_across_LF by done. by rewrite IH.
Qed.

(** The test of [unavailable.] on the joined output is a test on its lines. *)
Lemma unavailable_in_output (stdout : pystr) :
  contains (u "unavailable.") (without_reader_lines stdout) = true <->
  exists line, In line (split_char LF stdout) /\ reports_unavailable line.
Proof.
  unfold without_reader_lines, reports_unavailable.
  rewrite contains_join.
  - rewrite existsb_exists. split.
    + intros (line & [Hin Hr]%filter_In & Hu). apply negb_true_iff in Hr. eauto.
    + intros (line & Hin & Hr & Hu). exists line. split; [|done].
      apply filter_In. split; [done|]. by apply negb_true_iff.
  - apply not_elem_of_literal. vm_compute. reflexivity.
  - by vm_compute.
Qed.

Lemma encoder_fits_machine_spec (c : collaborators) (encoder : pystr) :
  encoder_fits_machine c encoder <->
  str_in (platform_machine c) [u "AMD64"; u "x86_64"] && str_eqb encoder (u "rkmppenc")
  = false /\
  str_eqb (platform_machine c) (u "aarch64")
  && str_in encoder [u "QSVEncC"; u "NVEncC"; u "VCEEncC"] = false.
Proof.
  unfold encoder_fits_machine, str_in. cbn [existsb].
  rewrite !andb_false_iff, !orb_false_iff, !str_eqb_neq.
  destruct (decide (encoder = u "rkmppenc")) as [R|R];
    destruct (decide (platform_machine c = u "aarch64")) as [A|A];
    revert R A;
    generalize (platform_machine c = u "AMD64") (platform_machine c = u "x86_64")
               (platform_machine c = u "aarch64") (encoder = u "rkmppenc")
               (encoder = u "QSVEncC") (encoder = u "NVEncC") (encoder = u "VCEEncC");
    tauto.
Qed.

Lemma encoder_messages_marked (encoder : pystr) :
  is_custom_error rkmppenc_on_x64_message = true /\
  is_custom_error x64_encoder_on_arm64_message = true /\
  is_custom_error (encoder_unavailable_message encoder) = true.
Proof.
  split_and!; [vm_compute; reflexivity..|].
  unfold encoder_unavailable_message. find_mark.
Qed.

(** An encoder that does not fit the machine is refused before anything is
    run. *)
Lemma validate_encoder_unfit (c : collaborators) (encoder : pystr) :
  ~ encoder_fits_machine c encoder ->
  exists msg, validate_encoder c encoder = ([], Raise (ValueError msg)) /\
              is_custom_error msg = true.
Proof.
  intros Hn. destruct (encoder_messages_marked encoder) as (M1 & M2 & _).
  unfold validate_encoder.
  destruct (str_in (platform_machine c) [u "AMD64"; u "x86_64"]
            && str_eqb encoder (u "rkmppenc")) eqn:E1;
    [eexists; split; [reflexivity|exact M1]|].
  destruct (str_eqb (platform_machine c) (u "aarch64")
            && str_in encoder [u "QSVEncC"; u "NVEncC"; u "VCEEncC"]) eqn:E2;
    [eexists; split; [reflexivity|exact M2]|].
  destruct Hn. by apply encoder_fits_machine_spec.
Qed.

(** The part of [validate_encoder] after the two tests of the machine. *)
Lemma validate_encoder_fit (c : collaborators) (encoder : pystr) :
  encoder_fits_machine c encoder ->
  validate_encoder c encoder
  = ((if negb (str_eqb encoder (u "FFmpeg")) then
        result_stdout ← run_encoder c encoder (u "--check-hw") false;
        if contains (u "unavailable.") (without_reader_lines result_stdout)
        then fail (ValueError (encoder_unavailable_message encoder))
        else if negb (contains (u "H.265/HEVC") (without_reader_lines result_stdout))
             then act (LogWarning (no_hevc_message encoder))
             else mret tt
      else mret tt);;
     version_stdout ← run_encoder c encoder (u "--version") true;
     act (LogInfo (u "Encoder: " ++ encoder_version_of version_stdout));;
     mret encoder).
Proof.
  intros [E1 E2]%encoder_fits_machine_spec. unfold validate_encoder.
  by rewrite E1, E2.
Qed.

Lemma run_encoder_spec (c : collaborators) (encoder flag path : pystr) (merged : bool) :
  LIBRARY_PATH c encoder = Some path ->
  run_encoder c encoder flag merged
  = ([RunProcess [path; flag] merged], subprocess_stdout c [path; flag] merged).
Proof.
  intros H. unfold run_encoder. rewrite H. run_V.
  by destruct (subprocess_stdout c [path; flag] merged).
Qed.

(** X4.  For an encoder other than FFmpeg that fits the machine, with the
    output of [--check-hw] at hand: if a line of that output holds
    [unavailable.] and does not hold [reader:], the encoder is refused with
    the marked message and [--version] is not run; if there is no such line
    (so also when [unavailable.] stands only on lines with [reader:]), the
    validator goes on to run [--version], and it logs the warning on
    H.265/HEVC exactly when the output without its [reader:] lines does not
    hold [H.265/HEVC]: the warning is not an error. *)
Theorem validate_encoder_hardware_check (c : collaborators) (encoder path stdout : pystr) :
  encoder_fits_machine c encoder ->
  encoder <> u "FFmpeg" ->
  LIBRARY_PATH c encoder = Some path ->
  subprocess_stdout c [path; u "--check-hw"] false = Ok stdout ->
  let outcome := validate_encoder c encoder in
  let unavailable := exists line, In line (split_char LF stdout) /\ reports_unavailable line in
  (unavailable ->
   outcome = ([RunProcess [path; u "--check-hw"] false],
              Raise (ValueError (encoder_unavailable_message encoder)))) /\
  (~ unavailable ->
   exists rest,
     outcome.1 = RunProcess [path; u "--check-hw"] false :: rest /\
     In (RunProcess [path; u "--version"] true) rest /\
     (In (LogWarning (no_hevc_message encoder)) rest <->
      contains (u "H.265/HEVC") (without_reader_lines stdout) = false)) /\
  is_custom_error (encoder_unavailable_message encoder) = true.
Proof.
  intros Hfit Hne Hpath Hrun outcome unavailable. subst outcome unavailable.
  rewrite validate_encoder_fit by done.
  apply str_eqb_neq in Hne. rewrite Hne. cbn [negb].
  rewrite !run_encoder_spec with (path := path) by done. rewrite Hrun.
  split_and!; [| |apply encoder_messages_marked].
  - intros Hu%unavailable_in_output. run_V. by rewrite Hu.
  - intros Hu. rewrite <- unavailable_in_output in Hu.
    apply not_true_is_false in Hu. run_V. rewrite Hu.
    destruct (contains (u "H.265/HEVC") (without_reader_lines stdout));
      destruct (subprocess_stdout c [path; u "--version"] true); run_V;
      (eexists; split; [reflexivity|]; split; [cbn [In]; auto|]).
    all: split; [|try discriminate; intros _; cbn [In]; auto].
    all: cbn [In]; intros H; repeat destruct H as [H|H]; try discriminate H; try done.
Qed.

Lemma classic_fits (c : collaborators) (encoder : pystr) :
  encoder_fits_machine c encoder \/ ~ encoder_fits_machine c encoder.
Proof.
  rewrite encoder_fits_machine_spec.
  destruct (_ && _); destruct (_ && _); intuition congruence.
Qed.

Lemma FFmpeg_fits_every_machine (c : collaborators) :
  encoder_fits_machine c (u "FFmpeg").
Proof.
  split.
  - intros [_ E]. vm_compute in E. discriminate.
  - intros [_ [E|[E|E]]]; vm_compute in E; discriminate.
Qed.

(** X5.  For FFmpeg, on every machine: the only process run is the one at
    [LIBRARY_PATH['FFmpeg']] with [--version] and the error stream merged
    into the output; [--check-hw] is never run and no warning is logged; and
    when that process gives its output, FFmpeg is accepted and the version
    line is logged. *)
Theorem validate_encoder_FFmpeg (c : collaborators) :
  let outcome := validate_encoder c (u "FFmpeg") in
  (forall args merged, In (RunProcess args merged) outcome.1 ->
     merged = true /\
     exists path, LIBRARY_PATH c (u "FFmpeg") = Some path /\ args = [path; u "--version"]) /\
  (forall msg, ~ In (LogWarning msg) outcome.1) /\
  (forall path stdout,
     LIBRARY_PATH c (u "FFmpeg") = Some path ->
     subprocess_stdout c [path; u "--version"] true = Ok stdout ->
     outcome = ([RunProcess [path; u "--version"] true;
                 LogInfo (u "Encoder: " ++ encoder_version_of stdout)],
                Ok (u "FFmpeg"))).
Proof.
  intros outcome. subst outcome.
  rewrite validate_encoder_fit by apply FFmpeg_fits_every_machine.
  replace (str_eqb (u "FFmpeg") (u "FFmpeg")) with true by (symmetry; by apply str_eqb_eq).
  cbn [negb]. unfold run_encoder.
  destruct (LIBRARY_PATH c (u "FFmpeg")) as [path|] eqn:Ep.
  - destruct (subprocess_stdout c [path; u "--version"] true) as [stdout|e] eqn:Er;
      run_V; split_and!.
    + intros args merged [[= <- <-]|[[=]|[]]]. split; [done|by exists path].
    + intros msg [[=]|[[=]|[]]].
    + intros path' stdout' [= <-] E. rewrite Er in E. by injection E as <-.
    + intros args merged [[= <- <-]|[]]. split; [done|by exists path].
    + intros msg [[=]|[]].
    + intros path' stdout' [= <-] E. rewrite Er in E. discriminate E.
  - run_V. split_and!; [by intros ? ? []|by intros ? []|done].
Qed.

(** X6.  When [validate_encoder] returns, it returns the encoder it was
    given; the encoder fits the machine; [--version] was run and its output
    read, and the last action is the log of the version line; and for an
    encoder other than FFmpeg, [--check-hw] was run and no line of its
    output counted as unavailable. *)
Theorem validate_encoder_accepts (c : collaborators) (encoder v : pystr) :
  (validate_encoder c encoder).2 = Ok v ->
  v = encoder /\
  encoder_fits_machine c encoder /\
  exists path stdout,
    LIBRARY_PATH c encoder = Some path /\
    subprocess_stdout c [path; u "--version"] true = Ok stdout /\
    List.last (validate_encoder c encoder).1 (LogInfo [])
    = LogInfo (u "Encoder: " ++ encoder_version_of stdout) /\
    (encoder <> u "FFmpeg" ->
     exists checked,
       subprocess_stdout c [path; u "--check-hw"] false = Ok checked /\
       forall line, In line (split_char LF checked) -> ~ reports_unavailable line).
Proof.
  intros Hok.
  destruct (classic_fits c encoder) as [Hfit|Hn].
  2:{ apply validate_encoder_unfit in Hn as (msg & E & _). by rewrite E in Hok. }
  revert Hok. rewrite validate_encoder_fit by done.
  destruct (LIBRARY_PATH c encoder) as [path|] eqn:Ep.
  2:{ unfold run_encoder. rewrite Ep. by destruct (negb _); run_V. }
  rewrite !run_encoder_spec with (path := path) by done.
  destruct (subprocess_stdout c [path; u "--version"] true) as [stdout|e] eqn:Ev.
  2:{ destruct (negb _); [|by run_V].
      destruct (subprocess_stdout c [path; u "--check-hw"] false) as [checked|e']; [|by run_V].
      run_V. destruct (contains (u "unavailable.") _); [by run_V|].
      destruct (negb (contains (u "H.265/HEVC") _)); by run_V. }
  destruct (str_eqb encoder (u "FFmpeg")) eqn:Ef; cbn [negb].
  - apply str_eqb_eq in Ef. run_V. intros [= <-].
    split_and!; [done..|]. exists path, stdout. split_and!; done.
  - apply str_eqb_neq in Ef.
    destruct (subprocess_stdout c [path; u "--check-hw"] false) as [checked|e'] eqn:Ec;
      [|by run_V].
    run_V. destruct (contains (u "unavailable.") _) eqn:Eu; [by run_V|].
    assert (Hno : forall line, In line (split_char LF checked) -> ~ reports_unavailable line).
    { intros line Hin Hr. apply not_true_iff_false in Eu. apply Eu.
      apply unavailable_in_output. eauto. }
    destruct (negb (contains (u "H.265/HEVC") _)); run_V; intros [= <-];
      (split_and!; [done..|]); exists path, stdout; split_and!; eauto.
Qed.

(** QSVEncC on the sample machine: the only [unavailable.] of the output
    stands on a [reader:] line, and the output holds [H.265/HEVC]. *)
Lemma validate_encoder_hardware_check_witness :
  let c := sample_collaborators in
  let path := u "/thirdparty/QSVEncC" in
  let stdout := u "avsw reader: unavailable." ++ [LF] ++ u "H.264/AVC" ++ [LF]
                ++ u "H.265/HEVC" ++ [LF] in
  encoder_fits_machine c (u "QSVEncC") /\
  u "QSVEncC" <> u "FFmpeg" /\
  LIBRARY_PATH c (u "QSVEncC") = Some path /\
  subprocess_stdout c [path; u "--check-hw"] false = Ok stdout /\
  exists rest,
    (validate_encoder c (u "QSVEncC")).1 = RunProcess [path; u "--check-hw"] false :: rest /\
    In (RunProcess [path; u "--version"] true) rest.
Proof.
  intros c path stdout.
  assert (Hfit : encoder_fits_machine c (u "QSVEncC")).
  { split.
    - intros [_ E]. vm_compute in E. discriminate E.
    - intros [E _]. vm_compute in E. discriminate E. }
  assert (Hne : u "QSVEncC" <> u "FFmpeg") by (vm_compute; discriminate).
  assert (Hpath : LIBRARY_PATH c (u "QSVEncC") = Some path) by (vm_compute; reflexivity).
  assert (Hrun : subprocess_stdout c [path; u "--check-hw"] false = Ok stdout)
    by (vm_compute; reflexivity).
  split_and!; [exact Hfit|exact Hne|exact Hpath|exact Hrun|].
  destruct (validate_encoder_hardware_check c (u "QSVEncC") path stdout Hfit Hne Hpath Hrun)
    as (_ & Hgo & _).
  destruct Hgo as (rest & E & Hin & _).
  - intros (line & Hin & Hr & Hu). vm_compute in Hin.
    repeat destruct Hin as [<-|Hin]; try (vm_compute in Hr; discriminate Hr);
      try (vm_compute in Hu; discriminate Hu); done.
  - exists rest. by split.
Defined.

(** QSVEncC is accepted on the sample machine. *)
Lemma validate_encoder_accepts_witness :
  (validate_encoder sample_collaborators (u "QSVEncC")).2 = Ok (u "QSVEncC") /\
  encoder_fits_machine sample_collaborators (u "QSVEncC").
Proof.
  assert (H : (validate_encoder sample_collaborators (u "QSVEncC")).2 = Ok (u "QSVEncC"))
    by (vm_compute; reflexivity).
  split; [exact H|].
  exact (proj1 (proj2 (validate_encoder_accepts sample_collaborators _ _ H))).
Defined.

(* ===================================================================== *)
(** * [LoadConfig] and [Config]: the ways through a call *)
(* ===================================================================== *)

(** Every way through a first call of [LoadConfig]. *)
Lemma LoadConfig_first (env : environment) (b : bool) (w : world) :
  _CONFIG w = None ->
  LoadConfig env b w
  = match config_yaml w with
    | None => (Raise (SystemExit 1), log_errors (after_exists w) missing_file_lines)
    | Some text =>
      let w1 := after_read (after_exists w) in
      match yaml_load env text with
      | YLoaded YNone => (Raise (SystemExit 1), log_errors w1 empty_file_lines)
      | YRaises name msg | YLoaded (YNotMapping name msg) =>
        (Raise (SystemExit 1), log_errors w1 (load_error_lines name msg))
      | YLoaded (YMapping d) =>
        match normalize env d with
        | Raise e => (Raise e, w1)
        | Ok d' =>
          if b then
            match unverified d' with
            | Ok config =>
              (Ok config,
               after_load w1 config (u "Server settings loaded (bypassed validation)."))
            | Raise e => (Raise e, w1)
            end
          else
            match validate env d' with
            | Valid config => (Ok config, after_load w1 config (u "Server settings loaded."))
            | Invalid messages detail =>
              (Raise (SystemExit 1),
               log_errors w1 (if existsb is_custom_error messages
                              then custom_lines messages
                              else generic_lines detail))
            | Escapes e => (Raise e, w1)
            end
        end
      end
    end.
Proof.
  intros Hc.
  unfold LoadConfig, mbind, M_bind, get_CONFIG, path_exists. rewrite Hc.
  destruct (config_yaml w) as [text|] eqn:Hf.
  - rewrite bool_decide_eq_true_2 by (by eexists). cbn [negb].
    unfold try_except_Exception, mbind, M_bind, read_file, load_yaml.
    cbn [config_yaml _CONFIG trace].
    destruct (yaml_load env text) as [[ |d|n msg]|n msg].
    + run_M. unfold log_errors, after_read, after_exists, empty_file_lines.
      cbn. by rewrite Hc, Hf, <- !app_assoc.
    + run_M.
      destruct (normalize env d) as [d'|e];
        [|unfold after_read, after_exists; cbn; by rewrite Hc, Hf, <- !app_assoc].
      destruct b; cbn [negb].
      * destruct (unverified d') as [config|e];
          unfold after_load, after_read, after_exists; cbn;
          by rewrite ?Hc, Hf, <- !app_assoc.
      * destruct (validate env d') as [config|msgs detail|e].
        -- unfold after_load, after_read, after_exists. cbn. by rewrite Hf, <- !app_assoc.
        -- rewrite report_validation_error_spec.
           unfold log_errors, after_read, after_exists. cbn.
           by rewrite Hc, Hf, <- !app_assoc.
        -- unfold after_read, after_exists. cbn. by rewrite Hc, Hf, <- !app_assoc.
    + run_M. unfold log_errors, after_read, after_exists, load_error_lines.
      cbn. by rewrite Hc, Hf, <- !app_assoc.
    + run_M. unfold log_errors, after_read, after_exists, load_error_lines.
      cbn. by rewrite Hc, Hf, <- !app_assoc.
  - rewrite bool_decide_eq_false_2 by (by intros [? ?]). cbn [negb].
    run_M. unfold log_errors, after_exists, missing_file_lines.
    cbn. by rewrite Hc, Hf, <- !app_assoc.
Qed.

(** X7.  A first call of [LoadConfig] that finds no document ends in
    [SystemExit(1)] after two lines at error level: for a missing file the
    file is not opened; for an empty file the exit made inside the [try]
    block passes the [except Exception] clause; for a file on which the
    parser or [dict] raises, the second line is the name of the exception,
    a colon and its message.  In all three cases [_CONFIG] stays unset, the
    file is as it was, and neither the platform nor the schema matters. *)
Theorem LoadConfig_without_document (env : environment) (b : bool) (w : world) :
  _CONFIG w = None ->
  (config_yaml w = None ->
   LoadConfig env b w
   = (Raise (SystemExit 1), log_errors (after_exists w) missing_file_lines)) /\
  (forall text,
     config_yaml w = Some text ->
     (yaml_load env text = YLoaded YNone ->
      LoadConfig env b w
      = (Raise (SystemExit 1),
         log_errors (after_read (after_exists w)) empty_file_lines)) /\
     (forall name msg,
        yaml_load env text = YRaises name msg \/
        yaml_load env text = YLoaded (YNotMapping name msg) ->
        LoadConfig env b w
        = (Raise (SystemExit 1),
           log_errors (after_read (after_exists w)) (load_error_lines name msg)))) /\
  ((config_yaml w = None \/
    exists text, config_yaml w = Some text /\
                 forall d, yaml_load env text <> YLoaded (YMapping d)) ->
   forall env',
     yaml_load env' = yaml_load env ->
     LoadConfig env' b w = LoadConfig env b w /\
     _CONFIG (LoadConfig env b w).2 = None /\
     config_yaml (LoadConfig env b w).2 = config_yaml w).
Proof.
  intros Hc. split_and!.
  - intros Hf. rewrite LoadConfig_first by done. by rewrite Hf.
  - intros text Hf. split.
    + intros Hy. rewrite LoadConfig_first by done. by rewrite Hf, Hy.
    + intros name msg [Hy|Hy]; rewrite LoadConfig_first by done; by rewrite Hf, Hy.
  - intros Hno env' Hy. rewrite !LoadConfig_first by done. rewrite Hy.
    destruct Hno as [Hf|(text & Hf & Hd)]; rewrite Hf; [done|].
    cbn zeta.
    destruct (yaml_load env text) as [[ |d|n msg]|n msg]; [done| |done|done].
    by destruct (Hd d).
Qed.

(** No file at all. *)
Lemma LoadConfig_without_document_witness :
  let w := World None None [] in
  _CONFIG w = None /\
  LoadConfig Sample.linux false w
  = (Raise (SystemExit 1),
     World None None
       [EvExists;
        EvLog ERROR (u "設定ファイルが配置されていないため、KonomiTV を起動できません。");
        EvLog ERROR (u "config.example.yaml を config.yaml にコピーし、お使いの環境に合わせて編集してください。")]).
Proof.
  split; [reflexivity|].
  exact (proj1 (LoadConfig_without_document Sample.linux false (World None None []) eq_refl)
           eq_refl).
Defined.

(** A first call that raises leaves [_CONFIG] unset. *)
Lemma LoadConfig_raises_unset (env : environment) (b : bool) (w w' : world) (e : exn) :
  _CONFIG w = None ->
  LoadConfig env b w = (Raise e, w') ->
  _CONFIG w' = None.
Proof.
  intros Hc. rewrite LoadConfig_first by done.
  destruct (config_yaml w) as [text|]; [|by intros [= _ <-]].
  cbn zeta.
  destruct (yaml_load env text) as [[ |d|n msg]|n msg]; try by intros [= _ <-].
  destruct (normalize env d) as [d'|e']; [|by intros [= _ <-]].
  destruct b.
  - destruct (unverified d'); [discriminate|by intros [= _ <-]].
  - destruct (validate env d'); [discriminate|by intros [= _ <-]..].
Qed.

(** X8.  Before any load [Config] fails its assertion.  After a call of
    [LoadConfig] that returned a document, [Config] returns that document;
    after a call that raised, whatever it raised, [_CONFIG] is still unset
    and [Config] fails its assertion.  [Config] changes nothing. *)
Theorem Config_after_LoadConfig (env : environment) (b : bool) (w : world) :
  _CONFIG w = None ->
  Config w = (Raise not_initialized, w) /\
  (forall config w',
     LoadConfig env b w = (Ok config, w') -> Config w' = (Ok config, w')) /\
  (forall e w',
     LoadConfig env b w = (Raise e, w') ->
     _CONFIG w' = None /\ Config w' = (Raise not_initialized, w')).
Proof.
  intros Hc.
  assert (Hnone : forall x, _CONFIG x = None -> Config x = (Raise not_initialized, x)).
  { intros x Hx. unfold Config, mbind, M_bind, get_CONFIG. by rewrite Hx. }
  split_and!.
  - by apply Hnone.
  - intros config w' Hl. apply LoadConfig_sets in Hl.
    unfold Config, mbind, M_bind, get_CONFIG. by rewrite Hl.
  - intros e w' Hl. apply LoadConfig_raises_unset in Hl; [|done]. split; [done|].
    by apply Hnone.
Qed.

(** The sample file, before and after it is loaded. *)
Lemma Config_after_LoadConfig_witness :
  _CONFIG (Sample.on_disk sample_text) = None /\
  Config (Sample.on_disk sample_text) = (Raise not_initialized, Sample.on_disk sample_text) /\
  Config sample_loaded = (Ok sample_settings, sample_loaded).
Proof.
  split; [reflexivity|].
  destruct (Config_after_LoadConfig accepting false (Sample.on_disk sample_text) eq_refl)
    as (H1 & H2 & _).
  split; [exact H1|]. apply H2. vm_compute. reflexivity.
Defined.

(** ** Which calls write the file *)









(* ===================================================================== *)
(** * What [LoadConfig] does to the dictionary before validation *)
(* ===================================================================== *)

Lemma lstrip_char_spec (c : char) (s : pystr) :
  exists n, s = repeat c n ++ lstrip_char c s /\
            starts_with [c] (lstrip_char c s) = false.
Proof.
  induction s as [|x t (n & E & H)]; [by exists 0%nat|].
  cbn [lstrip_char]. destruct (N.eqb_spec x c) as [->|Hx].
  - exists (S n). cbn [repeat app]. by rewrite <- E.
  - exists 0%nat. split; [done|]. cbn [starts_with].
    rewrite N.eqb_sym. apply N.eqb_neq in Hx. by rewrite Hx.
Qed.

Lemma rev_repeat_char (c : char) (n : nat) : rev (repeat c n) = repeat c n.
Proof.
  induction n as [|n IH]; [done|]. cbn [repeat rev]. rewrite IH.
  symmetry. apply repeat_cons.
Qed.

(** [rstrip] takes off a run of the character and leaves none at the end. *)
Lemma rstrip_char_spec (c : char) (s : pystr) :
  (exists n, s = rstrip_char c s ++ repeat c n) /\
  ends_with [c] (rstrip_char c s) = false.
Proof.
  unfold rstrip_char, ends_with.
  destruct (lstrip_char_spec c (rev s)) as (n & E & H). split.
  - exists n. rewrite <- (rev_involutive s) at 1. rewrite E at 1.
    by rewrite rev_app_distr, rev_repeat_char.
  - by rewrite rev_involutive.
Qed.

Lemma rstrip_url_inv (field : pystr) (d d' : gmap pystr rawvalue) :
  rstrip_url field d = Ok d' ->
  exists fields s,
    d !! u "general" = Some (RSection fields) /\
    fields !! field = Some (VStr s) /\
    d' = <[u "general" := RSection (<[field := VStr (rstrip_char 47 s)]> fields)]> d.
Proof.
  unfold rstrip_url, getitem.
  destruct (d !! u "general") as [[fields|v]|] eqn:Eg; cbn [mbind result_bind]; try done.
  destruct (fields !! field) as [[| | | |s| | | |]|] eqn:Ef; cbn [mbind result_bind];
    try done.
  intros [= <-]. by exists fields, s.
Qed.

Lemma rstrip_url_KeyError (field : pystr) (d : gmap pystr rawvalue) (key : pystr) :
  rstrip_url field d = Raise (KeyError key) ->
  d !! u "general" = None \/
  exists fields, d !! u "general" = Some (RSection fields) /\ fields !! field = None.
Proof.
  unfold rstrip_url, getitem.
  destruct (d !! u "general") as [[fields|v]|] eqn:Eg; cbn [mbind result_bind]; try done;
    [|by left].
  destruct (fields !! field) as [[]|] eqn:Ef; cbn [mbind result_bind]; try done.
  intros _. right. by exists fields.
Qed.

Lemma prefix_upload_folder_general (d d' : gmap pystr rawvalue) :
  prefix_upload_folder d = Ok d' -> d' !! u "general" = d !! u "general".
Proof.
  unfold prefix_upload_folder, getitem.
  destruct (d !! u "capture") as [[fields|v]|]; cbn [mbind result_bind]; try done.
  destruct (fields !! u "upload_folder") as [[]|]; cbn [mbind result_bind]; try done.
  intros [= <-]. apply lookup_insert_ne. key_ne.
Qed.

Lemma prefix_debug_mode_ts_path_general (d d' : gmap pystr rawvalue) :
  prefix_debug_mode_ts_path d = Ok d' -> d' !! u "general" = d !! u "general".
Proof.
  unfold prefix_debug_mode_ts_path, getitem.
  destruct (d !! u "tv") as [[fields|v]|]; cbn [mbind result_bind]; try done.
  destruct (fields !! u "debug_mode_ts_path") as [[]|]; cbn [mbind result_bind];
    try done; intros [= <-]; try done.
  apply lookup_insert_ne. key_ne.
Qed.

(** The Docker block leaves the [general] section as it is. *)
Lemma docker_block_general (env : environment) (d2 d' : gmap pystr rawvalue) :
  (if str_eqb (platform_environment env) (u "Linux-Docker") then
     unless_KeyError d2 (prefix_upload_folder d2) (fun d3 =>
     unless_KeyError d3 (prefix_debug_mode_ts_path d3) Ok)
   else Ok d2) = Ok d' ->
  d' !! u "general" = d2 !! u "general".
Proof.
  destruct (str_eqb _ _); [|by intros [= <-]].
  unfold unless_KeyError.
  destruct (prefix_upload_folder d2) as [d3|[]] eqn:E3; try done; [|by intros [= <-]].
  apply prefix_upload_folder_general in E3.
  destruct (prefix_debug_mode_ts_path d3) as [d4|[]] eqn:E4; try done.
  - apply prefix_debug_mode_ts_path_general in E4. intros [= <-]. congruence.
  - intros [= <-]. done.
Qed.

(** X10.  When the [general] section holds the two URLs as strings and the
    block before validation runs to its end, the section holds each URL
    without its trailing slashes, however many there were, and is otherwise
    as before, on every platform: the Docker block does not touch it. *)
Theorem normalize_strips_trailing_slashes (env : environment)
    (d d' : gmap pystr rawvalue) (fields : gmap pystr pyvalue) (a b : pystr) :
  d !! u "general" = Some (RSection fields) ->
  fields !! u "edcb_url" = Some (VStr a) ->
  fields !! u "mirakurun_url" = Some (VStr b) ->
  normalize env d = Ok d' ->
  d' !! u "general"
  = Some (RSection (<[u "mirakurun_url" := VStr (rstrip_char 47 b)]>
                      (<[u "edcb_url" := VStr (rstrip_char 47 a)]> fields))) /\
  (exists n, a = rstrip_char 47 a ++ repeat 47 n) /\
  (exists n, b = rstrip_char 47 b ++ repeat 47 n) /\
  ends_with (u "/") (rstrip_char 47 a) = false /\
  ends_with (u "/") (rstrip_char 47 b) = false.
Proof.
  intros Hg Ha Hb Hn.
  destruct (rstrip_char_spec 47 a) as [Ea Na], (rstrip_char_spec 47 b) as [Eb Nb].
  split_and!; try done.
  revert Hn. unfold normalize, unless_KeyError at 1.
  destruct (rstrip_url (u "edcb_url") d) as [d1|e] eqn:E1.
  2:{ destruct e; try done.
      apply rstrip_url_KeyError in E1 as [E1|(f & E1 & E1')]; congruence. }
  apply rstrip_url_inv in E1 as (f1 & s1 & G1 & F1 & ->).
  assert (f1 = fields) as -> by congruence. assert (s1 = a) as -> by congruence.
  unfold unless_KeyError at 1.
  destruct (rstrip_url (u "mirakurun_url") _) as [d2|e] eqn:E2.
  2:{ destruct e; try done.
      apply rstrip_url_KeyError in E2 as [E2|(f & E2 & E2')].
      - by rewrite lookup_insert_eq in E2.
      - rewrite lookup_insert_eq in E2. injection E2 as <-.
        rewrite lookup_insert_ne in E2' by key_ne. congruence. }
  apply rstrip_url_inv in E2 as (f2 & s2 & G2 & F2 & ->).
  rewrite lookup_insert_eq in G2. injection G2 as <-.
  rewrite lookup_insert_ne in F2 by key_ne.
  assert (s2 = b) as -> by congruence.
  intros Hd%docker_block_general. rewrite Hd. by rewrite lookup_insert_eq.
Qed.

(** The sample file: both URLs end in a slash. *)
Lemma normalize_strips_trailing_slashes_witness :
  let fields : gmap pystr pyvalue :=
    {[ u "edcb_url" := VStr (u "tcp://192.168.1.11:4510/");
       u "mirakurun_url" := VStr (u "http://192.168.1.11:40772/") ]} in
  sample_raw !! u "general" = Some (RSection fields) /\
  normalize Sample.docker sample_raw = Ok sample_normalized /\
  sample_normalized !! u "general"
  = Some (RSection
            (<[u "mirakurun_url" := VStr (rstrip_char 47 (u "http://192.168.1.11:40772/"))]>
               (<[u "edcb_url" := VStr (rstrip_char 47 (u "tcp://192.168.1.11:4510/"))]>
                  fields))).
Proof.
  intros fields.
  assert (Hg : sample_raw !! u "general" = Some (RSection fields))
    by (vm_compute; reflexivity).
  assert (Hn : normalize Sample.docker sample_raw = Ok sample_normalized)
    by (vm_compute; reflexivity).
  split_and!; [exact Hg|exact Hn|].
  refine (proj1 (normalize_strips_trailing_slashes Sample.docker sample_raw
                   sample_normalized fields _ _ Hg _ _ Hn)); vm_compute; reflexivity.
Defined.

(** X11.  The [except KeyError: pass] of [LoadConfig] ends the block at the
    first missing key.  Without a [general] section, or without [edcb_url]
    in it, the dictionary goes to validation unchanged; with [edcb_url] but
    without [mirakurun_url], only [edcb_url] has lost its slashes.  In both
    cases the Docker prefix is not applied, also under Docker. *)
Theorem normalize_gives_up_at_a_missing_key (env : environment)
    (d : gmap pystr rawvalue) :
  (d !! u "general" = None -> normalize env d = Ok d) /\
  (forall fields,
     d !! u "general" = Some (RSection fields) ->
     (fields !! u "edcb_url" = None -> normalize env d = Ok d) /\
     (forall a,
        fields !! u "edcb_url" = Some (VStr a) ->
        fields !! u "mirakurun_url" = None ->
        normalize env d
        = Ok (<[u "general" :=
                  RSection (<[u "edcb_url" := VStr (rstrip_char 47 a)]> fields)]> d))).
Proof.
  unfold normalize, unless_KeyError, rstrip_url, getitem. split.
  - intros ->. reflexivity.
  - intros fields ->. cbn [mbind result_bind]. split.
    + intros ->. reflexivity.
    + intros a -> Hm. cbn [mbind result_bind].
      rewrite lookup_insert_eq. cbn [mbind result_bind].
      rewrite lookup_insert_ne by key_ne. by rewrite Hm.
Qed.

Lemma rstrip_url_raises (field : pystr) (d : gmap pystr rawvalue) (e : exn) :
  rstrip_url field d = Raise e ->
  (exists key, e = KeyError key) \/ e = TypeError \/ e = AttributeError.
Proof.
  unfold rstrip_url, getitem.
  destruct (d !! u "general") as [[fields|v]|]; cbn [mbind result_bind];
    [|intros [= <-]; auto|intros [= <-]; eauto].
  destruct (fields !! field) as [[]|]; cbn [mbind result_bind]; try done;
    intros [= <-]; eauto.
Qed.

Lemma prefix_upload_folder_raises (d : gmap pystr rawvalue) (e : exn) :
  prefix_upload_folder d = Raise e -> (exists key, e = KeyError key) \/ e = TypeError.
Proof.
  unfold prefix_upload_folder, getitem.
  destruct (d !! u "capture") as [[fields|v]|]; cbn [mbind result_bind];
    [|intros [= <-]; auto|intros [= <-]; eauto].
  destruct (fields !! u "upload_folder") as [[]|]; cbn [mbind result_bind]; try done;
    intros [= <-]; eauto.
Qed.

Lemma prefix_debug_mode_ts_path_raises (d : gmap pystr rawvalue) (e : exn) :
  prefix_debug_mode_ts_path d = Raise e -> (exists key, e = KeyError key) \/ e = TypeError.
Proof.
  unfold prefix_debug_mode_ts_path, getitem.
  destruct (d !! u "tv") as [[fields|v]|]; cbn [mbind result_bind];
    [|intros [= <-]; auto|intros [= <-]; eauto].
  destruct (fields !! u "debug_mode_ts_path") as [[]|]; cbn [mbind result_bind];
    try done; intros [= <-]; eauto.
Qed.

(** What comes out of the block is never a [KeyError]. *)
Lemma normalize_raises (env : environment) (d : gmap pystr rawvalue) (e : exn) :
  normalize env d = Raise e -> e = TypeError \/ e = AttributeError.
Proof.
  unfold normalize, unless_KeyError.
  destruct (rstrip_url (u "edcb_url") d) as [d1|e1] eqn:E1.
  2:{ apply rstrip_url_raises in E1 as [[k ->]|[-> | ->]]; [done|intros [= <-]; auto..]. }
  destruct (rstrip_url (u "mirakurun_url") d1) as [d2|e2] eqn:E2.
  2:{ apply rstrip_url_raises in E2 as [[k ->]|[-> | ->]]; [done|intros [= <-]; auto..]. }
  destruct (str_eqb _ _); [|done].
  destruct (prefix_upload_folder d2) as [d3|e3] eqn:E3.
  2:{ apply prefix_upload_folder_raises in E3 as [[k ->]| ->]; [done|intros [= <-]; auto]. }
  destruct (prefix_debug_mode_ts_path d3) as [d4|e4] eqn:E4; [done|].
  apply prefix_debug_mode_ts_path_raises in E4 as [[k ->]| ->]; [done|intros [= <-]; auto].
Qed.

(** X12.  An exception of the block before validation that is not a
    [KeyError] leaves [LoadConfig] as it is, with the file read and nothing
    logged: it is a [TypeError] or an [AttributeError], not the
    [SystemExit] of the other failures.  A [general] entry that is not a
    mapping gives [TypeError]; an [edcb_url] that is not a string gives
    [AttributeError]. *)
Theorem LoadConfig_raises_what_normalize_raises (env : environment) (b : bool)
    (w : world) (text : pystr) (d : gmap pystr rawvalue) :
  _CONFIG w = None ->
  config_yaml w = Some text ->
  yaml_load env text = YLoaded (YMapping d) ->
  (forall e,
     normalize env d = Raise e ->
     (e = TypeError \/ e = AttributeError) /\
     LoadConfig env b w = (Raise e, after_read (after_exists w))) /\
  (forall v, d !! u "general" = Some (RValue v) -> normalize env d = Raise TypeError) /\
  (forall fields v,
     d !! u "general" = Some (RSection fields) ->
     fields !! u "edcb_url" = Some v ->
     type_is_str v = false ->
     normalize env d = Raise AttributeError).
Proof.
  intros Hc Hf Hy. split_and!.
  - intros e He. split; [by eapply normalize_raises|].
    rewrite LoadConfig_first by done. by rewrite Hf, Hy, He.
  - intros v Hg. unfold normalize, unless_KeyError, rstrip_url, getitem. by rewrite Hg.
  - intros fields v Hg Hv Ht.
    unfold normalize, unless_KeyError, rstrip_url, getitem. rewrite Hg.
    cbn [mbind result_bind]. rewrite Hv. by destruct v.
Qed.

(** A file whose [edcb_url] is a number. *)
Lemma LoadConfig_raises_what_normalize_raises_witness :
  let d : gmap pystr rawvalue :=
    {[ u "general" := RSection {[ u "edcb_url" := VInt 4510 ]} ]} in
  let env := {| platform_environment := u "Linux";
                yaml_load := fun _ => YLoaded (YMapping d);
                validate := fun _ => Invalid [] [];
                os_linesep := Posix;
                file_write := fun _ => Stored |} in
  let w := Sample.on_disk sample_text in
  _CONFIG w = None /\
  config_yaml w = Some sample_text /\
  yaml_load env sample_text = YLoaded (YMapping d) /\
  LoadConfig env false w = (Raise AttributeError, after_read (after_exists w)).
Proof.
  intros d env w. split_and!; [reflexivity..|].
  destruct (LoadConfig_raises_what_normalize_raises env false w sample_text d
              eq_refl eq_refl eq_refl) as (H & _ & _).
  apply H. vm_compute. reflexivity.
Defined.

(* ===================================================================== *)
(** * [ServerSettings.unverified] *)
(* ===================================================================== *)

Lemma construct_spec (optional_fields : list pystr) (values : gmap pystr pyvalue) :
  (is_Some (values !! u "cls") -> construct optional_fields values = Raise TypeError) /\
  (values !! u "cls" = None ->
   ~ In (u "_fields_set") optional_fields ->
   exists fields,
     construct optional_fields values = Ok fields /\
     constructed_from optional_fields values fields).
Proof.
  unfold construct. split.
  - by intros [v ->].
  - intros -> Hopt. eexists. split; [reflexivity|].
    set (defaults := (list_to_map (map (fun name => (name, VNone)) optional_fields)
                      : gmap pystr pyvalue)).
    assert (Hin : forall k, In k optional_fields -> defaults !! k = Some VNone).
    { subst defaults. clear Hopt. intros k. induction optional_fields as [|o r IH]; [done|].
      intros Hk. cbn [map list_to_map foldr uncurry]. destruct (decide (o = k)) as [->|Hne].
      - by rewrite lookup_insert_eq.
      - rewrite lookup_insert_ne by done. apply IH. by destruct Hk. }
    assert (Hout : forall k, ~ In k optional_fields -> defaults !! k = None).
    { subst defaults. clear Hopt Hin. intros k. induction optional_fields as [|o r IH]; [done|].
      intros Hk. cbn [map list_to_map foldr uncurry]. destruct (decide (o = k)) as [->|Hne].
      - exfalso. apply Hk. by left.
      - rewrite lookup_insert_ne by done. apply IH. intros ?. apply Hk. by right. }
    assert (Hdel : forall k, values !! k = None ->
                             delete (u "_fields_set") values !! k = None).
    { intros k Hk. destruct (decide (u "_fields_set" = k)) as [<-|Hne];
        [apply lookup_delete_eq|]. by rewrite lookup_delete_ne. }
    split_and!.
    + rewrite lookup_union_r by apply lookup_delete_eq. by apply Hout.
    + intros k v Hk Hv. apply lookup_union_Some_l. by rewrite lookup_delete_ne.
    + intros k Hk Hv. rewrite lookup_union_r by by apply Hdel. by apply Hin.
    + intros k Hv Hk. rewrite lookup_union_r by by apply Hdel. by apply Hout.
Qed.

Lemma keyword_arguments_section (d : gmap pystr rawvalue) (name : pystr)
    (fields : gmap pystr pyvalue) :
  d !! name = Some (RSection fields) -> keyword_arguments d name = Ok fields.
Proof. intros H. unfold keyword_arguments, getitem. by rewrite H. Qed.

(** X13.  [ServerSettings.unverified] hands each section to [construct] as
    keyword arguments and checks nothing itself.  With five sections that
    are mappings, none with a key [cls], it returns a document in which
    every section holds each entry given, whatever its name and type, but
    for an entry [_fields_set], which [construct] takes as its own
    parameter, and holds [None] for each optional field that is absent.  It
    takes the sections in the order general, server, tv, capture, twitter:
    the first one that is missing gives a [KeyError] with its name, the
    first one that is not a mapping or that holds a key [cls] a
    [TypeError]. *)
Theorem unverified_checks_no_field (d : gmap pystr rawvalue) :
  (forall g s t c x,
     d !! u "general" = Some (RSection g) ->
     d !! u "server" = Some (RSection s) ->
     d !! u "tv" = Some (RSection t) ->
     d !! u "capture" = Some (RSection c) ->
     d !! u "twitter" = Some (RSection x) ->
     g !! u "cls" = None -> s !! u "cls" = None -> t !! u "cls" = None ->
     c !! u "cls" = None -> x !! u "cls" = None ->
     exists config,
       unverified d = Ok config /\
       constructed_from [] g (general config) /\
       constructed_from [u "custom_https_certificate"; u "custom_https_private_key"]
         s (server config) /\
       constructed_from [u "debug_mode_ts_path"] t (tv config) /\
       constructed_from [] c (capture config) /\
       constructed_from [u "consumer_key"; u "consumer_secret"] x (twitter config)) /\
  (forall before name after,
     section_names = before ++ name :: after ->
     (forall n, In n before ->
                exists fields, d !! n = Some (RSection fields) /\ fields !! u "cls" = None) ->
     (d !! name = None -> unverified d = Raise (KeyError name)) /\
     (forall v, d !! name = Some (RValue v) -> unverified d = Raise TypeError) /\
     (forall fields, d !! name = Some (RSection fields) -> is_Some (fields !! u "cls") ->
                     unverified d = Raise TypeError)).
Proof.
  assert (Hno : forall o : list pystr,
            In o [[]; [u "custom_https_certificate"; u "custom_https_private_key"];
                  [u "debug_mode_ts_path"]; [u "consumer_key"; u "consumer_secret"]] ->
            ~ In (u "_fields_set") o).
  { intros o Ho Hin. cbn [In] in Ho.
    destruct Ho as [<-|[<-|[<-|[<-|[]]]]]; cbn [In] in Hin;
      repeat destruct Hin as [Hin|Hin]; try done; vm_compute in Hin; discriminate Hin. }
  assert (Hsec : forall name o fields,
            d !! name = Some (RSection fields) -> fields !! u "cls" = None ->
            In o [[]; [u "custom_https_certificate"; u "custom_https_private_key"];
                  [u "debug_mode_ts_path"]; [u "consumer_key"; u "consumer_secret"]] ->
            exists built, keyword_arguments d name ≫= construct o = Ok built /\
                          constructed_from o fields built).
  { intros name o fields Hd Hc Ho. rewrite (keyword_arguments_section _ _ _ Hd).
    cbn [mbind result_bind].
    destruct (construct_spec o fields) as [_ H]. by apply H, Hno. }
  split.
  - intros g s t c x Hg Hs Ht Hc Hx Cg Cs Ct Cc Cx. unfold unverified.
    destruct (Hsec _ [] _ Hg Cg) as (g' & -> & Bg); [cbn [In]; auto|].
    destruct (Hsec _ [u "custom_https_certificate"; u "custom_https_private_key"] _ Hs Cs)
      as (s' & -> & Bs); [cbn [In]; auto|].
    destruct (Hsec _ [u "debug_mode_ts_path"] _ Ht Ct) as (t' & -> & Bt); [cbn [In]; auto|].
    destruct (Hsec _ [] _ Hc Cc) as (c' & -> & Bc); [cbn [In]; auto|].
    destruct (Hsec _ [u "consumer_key"; u "consumer_secret"] _ Hx Cx)
      as (x' & -> & Bx); [cbn [In]; auto 6|].
    cbn [mbind result_bind]. eexists. split; [reflexivity|]. by split_and!.
  - intros before name after Hn Hall.
    assert (Hmiss : forall o,
               (d !! name = None ->
                keyword_arguments d name ≫= construct o = Raise (KeyError name)) /\
               (forall v, d !! name = Some (RValue v) ->
                          keyword_arguments d name ≫= construct o = Raise TypeError) /\
               (forall fields, d !! name = Some (RSection fields) ->
                               is_Some (fields !! u "cls") ->
                               keyword_arguments d name ≫= construct o = Raise TypeError)).
    { intros o. unfold keyword_arguments, getitem. split_and!.
      - by intros ->.
      - by intros v ->.
      - intros fields -> Hcls. cbn [mbind result_bind].
        by apply construct_spec. }
    assert (Hok : forall n o, In n before ->
               In o [[]; [u "custom_https_certificate"; u "custom_https_private_key"];
                     [u "debug_mode_ts_path"]; [u "consumer_key"; u "consumer_secret"]] ->
               exists built, keyword_arguments d n ≫= construct o = Ok built).
    { intros n o Hin Ho. destruct (Hall n Hin) as (f & Hf & Hc).
      destruct (Hsec n o f Hf Hc Ho) as (built & E & _). by exists built. }
    clear Hall Hsec. unfold section_names in Hn. unfold unverified.
    destruct before as [|b0 before]; [|destruct before as [|b1 before];
      [|destruct before as [|b2 before]; [|destruct before as [|b3 before];
        [|destruct before as [|b4 before]; [|destruct before; discriminate Hn]]]]];
      injection Hn as <-; subst;
      repeat match goal with
             | |- context [keyword_arguments d (u ?n) ≫= construct ?o] =>
               lazymatch goal with
               | H : keyword_arguments d (u n) ≫= construct o = _ |- _ => fail
               | _ =>
                 let f := fresh "f" in let E := fresh "E" in
                 destruct (Hok (u n) o) as [f E];
                 [cbn [In]; tauto|cbn [In]; auto 6|]; rewrite E;
                 cbn [mbind result_bind]
               end
             end.
    all: match goal with
         | |- (_ -> (keyword_arguments _ _ ≫= construct ?o) ≫= _ = _) /\ _ =>
           destruct (Hmiss o) as (H1 & H2 & H3)
         end;
         split_and!;
         [intros Hk; by rewrite (H1 Hk)|intros v Hk; by rewrite (H2 v Hk)|
          intros fields Hk Hc; by rewrite (H3 fields Hk Hc)].
Qed.

(* ===================================================================== *)
(** * The Docker prefix: when [SaveConfig] does undo [LoadConfig] *)
(* ===================================================================== *)

Lemma contains_false_inv (needle : pystr) (c : char) (s : pystr) :
  contains needle (c :: s) = false ->
  starts_with needle (c :: s) = false /\ contains needle s = false.
Proof. cbn [contains]. by intros [? ?]%orb_false_iff. Qed.

(** Replacing a text that does not occur changes nothing. *)
Lemma replace_from_absent (old new s : pystr) :
  contains old s = false -> replace_from old new 0 s = s.
Proof.
  induction s as [|c t IH]; [done|].
  intros [Hs Ht]%contains_false_inv. cbn [replace_from]. rewrite Hs.
  by rewrite IH.
Qed.

Lemma strip_prefix_of_prefixed (p : pystr) :
  contains _DOCKER_PATH_PREFIX p = false ->
  str_replace _DOCKER_PATH_PREFIX [] (_DOCKER_PATH_PREFIX ++ p) = p.
Proof.
  intros H. rewrite strip_after_prepend.
  change _DOCKER_PATH_PREFIX with (47%N :: u "host-rootfs") in *.
  unfold str_replace. by apply replace_from_absent.
Qed.

(** X14.  Under Docker, when the upload folder of the document is the prefix
    followed by a path in which the prefix does not occur, the dictionary
    [SaveConfig] writes from holds that path, as a string, and the sections
    general, server and twitter unchanged.  The debug capture path comes
    back in the same way when it is held as a string; held as anything else
    it is left as it is. *)
Theorem docker_prefix_round_trip (env : environment) (config : ServerSettings)
    (upload_folder debug_mode_ts_path : pyvalue) (p : pystr) :
  platform_environment env = u "Linux-Docker" ->
  capture config !! u "upload_folder" = Some upload_folder ->
  py_str upload_folder = _DOCKER_PATH_PREFIX ++ p ->
  contains _DOCKER_PATH_PREFIX p = false ->
  tv config !! u "debug_mode_ts_path" = Some debug_mode_ts_path ->
  exists config_dict,
    save_dict env config = Ok config_dict /\
    config_dict !! u "capture"
    = Some (<[u "upload_folder" := VStr p]> (capture config)) /\
    (forall q,
       debug_mode_ts_path = VStr (_DOCKER_PATH_PREFIX ++ q) ->
       contains _DOCKER_PATH_PREFIX q = false ->
       config_dict !! u "tv"
       = Some (<[u "debug_mode_ts_path" := VStr q]> (tv config))) /\
    (type_is_str debug_mode_ts_path = false ->
     config_dict !! u "tv" = Some (tv config)) /\
    config_dict !! u "general" = Some (general config) /\
    config_dict !! u "server" = Some (server config) /\
    config_dict !! u "twitter" = Some (twitter config).
Proof.
  intros Hd Hu Hp Hfree Ht.
  unfold save_dict, strip_docker_prefix, getitem, dict_of.
  rewrite Hd. replace (str_eqb (u "Linux-Docker") (u "Linux-Docker")) with true
    by (symmetry; by apply str_eqb_eq).
  rewrite !lookup_insert_ne by key_ne. rewrite lookup_insert_eq.
  cbn [mbind result_bind]. rewrite Hu. cbn [mbind result_bind].
  rewrite Hp, strip_prefix_of_prefixed by done.
  rewrite !lookup_insert_ne by key_ne. rewrite lookup_insert_eq.
  cbn [mbind result_bind]. rewrite Ht. cbn [mbind result_bind].
  unfold is_the_Path_class. rewrite orb_false_r.
  destruct (type_is_str debug_mode_ts_path) eqn:Ety; eexists; (split; [reflexivity|]).
  - split_and!.
    + rewrite lookup_insert_ne by key_ne. by rewrite lookup_insert_eq.
    + intros q -> Hq. rewrite lookup_insert_eq. cbn [py_str].
      by rewrite strip_prefix_of_prefixed.
    + discriminate.
    + rewrite !lookup_insert_ne by key_ne. by rewrite lookup_insert_eq.
    + rewrite !lookup_insert_ne by key_ne. by rewrite lookup_insert_eq.
    + rewrite !lookup_insert_ne by key_ne. by rewrite lookup_insert_eq.
  - split_and!.
    + by rewrite lookup_insert_eq.
    + intros q -> _. discriminate Ety.
    + intros _. rewrite !lookup_insert_ne by key_ne. by rewrite lookup_insert_eq.
    + rewrite !lookup_insert_ne by key_ne. by rewrite lookup_insert_eq.
    + rewrite !lookup_insert_ne by key_ne. by rewrite lookup_insert_eq.
    + rewrite !lookup_insert_ne by key_ne. by rewrite lookup_insert_eq.
Qed.

(** The two paths of the specification's scenario, the second held as a
    string. *)
Lemma docker_prefix_round_trip_witness :
  let config :=
    Sample.settings Sample.no_section Sample.no_section
      {[ u "debug_mode_ts_path" := VStr (_DOCKER_PATH_PREFIX ++ u "/mnt/rec/test.ts") ]}
      {[ u "upload_folder" := VPath (_DOCKER_PATH_PREFIX ++ u "/mnt/captures") ]}
      Sample.no_section in
  platform_environment Sample.docker = u "Linux-Docker" /\
  contains _DOCKER_PATH_PREFIX (u "/mnt/captures") = false /\
  exists config_dict,
    save_dict Sample.docker config = Ok config_dict /\
    config_dict !! u "capture"
    = Some (<[u "upload_folder" := VStr (u "/mnt/captures")]> (capture config)).
Proof.
  intros config.
  assert (H1 : platform_environment Sample.docker = u "Linux-Docker") by reflexivity.
  assert (H2 : contains _DOCKER_PATH_PREFIX (u "/mnt/captures") = false)
    by (vm_compute; reflexivity).
  split_and!; [exact H1|exact H2|].
  destruct (docker_prefix_round_trip Sample.docker config
              (VPath (_DOCKER_PATH_PREFIX ++ u "/mnt/captures"))
              (VStr (_DOCKER_PATH_PREFIX ++ u "/mnt/rec/test.ts"))
              (u "/mnt/captures") H1)
    as (config_dict & Hs & Hc & _); [vm_compute; reflexivity|reflexivity|exact H2|
                                     vm_compute; reflexivity|].
  by exists config_dict.
Defined.

(* ===================================================================== *)
(** * The matcher on text of a known shape *)
(* ===================================================================== *)

Lemma exec_lit_app {A} (s : pystr) (k : mstate -> option A) : forall pos rest g,
  exec (lit s) k (MState pos (s ++ rest) g) = k (MState (pos + length s) rest g).
Proof.
  induction s as [|c t IH]; intros pos rest g.
  - cbn [lit exec app length]. by rewrite Nat.add_0_r.
  - cbn [lit exec app length m_rest]. rewrite N.eqb_refl. unfold advance.
    cbn [m_pos m_groups]. rewrite IH. by rewrite Nat.add_succ_r.
Qed.

Lemma exec_rep_Chr_app {A} (n : nat) (c : char) (k : mstate -> option A) :
  forall pos rest g,
    exec (rep n (Chr c)) k (MState pos (repeat c n ++ rest) g)
    = k (MState (pos + n) rest g).
Proof.
  induction n as [|n IH]; intros pos rest g.
  - cbn [rep exec repeat app]. by rewrite Nat.add_0_r.
  - cbn [rep exec repeat app m_rest]. rewrite N.eqb_refl. unfold advance.
    cbn [m_pos m_groups]. rewrite IH. by rewrite Nat.add_succ_r.
Qed.

(** A lazy repetition stops at the first place where what follows matches:
    here at the first quote, when the text before it holds none. *)
Lemma star_lazy_first {A} (q : char) (K : mstate -> option A) (body : pystr) :
  forall pos g R x,
    q ∉ body -> forallb any_char body = true ->
    K (MState (S (pos + length body)) R g) = Some x ->
    star_lazy any_char (exec (Chr q) K) pos g (body ++ q :: R) = Some x.
Proof.
  induction body as [|c body IH]; intros pos g R x Hq Hb HK.
  - cbn [app star_lazy exec m_rest]. rewrite N.eqb_refl. unfold advance.
    cbn [m_pos m_groups length] in *. rewrite Nat.add_0_r in HK. by rewrite HK.
  - apply not_elem_of_cons in Hq as [Hc Hq].
    cbn [forallb] in Hb. apply andb_prop in Hb as [Hc' Hb].
    cbn [app star_lazy exec m_rest].
    replace (c =? q) with false by (symmetry; apply N.eqb_neq; congruence).
    rewrite Hc'. apply IH; [done..|].
    cbn [length] in HK. by rewrite Nat.add_succ_r in HK.
Qed.

Lemma firstn_exact (w R : pystr) (pos n : nat) :
  n = (pos + length w)%nat -> firstn (n - pos) (w ++ R) = w.
Proof.
  intros ->. replace (pos + length w - pos)%nat with (length w) by lia.
  rewrite firstn_app, Nat.sub_diag, firstn_all. cbn [firstn]. by rewrite app_nil_r.
Qed.

Lemma exec_Alt_l {A} (r1 r2 : regex) (k : mstate -> option A) (st : mstate) (x : A) :
  exec r1 k st = Some x -> exec (Alt r1 r2) k st = Some x.
Proof. intros H. cbn [exec]. by rewrite H. Qed.

Lemma exec_Alt_r {A} (r1 r2 : regex) (k : mstate -> option A) (st : mstate) :
  exec r1 k st = None -> exec (Alt r1 r2) k st = exec r2 k st.
Proof. intros H. cbn [exec]. by rewrite H. Qed.

(** A quoted token whose body holds no quote of its kind is taken whole. *)
Lemma exec_quoted {A} (q : char) (K : mstate -> option A) (body R : pystr)
    (pos : nat) (g : list (pystr * pystr)) (x : A) :
  q ∉ body -> forallb any_char body = true ->
  K (MState (S (S (pos + length body))) R g) = Some x ->
  exec (re_seq [Chr q; StarLazy any_char; Chr q]) K (MState pos (q :: body ++ q :: R) g)
  = Some x.
Proof.
  intros Hq Hb HK.
  change (exec (re_seq [Chr q; StarLazy any_char; Chr q]) K
            (MState pos (q :: body ++ q :: R) g))
    with (if q =? q
          then star_lazy any_char (exec (Chr q) K) (S pos) g (body ++ q :: R)
          else None).
  rewrite N.eqb_refl. by apply star_lazy_first.
Qed.

(** The key group on a plain key: the key is taken whole. *)
Lemma exec_key_group {A} (k : mstate -> option A) (key R : pystr) (pos : nat)
    (g : list (pystr * pystr)) (x : A) :
  plain_key key ->
  k (MState (pos + length key) R ((u "key", key) :: g)) = Some x ->
  exec (Grp (Some (u "key")) quoted_token) k (MState pos (key ++ R) g) = Some x.
Proof.
  intros (q & body & -> & Hq & Hnot & Hb) Hk.
  set (key := q :: body ++ [q]) in *.
  set (K := fun st' : mstate =>
              k (MState (m_pos st') (m_rest st')
                   ((u "key", firstn (m_pos st' - pos) (key ++ R)) :: m_groups st'))).
  assert (HK : K (MState (S (S (pos + length body))) R g) = Some x).
  { unfold K. cbn [m_pos m_rest m_groups]. rewrite firstn_exact.
    - rewrite <- Hk. f_equal. f_equal. subst key. cbn [length].
      rewrite length_app. cbn [length]. lia.
    - subst key. cbn [length]. rewrite length_app. cbn [length]. lia. }
  change (exec (Grp (Some (u "key")) quoted_token) k (MState pos (key ++ R) g))
    with (exec quoted_token K (MState pos (key ++ R) g)).
  clearbody K. subst key. cbn [app]. rewrite <- app_assoc. cbn [app].
  unfold quoted_token.
  destruct Hq as [-> | ->].
  - apply exec_Alt_l. by apply exec_quoted.
  - rewrite exec_Alt_r by (vm_compute; reflexivity). by apply exec_quoted.
Qed.

(** A greedy repetition that meets only characters of its class up to one
    that is not takes them all, when what follows then matches. *)
Lemma star_greedy_all {A} (p : char -> bool) (k : mstate -> option A) (w : pystr) :
  forall pos g c rest x,
    forallb p w = true -> p c = false ->
    k (MState (pos + length w) (c :: rest) g) = Some x ->
    star_greedy p k pos g (w ++ c :: rest) = Some x.
Proof.
  induction w as [|a w IH]; intros pos g c rest x Hw Hc Hk.
  - cbn [app star_greedy length] in *. rewrite Hc. by rewrite Nat.add_0_r in Hk.
  - cbn [forallb] in Hw. apply andb_prop in Hw as [Ha Hw].
    cbn [app star_greedy]. rewrite Ha.
    rewrite (IH (S pos) g c rest x); [done..|].
    cbn [length] in Hk. by rewrite Nat.add_succ_r in Hk.
Qed.

(** What follows the value in the scalar pattern: a comma and the end of
    the line. *)
Lemma exec_comma_Eol (pos : nat) (rest : pystr) (g : list (pystr * pystr)) :
  rest = [] \/ rest = [LF] ->
  exec (re_seq [Chr comma; Eol]) Some (MState pos (comma :: rest) g)
  = Some (MState (S pos) rest g).
Proof. intros [-> | ->]; reflexivity. Qed.

Lemma exec_comma_Eol_fails (pos : nat) (t : pystr) (g : list (pystr * pystr)) :
  (forall r, t = comma :: r -> (2 <= length r)%nat) ->
  exec (re_seq [Chr comma; Eol]) Some (MState pos t g) = None.
Proof.
  intros H. destruct t as [|c r]; [reflexivity|].
  cbn [re_seq fold_right exec m_rest].
  destruct (N.eqb_spec c comma) as [->|Hc]; [|reflexivity].
  specialize (H r eq_refl). unfold advance. cbn [m_rest].
  destruct r as [|a [|b r]]; cbn [length] in H; [lia..|reflexivity].
Qed.

(** A lazy repetition before a closing quote, a comma and the end of the
    line runs up to the last quote of the line. *)
Lemma star_lazy_last_quote (K : mstate -> option mstate) (s : pystr) :
  forall pos g rest x,
    forallb any_char s = true ->
    (forall p t g', (forall r, t = comma :: r -> (2 <= length r)%nat) ->
                    K (MState p t g') = None) ->
    K (MState (S (pos + length s)) (comma :: rest) g) = Some x ->
    star_lazy any_char (exec (Chr squote) K) pos g (s ++ squote :: comma :: rest)
    = Some x.
Proof.
  induction s as [|c s IH]; intros pos g rest x Hs Hfail HK.
  - cbn [app star_lazy exec m_rest]. rewrite N.eqb_refl. unfold advance.
    cbn [m_pos m_groups length] in *. rewrite Nat.add_0_r in HK. by rewrite HK.
  - cbn [forallb] in Hs. apply andb_prop in Hs as [Hc Hs].
    cbn [app star_lazy exec m_rest].
    assert (Hnone : (if c =? squote
                     then K (advance (MState pos (c :: s ++ squote :: comma :: rest) g)
                               (s ++ squote :: comma :: rest))
                     else None) = None).
    { destruct (c =? squote); [|done]. apply Hfail. intros r Hr.
      destruct s as [|a s]; [discriminate Hr|].
      injection Hr as -> <-. rewrite length_app. cbn [length]. lia. }
    rewrite Hnone, Hc. apply IH; [done..|].
    cbn [length] in HK. by rewrite Nat.add_succ_r in HK.
Qed.

(** The value group reads a token back whole. *)
Lemma exec_value_group (t rest : pystr) (pos : nat) (g : list (pystr * pystr)) :
  value_token t -> rest = [] \/ rest = [LF] ->
  exec value_group (exec (re_seq [Chr comma; Eol]) Some)
    (MState pos (t ++ comma :: rest) g)
  = Some (MState (S (pos + length t)) rest ((u "value", t) :: g)).
Proof.
  intros Ht Hrest.
  set (K := fun st' : mstate =>
              exec (re_seq [Chr comma; Eol]) Some
                (MState (m_pos st') (m_rest st')
                   ((u "value", firstn (m_pos st' - pos) (t ++ comma :: rest))
                      :: m_groups st'))).
  assert (HK : K (MState (pos + length t) (comma :: rest) g)
               = Some (MState (S (pos + length t)) rest ((u "value", t) :: g))).
  { unfold K. cbn [m_pos m_rest m_groups]. rewrite firstn_exact by done.
    by apply exec_comma_Eol. }
  assert (Hfail : forall p x g', (forall r, x = comma :: r -> (2 <= length r)%nat) ->
                                 K (MState p x g') = None).
  { intros p x g' Hx. unfold K. cbn [m_pos m_rest m_groups].
    by apply exec_comma_Eol_fails. }
  change (exec value_group (exec (re_seq [Chr comma; Eol]) Some)
            (MState pos (t ++ comma :: rest) g))
    with (exec (alts (Cat (Cls digit_or_dot) (Star digit_or_dot))
                  [lit (u "true"); lit (u "false"); lit (u "null");
                   re_seq [Chr squote; StarLazy any_char; Chr squote];
                   re_seq [Chr dquote; StarLazy any_char; Chr dquote]])
            K (MState pos (t ++ comma :: rest) g)).
  clearbody K. cbn [alts].
  destruct Ht as [[[Hne Hd]|[-> |[-> | ->]]]|(s & -> & Hs)].
  - destruct t as [|c t]; [done|]. cbn [forallb] in Hd.
    apply andb_prop in Hd as [Hc Hd]. apply exec_Alt_l.
    change (exec (Cat (Cls digit_or_dot) (Star digit_or_dot)) K
              (MState pos ((c :: t) ++ comma :: rest) g))
      with (if digit_or_dot c
            then star_greedy digit_or_dot K (S pos) g (t ++ comma :: rest)
            else None).
    rewrite Hc. apply star_greedy_all; [done|reflexivity|].
    rewrite <- HK. f_equal. f_equal. cbn [length]. lia.
  - rewrite exec_Alt_r by (vm_compute; reflexivity).
    apply exec_Alt_l. by rewrite exec_lit_app.
  - rewrite !exec_Alt_r by (vm_compute; reflexivity).
    apply exec_Alt_l. by rewrite exec_lit_app.
  - rewrite !exec_Alt_r by (vm_compute; reflexivity).
    apply exec_Alt_l. by rewrite exec_lit_app.
  - cbn [app]. rewrite <- app_assoc. cbn [app].
    rewrite !exec_Alt_r by (vm_compute; reflexivity).
    apply exec_Alt_l.
    change (exec (re_seq [Chr squote; StarLazy any_char; Chr squote]) K
              (MState pos (squote :: s ++ squote :: comma :: rest) g))
      with (if squote =? squote
            then star_lazy any_char (exec (Chr squote) K) (S pos) g
                   (s ++ squote :: comma :: rest)
            else None).
    rewrite N.eqb_refl. apply star_lazy_last_quote; [done..|].
    rewrite <- HK. f_equal. f_equal. cbn [length]. rewrite length_app. cbn [length]. lia.
Qed.

(** The scalar pattern reads back a line made of a plain key and a token:
    the groups are that key and that token. *)
Lemma key_value_match_complete (key t rest : pystr) :
  plain_key key -> value_token t -> rest = [] \/ rest = [LF] ->
  exists pos,
    re_match key_value_match_pattern (scalar_line key t rest)
    = Some (MState pos rest [(u "value", t); (u "key", key)]).
Proof.
  intros Hkey Ht Hrest. eexists.
  unfold re_match, key_value_match_pattern, scalar_line, indent.
  change (exec (re_seq [Bol; rep 8 (Chr space); Grp (Some (u "key")) quoted_token;
                        lit (u ": "); _; Chr comma; Eol]) Some
            (MState 0 (repeat space 8 ++ key ++ u ": " ++ t ++ [comma] ++ rest) []))
    with (exec (rep 8 (Chr space))
            (exec (Grp (Some (u "key")) quoted_token)
               (exec (lit (u ": "))
                  (exec value_group (exec (re_seq [Chr comma; Eol]) Some))))
            (MState 0 (repeat space 8 ++ key ++ u ": " ++ t ++ [comma] ++ rest) [])).
  rewrite exec_rep_Chr_app.
  apply exec_key_group; [done|].
  rewrite exec_lit_app.
  change ([comma] ++ rest) with (comma :: rest).
  by rewrite exec_value_group.
Qed.

(** What the scalar pattern matched begins its value with a digit, a dot,
    the first letter of one of the three words, or a quote. *)
Lemma key_value_match_value (line : pystr) (m : mstate) :
  re_match key_value_match_pattern line = Some m ->
  exists key value c v',
    line = indent 8 ++ key ++ u ": " ++ value ++ [comma] ++ m_rest m /\
    (quoted_by squote key \/ quoted_by dquote key) /\
    value = c :: v' /\ value_head c = true.
Proof.
  intros H. apply re_match_sound in H as (w & -> & H).
  destruct H as (w0 & r0 & g0 & -> & (-> & _ & ->) & H).
  destruct H as (w1 & r1 & g1 & -> & Hsp & H).
  apply matches_rep_Chr in Hsp as [-> ->].
  destruct H as (key & r2 & g2 & -> & Hkey & H).
  apply matches_key_group in Hkey as [Hq ->].
  destruct H as (w3 & r3 & g3 & -> & Hsep & H).
  apply matches_lit in Hsep as [-> ->].
  destruct H as (value & r4 & g4 & -> & (g5 & Hval & ->) & H).
  destruct H as (w5 & r5 & g6 & -> & [-> ->] & H).
  destruct H as (w6 & r6 & g7 & -> & (-> & Hend & ->) & [-> _]).
  assert (Hhead : exists c v', value = c :: v' /\ value_head c = true).
  { destruct Hval as [(x1 & x2 & gx & -> & (c & -> & Hc & _) & _)
                     |[Hval|[Hval|[Hval|[Hval|Hval]]]]].
    - exists c, x2. split; [done|]. unfold value_head. by rewrite Hc.
    - apply matches_lit in Hval as [-> _]. by eexists _, _.
    - apply matches_lit in Hval as [-> _]. by eexists _, _.
    - apply matches_lit in Hval as [-> _]. by eexists _, _.
    - apply matches_quoted in Hval as [(body & -> & _) _]. by eexists _, _.
    - apply matches_quoted in Hval as [(body & -> & _) _]. by eexists _, _. }
  destruct Hhead as (c & v' & Hv & Hc).
  exists key, value, c, v'. split_and!; [|done..].
  unfold indent. cbn [m_rest]. rewrite <- !app_assoc, !app_nil_l. reflexivity.
Qed.

(* ===================================================================== *)
(** * Scalar lines that [SaveConfig] has written *)
(* ===================================================================== *)

Lemma digit_or_dot_not (c x : char) :
  digit_or_dot c = true -> digit_or_dot x = false -> c <> x.
Proof. intros Hc Hx ->. congruence. Qed.

Lemma digits_without (t : pystr) (x : char) :
  forallb digit_or_dot t = true -> digit_or_dot x = false -> x ∉ t.
Proof.
  intros Ht Hx. induction t as [|c t IH]; [apply not_elem_of_nil|].
  cbn [forallb] in Ht. apply andb_prop in Ht as [Hc Ht].
  apply not_elem_of_cons. split; [|by apply IH].
  intros ->. congruence.
Qed.

(** A bare token holds no quote and does not begin with a bracket. *)
Lemma bare_token_chars (t : pystr) :
  bare_token t ->
  (squote ∉ t) /\ (dquote ∉ t) /\ (forall t', t <> 91 :: t').
Proof.
  intros [[Hne Hd]|[-> |[-> | ->]]].
  - split_and!; [by apply digits_without..|].
    intros t' ->. cbn [forallb] in Hd. by apply andb_prop in Hd as [Hd _].
  - split_and!; [apply not_elem_of_literal; vm_compute; reflexivity..|].
    intros t' E. vm_compute in E. discriminate E.
  - split_and!; [apply not_elem_of_literal; vm_compute; reflexivity..|].
    intros t' E. vm_compute in E. discriminate E.
  - split_and!; [apply not_elem_of_literal; vm_compute; reflexivity..|].
    intros t' E. vm_compute in E. discriminate E.
Qed.

(** The key of a line with a plain key is read in one way only, when what
    follows the key holds no quote. *)
Lemma same_key (key key' R R' : pystr) :
  plain_key key ->
  quoted_by squote key' \/ quoted_by dquote key' ->
  squote ∉ R -> dquote ∉ R ->
  key ++ R = key' ++ R' ->
  key' = key /\ R' = R.
Proof.
  intros (q & body & -> & Hq & Hnot & _) Hq' Hs Hd E.
  assert (HqR : q ∉ R) by by destruct Hq as [-> | ->].
  assert (exists body', key' = q :: body' ++ [q]) as [body' ->].
  { destruct Hq' as [(b & -> & _)|(b & -> & _)]; injection E as <- _; by exists b. }
  cbn [app] in E. injection E as E. rewrite <- !app_assoc in E. cbn [app] in E.
  apply first_quote_unique in E as [-> ->]; done.
Qed.

Lemma scalar_tail_no_quote (t rest : pystr) (q : char) :
  q = squote \/ q = dquote -> q ∉ t -> rest = [] \/ rest = [LF] ->
  q ∉ u ": " ++ t ++ [comma] ++ rest.
Proof.
  intros Hq Ht Hrest. rewrite !not_elem_of_app. split_and!; [|done| |].
  - apply not_elem_of_literal. by destruct Hq as [-> | ->]; vm_compute.
  - apply not_elem_of_literal. by destruct Hq as [-> | ->]; vm_compute.
  - apply not_elem_of_literal. by destruct Hq as [-> | ->], Hrest as [-> | ->]; vm_compute.
Qed.

(** With a plain key and a value without quotes that does not begin with a
    bracket, a scalar line is no list-opening line. *)
Lemma scalar_line_not_list_start (key t rest : pystr) :
  plain_key key -> squote ∉ t -> dquote ∉ t -> (forall t', t <> 91 :: t') ->
  rest = [] \/ rest = [LF] ->
  re_match list_start_pattern (scalar_line key t rest) = None.
Proof.
  intros Hkey Hs Hd Hb Hrest.
  destruct (re_match list_start_pattern (scalar_line key t rest)) as [m|] eqn:E; [|done].
  apply list_start_inv in E as (key' & tail & Hl & _ & _ & Hq & _).
  unfold scalar_line in Hl. apply app_inv_head in Hl.
  apply same_key in Hl as [_ Hl]; [|done|done|by apply scalar_tail_no_quote; auto..].
  eval_u_in Hl. cbn [app] in Hl. injection Hl as Hl.
  destruct t as [|c t]; cbn [app] in Hl; [discriminate Hl|].
  injection Hl as <- _. by destruct (Hb t).
Qed.

Lemma plain_key_shape (key : pystr) :
  plain_key key -> exists q body, (q = squote \/ q = dquote) /\ key = q :: body.
Proof. intros (q & body & -> & Hq & _). by exists q, (body ++ [q]). Qed.

Lemma uint_digits (d : Decimal.uint) :
  forallb digit_or_dot (bytes_of (NilEmpty.string_of_uint d)) = true.
Proof.
  induction d; cbn [NilEmpty.string_of_uint]; [reflexivity|..];
    rewrite bytes_of_String; cbn [forallb]; by rewrite IHd.
Qed.

Lemma uint_digits_zero (d : Decimal.uint) :
  forallb digit_or_dot (bytes_of (NilZero.string_of_uint d)) = true /\
  bytes_of (NilZero.string_of_uint d) <> [].
Proof.
  destruct d; [by split|..];
    (split; [apply uint_digits|]);
    cbn [NilZero.string_of_uint NilEmpty.string_of_uint]; by rewrite bytes_of_String.
Qed.

(** What [SaveConfig] writes for a value is read back by the scalar pattern
    in these cases. *)
Lemma written_values_are_tokens :
  (forall n, (0 <= n)%Z -> bare_token (value_real_of (VInt n))) /\
  (forall b, bare_token (value_real_of (VBool b))) /\
  bare_token (value_real_of VNone) /\
  (forall s, forallb any_char s = true -> value_token (value_real_of (VStr s))) /\
  (forall p, forallb any_char p = true -> value_token (value_real_of (VPath p))).
Proof.
  split_and!.
  - intros n Hn. rewrite value_real_of_int. left. unfold str_int.
    destruct n as [|p|p]; [by split| |lia].
    cbn [Z.to_int NilZero.string_of_int].
    destruct (uint_digits_zero (Pos.to_uint p)) as [H1 H2]. by split.
  - intros [|]; right; auto.
  - right. auto.
  - intros s Hs. right. by exists s.
  - intros p Hp. right. by exists p.
Qed.

(** X16.  A scalar line whose value begins with a minus sign matches none of
    the four patterns: the value group has no alternative for the sign.
    So once [SaveConfig] has written a negative number (the text of a
    negative [int] begins with the sign), every later run copies the line
    as it is, or drops it inside a list block, whatever the document
    holds: the field is no longer updated. *)
Theorem minus_sign_line_is_never_patched (key t rest : pystr) :
  plain_key key ->
  rest = [] \/ rest = [LF] ->
  squote ∉ t -> dquote ∉ t ->
  let line := scalar_line key (45 :: t) rest in
  unrecognized line /\
  (forall config_dict st,
     scan_line config_dict st line = Ok (st, if in_list st then [] else [line])) /\
  (forall n, (n < 0)%Z ->
             exists digits, value_real_of (VInt n) = 45 :: digits /\
                            (squote ∉ digits) /\ (dquote ∉ digits)).
Proof.
  intros Hkey Hrest Hs Hd line.
  assert (Hs' : squote ∉ 45 :: t)
    by (apply not_elem_of_cons; split; [by vm_compute|done]).
  assert (Hd' : dquote ∉ 45 :: t)
    by (apply not_elem_of_cons; split; [by vm_compute|done]).
  assert (Hu : unrecognized line).
  { destruct (plain_key_shape key Hkey) as (q & body & Hq & ->).
    subst line. unfold scalar_line. split_and!.
    - cbn [app]. by apply indented_quote_not_parent.
    - by apply (scalar_line_not_list_start (q :: body) (45 :: t) rest).
    - cbn [app]. by apply indented_quote_not_list_end.
    - destruct (re_match key_value_match_pattern _) as [m|] eqn:E; [|done].
      apply key_value_match_value in E as (key' & value & c & v' & Hl & Hq' & -> & Hc).
      apply app_inv_head in Hl.
      apply same_key in Hl as [_ Hl]; [|done|done|by apply scalar_tail_no_quote; auto..].
      apply app_inv_head in Hl. injection Hl as -> _. by vm_compute in Hc. }
  split_and!; [done| |].
  - intros config_dict st. by apply scan_line_unrecognized.
  - intros n Hn. rewrite value_real_of_int. unfold str_int.
    destruct n as [|p|p]; [lia..|].
    cbn [Z.to_int NilZero.string_of_int]. rewrite bytes_of_String.
    eexists. split; [reflexivity|].
    destruct (uint_digits_zero (Pos.to_uint p)) as [H1 _].
    split; by apply digits_without.
Qed.

(** A line with [-5], and a document that holds 7 for the field. *)
Lemma minus_sign_line_is_never_patched_witness :
  let line := Sample.ln "        'offset': -5," in
  plain_key (u "'offset'") /\
  unrecognized line /\
  scan_line {[ u "general" := {[ u "offset" := VInt 7 ]} ]} Sample.in_general line
  = Ok (Sample.in_general, [line]).
Proof.
  intros line.
  assert (Hk : plain_key (u "'offset'")).
  { exists squote, (u "offset"). split_and!; [by vm_compute|by left| |by vm_compute].
    apply not_elem_of_literal. by vm_compute. }
  destruct (minus_sign_line_is_never_patched (u "'offset'") (u "5") [LF] Hk
              (or_intror eq_refl)) as (Hu & Hs & _).
  - apply not_elem_of_literal. by vm_compute.
  - apply not_elem_of_literal. by vm_compute.
  - split_and!; [exact Hk|exact Hu|].
    exact (Hs {[ u "general" := {[ u "offset" := VInt 7 ]} ]} Sample.in_general).
Defined.

(* ===================================================================== *)
(** * A list field that the document does not hold *)
(* ===================================================================== *)

(** A list-closing line is neither a section-opening nor a list-opening
    line. *)
Lemma list_end_line_only (l : pystr) :
  is_Some (re_match list_end_pattern l) ->
  re_match parent_key_match_pattern l = None /\
  re_match list_start_pattern l = None.
Proof.
  intros [m (tail & -> & _)%list_end_inv]. split.
  - destruct (re_match parent_key_match_pattern _) as [m'|] eqn:E; [|done].
    apply parent_key_match_inv in E as (key & Hl & _ & Hq & _).
    destruct Hq as [(b & -> & _)|(b & -> & _)];
      cbv [indent repeat app] in Hl; eval_u_in Hl; discriminate Hl.
  - destruct (re_match list_start_pattern _) as [m'|] eqn:E; [|done].
    apply list_start_inv in E as (key & tl & Hl & _ & _ & Hq & _).
    destruct Hq as [(b & -> & _)|(b & -> & _)];
      cbv [indent repeat app] in Hl; eval_u_in Hl; discriminate Hl.
Qed.

(** Inside a list block, lines that open no section and open or close no
    list are dropped. *)
Lemma scan_inside_list (config_dict : gmap pystr (gmap pystr pyvalue))
    (lines : list pystr) :
  (forall l, In l lines ->
             re_match parent_key_match_pattern l = None /\
             re_match list_start_pattern l = None /\
             re_match list_end_pattern l = None) ->
  forall st, in_list st = true -> scan config_dict st lines = Ok (st, []).
Proof.
  induction lines as [|l lines IH]; intros Hall st Hin; [done|].
  destruct (Hall l (or_introl eq_refl)) as (H1 & H2 & H3).
  cbn [scan]. unfold scan_line. rewrite H1, H2, H3, Hin.
  cbn [mbind result_bind]. rewrite IH; [done| |done].
  intros l' Hl'. apply Hall. by right.
Qed.

(** X17.  A list-opening line whose key is not in the current section of
    the document is copied as it is, but it opens a list block all the
    same: the lines that follow, up to and with the list-closing line, are
    dropped.  What is written keeps the opening line without its items and
    without its closing bracket. *)
Theorem unknown_list_field_loses_its_items
    (config_dict : gmap pystr (gmap pystr pyvalue)) (st : scan_state)
    (line close : pystr) (body : list pystr) (m : mstate) (key : pystr)
    (section : gmap pystr pyvalue) :
  re_match list_start_pattern line = Some m ->
  m_groups m = [(u "key", key)] ->
  config_dict !! current_parent_key st = Some section ->
  section !! unquote key = None ->
  (forall l, In l body ->
             re_match parent_key_match_pattern l = None /\
             re_match list_start_pattern l = None /\
             re_match list_end_pattern l = None) ->
  is_Some (re_match list_end_pattern close) ->
  scan_line config_dict st line
  = Ok (ScanState (current_parent_key st) true (unquote key), [line]) /\
  scan config_dict st (line :: body ++ [close])
  = Ok (ScanState (current_parent_key st) false (unquote key), [line]).
Proof.
  intros Hm Hg Hsec Hk Hbody Hclose.
  assert (Hline : scan_line config_dict st line
                  = Ok (ScanState (current_parent_key st) true (unquote key), [line])).
  { assert (Hp : re_match parent_key_match_pattern line = None).
    { destruct (field_line_shape line) as (q & b & Hq & ->); [left; by eexists|].
      by apply indented_quote_not_parent. }
    unfold scan_line. rewrite Hp, Hm. unfold groupdict_get, group. rewrite Hg.
    replace (assoc (u "key") [(u "key", key)]) with (Some key)
      by (vm_compute; reflexivity).
    cbn [mbind result_bind current_parent_key list_key]. unfold getitem.
    rewrite Hsec. cbn [mbind result_bind]. by rewrite Hk. }
  split; [exact Hline|].
  cbn [scan]. rewrite Hline. cbn [mbind result_bind].
  rewrite scan_app. rewrite scan_inside_list by done.
  cbn [mbind result_bind scan].
  destruct (list_end_line_only close Hclose) as [H1 H2].
  destruct Hclose as [m' Hm'].
  unfold scan_line. rewrite H1, H2, Hm'. reflexivity.
Qed.

(** A list field [unknown] in the [capture] section. *)
Lemma unknown_list_field_loses_its_items_witness :
  let line := Sample.ln "        'unknown': [" in
  let body := [Sample.ln "            'x',"] in
  let close := Sample.ln "        ]," in
  let st := ScanState (u "capture") false [] in
  re_match list_start_pattern line
  = Some (MState 21 [] [(u "key", u "'unknown'")]) /\
  scan (dict_of two_folders) st (line :: body ++ [close])
  = Ok (ScanState (u "capture") false (u "unknown"), [line]).
Proof.
  intros line body close st.
  assert (Hm : re_match list_start_pattern line
               = Some (MState 21 [] [(u "key", u "'unknown'")]))
    by (vm_compute; reflexivity).
  split; [exact Hm|].
  refine (proj2 (unknown_list_field_loses_its_items (dict_of two_folders) st line close
                   body _ (u "'unknown'") (capture two_folders) Hm eq_refl _ _ _ _)).
  - vm_compute. reflexivity.
  - vm_compute. reflexivity.
  - intros l [<-|[]]. vm_compute. auto.
  - exists (MState 11 [] []). vm_compute. reflexivity.
Defined.

(* ===================================================================== *)
(** * The port validator: what it accepts and how it fails *)
(* ===================================================================== *)

Local Open Scope Z_scope.

(** When the loop over the sockets ends, every listening socket with an
    owner had its owner in the process table. *)
Lemma used_ports_owners_known (ps : snapshot) (conns : list sconn) (ports : list Z) :
  used_ports ps conns = Ok ports -> owners_known ps conns.
Proof.
  revert ports. induction conns as [|conn rest IH]; intros ports H.
  - intros c pid [].
  - cbn [used_ports] in H.
    assert (Hcase : (exists ports', used_ports ps rest = Ok ports') /\
                    (conn_status conn = u "LISTEN" ->
                     forall pid, conn_pid conn = Some pid -> is_Some (parent_of ps pid))).
    { destruct (str_eqb (conn_status conn) (u "LISTEN")) eqn:El.
      2:{ split; [by eexists|]. intros E. apply str_eqb_eq in E. congruence. }
      destruct (conn_pid conn) as [pid|]; [|split; [by eexists|done]].
      destruct (parent_of ps pid) as [ppid|] eqn:Ep; [|discriminate H].
      split.
      - destruct (is_own_family ps pid ppid); [by eexists|].
        destruct (conn_laddr conn); [|by eexists].
        destruct (used_ports ps rest); [by eexists|discriminate H].
      - intros _ pid' [= <-]. by eexists. }
    destruct Hcase as [[ports' Hp] Hc].
    intros c pid [<-|Hin] Hs Hpid; [by apply Hc|].
    by apply (IH ports' Hp c pid).
Qed.

Lemma port_messages_marked (port : Z) :
  is_custom_error port_out_of_range_message = true /\
  is_custom_error (port_in_use_message port) = true /\
  is_custom_error (companion_port_in_use_message port) = true.
Proof.
  split_and!; [vm_compute; reflexivity| |].
  - unfold port_in_use_message. find_mark.
  - unfold companion_port_in_use_message. find_mark.
Qed.

(** X18.  What [validate_port] can end in.  When it returns, it returns the
    port it was given, the port is from 1024 to 65525, every listening
    socket had its owner in the process table, and no socket of a foreign
    process listens on the port or on the port ten above.  When it raises,
    it raises a [ValueError] whose message holds the mark of the module's
    validators, or, for a port in the range, the [NoSuchProcess] of
    [psutil]. *)
Theorem validate_port_outcomes (ps : snapshot) (port : Z) :
  (forall q,
     validate_port ps port = Ok q ->
     q = port /\ 1024 <= port <= 65525 /\
     owners_known ps (net_connections ps) /\
     forall conn, In conn (net_connections ps) ->
                  ~ foreign_listener ps conn port /\
                  ~ foreign_listener ps conn (port + 10)) /\
  (forall e,
     validate_port ps port = Raise e ->
     (exists msg, e = ValueError msg /\ is_custom_error msg = true) \/
     (exists pid, e = NoSuchProcess pid /\ 1024 <= port <= 65525)).
Proof.
  destruct (port_messages_marked port) as (M1 & M2 & M3).
  destruct (decide (1024 <= port <= 65525)) as [Hr|Hr].
  2:{ assert (E : validate_port ps port = Raise (ValueError port_out_of_range_message)).
      { unfold validate_port.
        replace ((port <? 1024) || (port >? 65525)) with true; [done|].
        symmetry. apply orb_true_iff. rewrite Z.ltb_lt, Z.gtb_gt. lia. }
      rewrite E. split; [discriminate|].
      intros e [= <-]. left. eexists. split; [reflexivity|exact M1]. }
  destruct (used_ports ps (net_connections ps)) as [ports|e'] eqn:Eu.
  - rewrite (validate_port_in_range ps port ports Hr Eu).
    pose proof (used_ports_owners_known _ _ _ Eu) as Hk.
    destruct (used_ports_spec ps _ Hk) as (ports' & Eu' & Hspec).
    assert (ports' = ports) as -> by congruence.
    destruct (port_in port ports) eqn:E1.
    { split; [discriminate|]. intros e [= <-]. left.
      eexists. split; [reflexivity|exact M2]. }
    destruct (port_in (port + 10) ports) eqn:E2.
    { split; [discriminate|]. intros e [= <-]. left.
      eexists. split; [reflexivity|exact M3]. }
    split; [|discriminate].
    intros q [= <-]. split_and!; [done|lia|lia|done|].
    intros conn Hin. split; intros Hf.
    + apply not_true_iff_false in E1. apply E1, port_in_spec, Hspec. eauto.
    + apply not_true_iff_false in E2. apply E2, port_in_spec, Hspec. eauto.
  - assert (E : validate_port ps port = Raise e').
    { unfold validate_port.
      replace ((port <? 1024) || (port >? 65525)) with false.
      - by rewrite Eu.
      - symmetry. apply orb_false_iff. rewrite Z.ltb_ge, Z.gtb_ltb, Z.ltb_ge. lia. }
    rewrite E. split; [discriminate|].
    intros e [= <-]. right. apply used_ports_raises in Eu as [pid ->]. by exists pid.
Qed.

(** X19.  A listening socket whose owner is no longer in the process table
    makes the validator fail with [NoSuchProcess] for every port of the
    range, used or not: the error of [psutil.Process] is not caught.  The
    socket reported is the first such one. *)
Theorem validate_port_vanished_process (ps : snapshot) (port : Z)
    (before after : list sconn) (conn : sconn) (pid : Z) :
  1024 <= port <= 65525 ->
  net_connections ps = before ++ conn :: after ->
  owners_known ps before ->
  conn_status conn = u "LISTEN" ->
  conn_pid conn = Some pid ->
  parent_of ps pid = None ->
  validate_port ps port = Raise (NoSuchProcess pid).
Proof.
  intros Hr Hc Hb Hs Hp Hn. unfold validate_port.
  replace ((port <? 1024) || (port >? 65525)) with false.
  - by rewrite Hc, (used_ports_vanished ps before after conn pid Hb Hs Hp Hn).
  - symmetry. apply orb_false_iff. rewrite Z.ltb_ge, Z.gtb_ltb, Z.ltb_ge. lia.
Qed.

(** One listening socket, owned by a process that has exited. *)
Lemma validate_port_vanished_process_witness :
  let conn := SConn (u "LISTEN") (Some 999) (Some (Addr (u "0.0.0.0") 8000)) in
  let ps := Snapshot 100 1 [conn] (fun _ => None) in
  1024 <= 7000 <= 65525 /\
  net_connections ps = [] ++ conn :: [] /\
  owners_known ps [] /\
  validate_port ps 7000 = Raise (NoSuchProcess 999).
Proof.
  intros conn ps.
  assert (Hr : 1024 <= 7000 <= 65525) by lia.
  assert (Hk : owners_known ps []) by (intros c pid []).
  split; [exact Hr|]. split; [reflexivity|]. split; [exact Hk|].
  exact (validate_port_vanished_process ps 7000 [] [] conn 999 Hr eq_refl Hk
           eq_refl eq_refl eq_refl).
Defined.

Local Close Scope Z_scope.

(* ===================================================================== *)
(** * The version line that [validate_encoder] logs *)
(* ===================================================================== *)

Lemma exec_lit_fails {A} (l : pystr) (K : mstate -> option A) :
  forall pos s g,
    starts_with l s = false -> exec (lit l) K (MState pos s g) = None.
Proof.
  induction l as [|c l IH]; intros pos s g H; [discriminate H|].
  destruct s as [|a s]; [reflexivity|].
  cbn [starts_with] in H. cbn [lit exec m_rest].
  rewrite N.eqb_sym. destruct (c =? a); [|reflexivity].
  cbn [andb] in H. unfold advance. cbn [m_pos m_groups]. by apply IH.
Qed.

Lemma starts_with_split (l s : pystr) :
  starts_with l s = true -> exists r, s = l ++ r.
Proof.
  revert s. induction l as [|c l IH]; intros s H; [by exists s|].
  destruct s as [|a s]; [discriminate H|].
  cbn [starts_with] in H. apply andb_prop in H as [Hc H].
  apply N.eqb_eq in Hc as ->. destruct (IH s H) as [r ->]. by exists r.
Qed.

Lemma starts_with_longer (l a b : pystr) :
  starts_with l a = true -> starts_with l (a ++ b) = true.
Proof.
  revert a. induction l as [|c l IH]; intros a H; [done|].
  destruct a as [|x a]; [discriminate H|].
  cbn [starts_with app] in *. apply andb_prop in H as [Hc H].
  by rewrite Hc, IH.
Qed.

Lemma contains_longer (l a b : pystr) :
  contains l a = true -> contains l (a ++ b) = true.
Proof.
  induction a as [|x a IH]; intros H.
  - cbn [contains] in H. rewrite orb_false_r in H.
    destruct l; [|discriminate H]. by destruct b.
  - cbn [contains app] in *. apply orb_prop in H as [H|H].
    + pose proof (starts_with_longer l (x :: a) b H) as H'. cbn [app] in H'.
      by rewrite H'.
    + rewrite IH by done. apply orb_true_r.
Qed.

(** A greedy [.*] before the end of the line takes all of a text without
    line feed. *)
Lemma star_greedy_to_end (r : pystr) :
  forall pos g,
    forallb any_char r = true ->
    star_greedy any_char (exec (Cat Eol Eps) Some) pos g r
    = Some (MState (pos + length r) [] g).
Proof.
  induction r as [|c r IH]; intros pos g H.
  - cbn [star_greedy length]. by rewrite Nat.add_0_r.
  - cbn [forallb] in H. apply andb_prop in H as [Hc H].
    cbn [star_greedy length]. rewrite Hc, IH by done.
    by rewrite Nat.add_succ_r.
Qed.

Lemma cut_matches_skip (pattern : regex) (x : pystr) :
  forall pos y,
    cut_matches pattern pos (length x) (x ++ y)
    = cut_matches pattern (pos + length x) 0 y.
Proof.
  induction x as [|c x IH]; intros pos y.
  - cbn [length app]. by rewrite Nat.add_0_r.
  - cbn [length app cut_matches]. rewrite IH. by rewrite Nat.add_succ_r.
Qed.

(** Removing the matches of a literal followed by [.*$] from a text without
    line feed cuts the text at the first occurrence of the literal. *)
Lemma cut_matches_before_first (l : pystr) (s : pystr) :
  l <> [] ->
  forall pos,
    forallb any_char s = true ->
    cut_matches (re_seq [lit l; Star any_char; Eol]) pos 0 s = before_first l s.
Proof.
  intros Hl. induction s as [|c t IH]; intros pos Hs; [done|].
  cbn [cut_matches before_first].
  change (exec (re_seq [lit l; Star any_char; Eol]) Some (MState pos (c :: t) []))
    with (exec (lit l)
            (fun st => star_greedy any_char (exec (Cat Eol Eps) Some)
                         (m_pos st) (m_groups st) (m_rest st))
            (MState pos (c :: t) [])).
  destruct (starts_with l (c :: t)) eqn:E.
  - destruct (starts_with_split _ _ E) as [r Hr]. rewrite Hr, exec_lit_app.
    cbn [m_pos m_groups m_rest].
    assert (Hr' : forallb any_char r = true).
    { rewrite Hr, forallb_app in Hs. by apply andb_prop in Hs as [_ Hs]. }
    rewrite star_greedy_to_end by done. cbn [m_pos].
    assert (Hlen : (pos + length l + length r - pos - 1)%nat = length t).
    { apply (f_equal (@length _)) in Hr. rewrite length_app in Hr.
      cbn [length] in Hr. lia. }
    rewrite Hlen. rewrite <- (app_nil_r t) at 2. by rewrite cut_matches_skip.
  - rewrite exec_lit_fails by done.
    cbn [forallb] in Hs. apply andb_prop in Hs as [_ Hs]. by rewrite IH.
Qed.

(** [before_first] gives the text up to the first occurrence, and that
    part holds no occurrence. *)
Lemma before_first_spec (l s : pystr) :
  l <> [] ->
  contains l (before_first l s) = false /\
  exists r, s = before_first l s ++ r /\ (r = [] \/ starts_with l r = true).
Proof.
  intros Hl. induction s as [|c t (Hc & r & Hr & Hs)].
  - split; [by apply contains_nil|]. exists []. auto.
  - cbn [before_first]. destruct (starts_with l (c :: t)) eqn:E.
    + split; [by apply contains_nil|]. exists (c :: t). auto.
    + split.
      * cbn [contains]. rewrite Hc, orb_false_r.
        destruct (starts_with l (c :: before_first l t)) eqn:E'; [|done].
        pose proof (starts_with_longer l _ r E') as E''. cbn [app] in E''.
        rewrite <- Hr in E''. congruence.
      * exists r. split; [|done]. cbn [app]. by rewrite <- Hr.
Qed.

Lemma before_first_forallb (p : char -> bool) (l s : pystr) :
  forallb p s = true -> forallb p (before_first l s) = true.
Proof.
  induction s as [|c t IH]; [done|]. intros H.
  cbn [forallb] in H. apply andb_prop in H as [Hc H].
  cbn [before_first]. destruct (starts_with l (c :: t)); [done|].
  cbn [forallb]. by rewrite Hc, IH.
Qed.

(** The first line of a text holds no line feed. *)
Lemma first_line_no_LF (s : pystr) :
  forallb any_char (hd [] (split_char LF s)) = true.
Proof.
  induction s as [|c t IH]; [done|].
  cbn [split_char]. destruct (c =? LF) eqn:E; [done|].
  destruct (split_char LF t) as [|h r]; cbn [hd forallb] in *;
    unfold any_char at 1; by rewrite E.
Qed.

Lemma lstrip_space_suffix (s : pystr) : exists pre, s = pre ++ lstrip_space s.
Proof.
  induction s as [|c t [pre IH]]; [by exists []|].
  cbn [lstrip_space]. destruct (isspace c); [|by exists []].
  exists (c :: pre). cbn [app]. by rewrite <- IH.
Qed.

Lemma lstrip_space_head (s : pystr) (c : char) (t : pystr) :
  lstrip_space s = c :: t -> isspace c = false.
Proof.
  induction s as [|x s IH]; [discriminate|].
  cbn [lstrip_space]. destruct (isspace x) eqn:E; [exact IH|].
  by intros [= <- _].
Qed.

(** [strip] leaves no blank at either end. *)
Lemma strip_edges (s : pystr) :
  (forall c t, strip s = c :: t -> isspace c = false) /\
  (forall t c, strip s = t ++ [c] -> isspace c = false).
Proof.
  unfold strip. split.
  - intros c t H. apply (f_equal (@rev _)) in H. rewrite rev_involutive in H.
    cbn [rev] in H.
    destruct (lstrip_space_suffix (rev (lstrip_space s))) as [pre Hpre].
    rewrite H in Hpre. apply (f_equal (@rev _)) in Hpre.
    rewrite rev_involutive, !rev_app_distr, rev_involutive in Hpre. cbn [rev app] in Hpre.
    by apply lstrip_space_head in Hpre.
  - intros t c H. apply (f_equal (@rev _)) in H. rewrite rev_involutive in H.
    rewrite rev_app_distr in H. cbn [rev app] in H.
    by apply lstrip_space_head in H.
Qed.

(** X20.  The version line that [validate_encoder] logs.  It is made from
    the first line of the output of [--version]: the two substitutions cut
    that line at the first [ Copyright] and then at the first [ by rigaya]
    (a final carriage return goes with what is cut), so what is kept is a
    beginning of the line that holds neither text, and all of the line when
    the line holds neither; then [ffmpeg] becomes [FFmpeg] and the blanks at
    both ends are taken off, so that the result neither begins nor ends
    with a blank. *)
Theorem encoder_version_line (stdout : pystr) :
  let line := hd [] (split_char LF stdout) in
  let cut := before_first (u " by rigaya") (before_first (u " Copyright") line) in
  encoder_version_of stdout = strip (str_replace (u "ffmpeg") (u "FFmpeg") cut) /\
  (exists dropped, line = cut ++ dropped) /\
  contains (u " Copyright") cut = false /\
  contains (u " by rigaya") cut = false /\
  (contains (u " Copyright") line = false -> contains (u " by rigaya") line = false ->
   cut = line) /\
  (forall c t, encoder_version_of stdout = c :: t -> isspace c = false) /\
  (forall t c, encoder_version_of stdout = t ++ [c] -> isspace c = false).
Proof.
  intros line cut.
  assert (Hc : u " Copyright" <> []) by (vm_compute; discriminate).
  assert (Hr : u " by rigaya" <> []) by (vm_compute; discriminate).
  assert (Hline : forallb any_char line = true) by apply first_line_no_LF.
  assert (E : encoder_version_of stdout
              = strip (str_replace (u "ffmpeg") (u "FFmpeg") cut)).
  { unfold encoder_version_of, copyright_pattern, by_rigaya_pattern. fold line.
    rewrite (cut_matches_before_first (u " Copyright") line Hc 0%nat Hline).
    rewrite (cut_matches_before_first (u " by rigaya") _ Hr 0%nat)
      by by apply before_first_forallb.
    reflexivity. }
  destruct (before_first_spec (u " Copyright") line Hc) as (C1 & r1 & E1 & S1).
  destruct (before_first_spec (u " by rigaya")
              (before_first (u " Copyright") line) Hr) as (C2 & r2 & E2 & S2).
  fold cut in C2, E2.
  split_and!.
  - exact E.
  - exists (r2 ++ r1). rewrite app_assoc, <- E2. exact E1.
  - destruct (contains (u " Copyright") cut) eqn:X; [|done].
    apply contains_longer with (b := r2) in X. rewrite <- E2 in X. congruence.
  - exact C2.
  - intros N1 N2.
    assert (B1 : before_first (u " Copyright") line = line).
    { destruct S1 as [-> | S1]; [by rewrite app_nil_r in E1|].
      assert (contains (u " Copyright") line = true); [|congruence].
      rewrite E1. clear -S1. induction (before_first _ line) as [|x a IH].
      - destruct r1; cbn [app contains] in *; by rewrite S1.
      - cbn [app contains]. rewrite IH. apply orb_true_r. }
    unfold cut. rewrite B1.
    destruct (before_first_spec (u " by rigaya") line Hr) as (_ & r3 & E3 & S3).
    destruct S3 as [-> | S3]; [by rewrite app_nil_r in E3|].
    assert (contains (u " by rigaya") line = true); [|congruence].
    rewrite E3. clear -S3. induction (before_first _ line) as [|x a IH].
    + destruct r3; cbn [app contains] in *; by rewrite S3.
    + cbn [app contains]. rewrite IH. apply orb_true_r.
  - rewrite E. apply strip_edges.
  - rewrite E. apply strip_edges.
Qed.

(* ===================================================================== *)
(** * Lines on disk, lines as read, lines as written *)
(* ===================================================================== *)

Lemma readlines_from_raw (s : pystr) : forall cur,
  readlines_from cur s = map line_as_read (raw_lines_from cur s).
Proof.
  assert (Hr : forall cur, rev (LF :: cur) = rev cur ++ [LF]) by done.
  induction s as [|c t IH]; intros cur.
  - destruct cur; [done|]. cbn [readlines_from raw_lines_from map].
    unfold line_as_read. cbn [line_body line_end]. by rewrite app_nil_r.
  - cbn [readlines_from raw_lines_from].
    destruct (c =? LF); [cbn [map]; by rewrite IH, Hr|].
    destruct (c =? CR); [|apply IH].
    destruct t as [|c' t']; [by rewrite Hr|].
    destruct (c' =? LF) eqn:E.
    + cbn [map]. rewrite Hr. f_equal.
      specialize (IH []). cbn [readlines_from raw_lines_from] in IH.
      rewrite E in IH. cbn [map] in IH. by injection IH.
    + cbn [map]. by rewrite IH, Hr.
Qed.

(** [readlines] hands the loop the lines of the file with every line break
    turned into a line feed. *)
Lemma readlines_raw (text : pystr) :
  readlines text = map line_as_read (raw_lines text).
Proof. apply readlines_from_raw. Qed.

Lemma raw_lines_from_text (s : pystr) : forall cur,
  concat (map line_on_disk (raw_lines_from cur s)) = rev cur ++ s.
Proof.
  induction s as [|c t IH]; intros cur.
  - destruct cur; [done|]. cbn [raw_lines_from map concat]. unfold line_on_disk.
    cbn [line_body line_end terminator_text]. by rewrite !app_nil_r.
  - cbn [raw_lines_from].
    destruct (c =? LF) eqn:E1.
    { apply N.eqb_eq in E1 as ->. cbn [map concat]. rewrite IH. unfold line_on_disk.
      cbn [line_body line_end terminator_text rev app]. by rewrite <- app_assoc. }
    destruct (c =? CR) eqn:E2.
    2:{ rewrite IH. cbn [rev]. by rewrite <- app_assoc. }
    apply N.eqb_eq in E2 as ->.
    destruct t as [|c' t'].
    { cbn [map concat]. unfold line_on_disk. cbn [line_body line_end terminator_text].
      by rewrite app_nil_r. }
    destruct (c' =? LF) eqn:E.
    + apply N.eqb_eq in E as ->. cbn [map concat].
      specialize (IH []). cbn [raw_lines_from] in IH.
      change (LF =? LF) with true in IH. cbn [map concat rev app] in IH.
      unfold line_on_disk at 1 in IH. cbn [line_body line_end terminator_text app] in IH.
      injection IH as IH. rewrite IH.
      unfold line_on_disk. cbn [line_body line_end terminator_text].
      by rewrite <- app_assoc.
    + cbn [map concat]. rewrite IH. unfold line_on_disk.
      cbn [line_body line_end terminator_text]. by rewrite <- app_assoc.
Qed.

(** The lines on disk, put end to end, are the file. *)
Lemma raw_lines_text (text : pystr) :
  concat (map line_on_disk (raw_lines text)) = text.
Proof. apply raw_lines_from_text. Qed.

Lemma raw_lines_from_body (s : pystr) : forall cur l,
  LF ∉ cur -> CR ∉ cur ->
  In l (raw_lines_from cur s) -> (LF ∉ line_body l) /\ (CR ∉ line_body l).
Proof.
  assert (Hrev : forall (c : char) cur, c ∉ cur -> c ∉ rev cur).
  { intros c cur H Hin. apply H. apply list_elem_of_In in Hin. apply in_rev in Hin.
    by apply list_elem_of_In. }
  assert (Hnil : forall c : char, c ∉ ([] : pystr)) by (intros c; apply not_elem_of_nil).
  induction s as [|c t IH]; intros cur l Hlf Hcr Hin.
  - destruct cur; [destruct Hin|]. destruct Hin as [<-|[]]. cbn [line_body].
    split; by apply Hrev.
  - cbn [raw_lines_from] in Hin.
    destruct (c =? LF) eqn:E1.
    { destruct Hin as [<-|Hin]; [split; by apply Hrev|]. by apply (IH [] l). }
    destruct (c =? CR) eqn:E2.
    2:{ apply (IH (c :: cur) l); [| |done]; apply not_elem_of_cons; split; try done.
        - apply N.eqb_neq in E1. congruence.
        - apply N.eqb_neq in E2. congruence. }
    destruct t as [|c' t']; [destruct Hin as [<-|[]]; split; by apply Hrev|].
    destruct (c' =? LF) eqn:E.
    + destruct Hin as [<-|Hin]; [split; by apply Hrev|].
      apply (IH [] l); [done..|]. cbn [raw_lines_from]. rewrite E. by right.
    + destruct Hin as [<-|Hin]; [split; by apply Hrev|]. by apply (IH [] l).
Qed.

(** No line break inside a line. *)
Lemma raw_lines_body (text : pystr) (l : raw_line) :
  In l (raw_lines text) -> (LF ∉ line_body l) /\ (CR ∉ line_body l).
Proof. apply raw_lines_from_body; apply not_elem_of_nil. Qed.



Lemma translate_newlines_app (n : newline) (a b : pystr) :
  translate_newlines n (a ++ b) = translate_newlines n a ++ translate_newlines n b.
Proof. unfold translate_newlines. induction a as [|c a IH]; [done|].
  cbn [app flat_map]. by rewrite IH, app_assoc. Qed.

Lemma translate_newlines_no_LF (n : newline) (s : pystr) :
  LF ∉ s -> translate_newlines n s = s.
Proof.
  unfold translate_newlines. induction s as [|c s IH]; intros H; [done|].
  apply not_elem_of_cons in H as [Hc H]. cbn [flat_map].
  replace (c =? LF) with false by (symmetry; apply N.eqb_neq; congruence).
  by rewrite IH.
Qed.


Lemma translate_newlines_concat (n : newline) (ls : list pystr) :
  translate_newlines n (concat ls) = concat (map (translate_newlines n) ls).
Proof.
  induction ls as [|l ls IH]; [done|].
  cbn [concat map]. by rewrite translate_newlines_app, IH.
Qed.

(** A line that was read and is copied reaches the file with its line
    break turned into [os.linesep]. *)
Lemma translate_line_as_read (n : newline) (l : raw_line) :
  LF ∉ line_body l ->
  translate_newlines n (line_as_read l) = line_as_written n l.
Proof.
  intros H. unfold line_as_read, line_as_written.
  rewrite translate_newlines_app, translate_newlines_no_LF by done.
  destruct (line_end l); try done; unfold translate_newlines; cbn; by rewrite app_nil_r.
Qed.

(** The line is on disk as it was exactly when it ended with [os.linesep]
    or with nothing. *)
Lemma line_as_written_same (n : newline) (l : raw_line) :
  line_as_written n l = line_on_disk l <->
  line_end l = NoEnd \/ terminator_text (line_end l) = linesep n.
Proof.
  unfold line_as_written, line_on_disk. split.
  - intros H. apply app_inv_head in H. destruct (line_end l); [by left|right; done..].
  - intros [H|H]; [by rewrite H|]. f_equal.
    destruct (line_end l); [done|by rewrite H..].
Qed.

(* ===================================================================== *)
(** * The loop of [SaveConfig], line by line *)
(* ===================================================================== *)

(** A [SaveConfig] that returns has built its dictionary, read the file,
    run the loop to its end and stored the text. *)
Lemma SaveConfig_returns (env : environment) (config : ServerSettings) (w w' : world) :
  SaveConfig env config w = (Ok tt, w') ->
  exists d text st new_lines,
    save_dict env config = Ok d /\
    config_yaml w = Some text /\
    scan d initial_scan_state (readlines text) = Ok (st, new_lines) /\
    config_yaml w' = Some (written env (concat new_lines)).
Proof.
  unfold SaveConfig, mbind, M_bind, lift, read_file, write_file.
  destruct (save_dict env config) as [d|e]; [|discriminate].
  destruct (config_yaml w) as [text|]; [|discriminate].
  cbn [config_yaml _CONFIG trace].
  destruct (scan d initial_scan_state (readlines text)) as [[st new_lines]|e] eqn:Hs;
    [|discriminate].
  intros H. exists d, text, st, new_lines. split_and!; try done.
  destruct (file_write env (concat new_lines));
    destruct (existsb is_surrogate (concat new_lines)); try discriminate H.
  by injection H as <-.
Qed.

(** The loop at one line of the file. *)
Lemma scan_split (config_dict : gmap pystr (gmap pystr pyvalue))
    (l1 l2 : list pystr) (x : pystr) (st st' : scan_state) (out : list pystr) :
  scan config_dict st (l1 ++ x :: l2) = Ok (st', out) ->
  exists st1 out1 st2 outx out2,
    scan config_dict st l1 = Ok (st1, out1) /\
    scan_line config_dict st1 x = Ok (st2, outx) /\
    scan config_dict st2 l2 = Ok (st', out2) /\
    out = out1 ++ outx ++ out2.
Proof.
  rewrite scan_app.
  destruct (scan config_dict st l1) as [[st1 out1]|e] eqn:E1; [|discriminate].
  cbn [mbind result_bind scan].
  destruct (scan_line config_dict st1 x) as [[st2 outx]|e] eqn:Ex; [|discriminate].
  cbn [mbind result_bind].
  destruct (scan config_dict st2 l2) as [[st3 out2]|e] eqn:E2; [|discriminate].
  cbn [mbind result_bind]. intros [= <- <-].
  exists st1, out1, st2, outx, out2. by rewrite Ex, E2.
Qed.

(** A section-opening line is neither a list-opening nor a list-closing
    line. *)
Lemma parent_line_only (l : pystr) :
  is_Some (re_match parent_key_match_pattern l) ->
  re_match list_start_pattern l = None /\ re_match list_end_pattern l = None.
Proof.
  intros [m (key & Hl & _ & Hq & _)%parent_key_match_inv]. split.
  - destruct (re_match list_start_pattern l) as [m'|] eqn:E; [|done].
    apply list_start_inv in E as (key' & tl & Hl' & _).
    rewrite Hl' in Hl.
    destruct Hq as [(b & -> & _)|(b & -> & _)];
      cbv [indent repeat app] in Hl; discriminate Hl.
  - destruct (re_match list_end_pattern l) as [m'|] eqn:E; [|done].
    apply list_end_inv in E as (tl & Hl' & _).
    rewrite Hl' in Hl.
    destruct Hq as [(b & -> & _)|(b & -> & _)];
      cbv [indent repeat app] in Hl; discriminate Hl.
Qed.

(** A list-opening line is neither a section-opening nor a list-closing
    line. *)
Lemma list_start_line_only (l : pystr) :
  is_Some (re_match list_start_pattern l) ->
  re_match parent_key_match_pattern l = None /\ re_match list_end_pattern l = None.
Proof.
  intros H. destruct (field_line_shape l (or_introl H)) as (q & b & Hq & ->).
  split; [by apply indented_quote_not_parent|by apply indented_quote_not_list_end].
Qed.

(** What one iteration does to the two variables that later lines read. *)
Lemma scan_line_state (config_dict : gmap pystr (gmap pystr pyvalue))
    (st st' : scan_state) (x : pystr) (out : list pystr) :
  scan_line config_dict st x = Ok (st', out) ->
  in_list st'
  = match re_match list_start_pattern x with
    | Some _ => true
    | None => match re_match list_end_pattern x with
              | Some _ => false
              | None => in_list st
              end
    end /\
  match re_match parent_key_match_pattern x with
  | Some m => exists key, m_groups m = [(u "key", key)] /\
                          current_parent_key st' = unquote key
  | None => current_parent_key st' = current_parent_key st
  end.
Proof.
  unfold scan_line.
  destruct (re_match parent_key_match_pattern x) as [m|] eqn:Ep.
  { destruct (parent_line_only x) as [-> ->]; [by eexists|].
    pose proof (parent_key_match_inv _ _ Ep) as (key & _ & _ & _ & Hg).
    unfold groupdict_get, group. rewrite Hg.
    replace (assoc (u "key") [(u "key", key)]) with (Some key)
      by (vm_compute; reflexivity).
    cbn [mbind result_bind]. intros [= <- <-]. split; [done|]. by exists key. }
  destruct (re_match list_start_pattern x) as [m|] eqn:Es.
  { destruct (groupdict_get m (u "key")) as [key|]; [|discriminate].
    cbn [mbind result_bind current_parent_key list_key].
    destruct (getitem config_dict (current_parent_key st)) as [section|]; [|discriminate].
    cbn [mbind result_bind].
    destruct (section !! unquote key) as [v|].
    - destruct (py_iter_str v); [|discriminate]. cbn [mbind result_bind].
      by intros [= <- <-].
    - by intros [= <- <-]. }
  destruct (re_match list_end_pattern x) as [m|] eqn:Ee; [by intros [= <- <-]|].
  destruct (in_list st) eqn:Ei; [intros [= <- <-]; by rewrite Ei|].
  destruct (re_match key_value_match_pattern x) as [m|]; [|intros [= <- <-]; by rewrite Ei].
  destruct (groupdict_get m (u "key")) as [key|]; [|discriminate].
  cbn [mbind result_bind].
  destruct (getitem config_dict (current_parent_key st)) as [section|]; [|discriminate].
  cbn [mbind result_bind].
  destruct (section !! unquote key) as [v|]; [|intros [= <- <-]; by rewrite Ei].
  destruct (re_sub _ _ _); [|discriminate]. intros [= <- <-]. by rewrite Ei.
Qed.

(** When the loop leaves a list block open: a list-opening line was read
    and no list-closing line after it, or the block was open at the start
    and no list-closing line was read. *)
Lemma scan_in_list (config_dict : gmap pystr (gmap pystr pyvalue)) (lines : list pystr) :
  forall st st' out,
    scan config_dict st lines = Ok (st', out) ->
    in_list st' = true <->
    inside_list_block lines \/
    (in_list st = true /\ forall l, In l lines -> re_match list_end_pattern l = None).
Proof.
  induction lines as [|x r IH]; intros st st' out H.
  - injection H as <- <-. split; [intros E; right; by split|].
    intros [(l1 & o & l2 & E & _)|[E _]]; [by destruct l1|done].
  - cbn [scan] in H.
    destruct (scan_line config_dict st x) as [[st1 outx]|e] eqn:Ex; [|discriminate].
    cbn [mbind result_bind] in H.
    destruct (scan config_dict st1 r) as [[st2 outr]|e] eqn:Er; [|discriminate].
    cbn [mbind result_bind] in H. injection H as <- <-.
    rewrite (IH _ _ _ Er). apply scan_line_state in Ex as [Ex _].
    assert (Hins : inside_list_block (x :: r) <->
                   inside_list_block r \/
                   (is_Some (re_match list_start_pattern x) /\
                    forall l, In l r -> re_match list_end_pattern l = None)).
    { split.
      - intros (l1 & o & l2 & E & Ho & Hl2). destruct l1 as [|y l1].
        + injection E as <- <-. by right.
        + injection E as <- ->. left. by exists l1, o, l2.
      - intros [(l1 & o & l2 & -> & Ho & Hl2)|[Ho Hr]].
        + by exists (x :: l1), o, l2.
        + by exists [], x, r. }
    rewrite Hins.
    assert (Hcons : (forall l, In l (x :: r) -> re_match list_end_pattern l = None) <->
                    re_match list_end_pattern x = None /\
                    forall l, In l r -> re_match list_end_pattern l = None).
    { split.
      - intros Hall. split; [apply Hall; by left|]. intros l Hl. apply Hall. by right.
      - intros [Hx Hr] l [<-|Hl]; [done|by apply Hr]. }
    rewrite Hcons.
    assert (Hn : ~ is_Some (@None mstate)) by (intros [? ?]; discriminate).
    destruct (re_match list_start_pattern x) as [m|] eqn:Es.
    + destruct (list_start_line_only x) as [_ He]; [by eexists|].
      rewrite He, Ex. assert (Hm : is_Some (Some m)) by (by eexists).
      clear -Hm. intuition.
    + destruct (re_match list_end_pattern x) as [m|] eqn:Ee; rewrite Ex;
        clear -Hn; intuition discriminate.
Qed.

(** From the start of the file: a list block is open exactly when a
    list-opening line was read and no list-closing line after it. *)
Lemma scan_in_list_initial (config_dict : gmap pystr (gmap pystr pyvalue))
    (lines : list pystr) (st : scan_state) (out : list pystr) :
  scan config_dict initial_scan_state lines = Ok (st, out) ->
  in_list st = true <-> inside_list_block lines.
Proof.
  intros H. rewrite (scan_in_list _ _ _ _ _ H). split; [|by left].
  by intros [?|[? _]].
Qed.

(** The section the loop is in after some lines: that of the last
    section-opening line, or the one it started in. *)
Lemma scan_section (config_dict : gmap pystr (gmap pystr pyvalue)) (lines : list pystr) :
  forall st st' out,
    scan config_dict st lines = Ok (st', out) ->
    ((forall l, In l lines -> re_match parent_key_match_pattern l = None) /\
     current_parent_key st' = current_parent_key st) \/
    exists l1 opening l2 m key,
      lines = l1 ++ opening :: l2 /\
      re_match parent_key_match_pattern opening = Some m /\
      m_groups m = [(u "key", key)] /\
      current_parent_key st' = unquote key /\
      forall l, In l l2 -> re_match parent_key_match_pattern l = None.
Proof.
  induction lines as [|x r IH]; intros st st' out H.
  - injection H as <- <-. left. by split.
  - cbn [scan] in H.
    destruct (scan_line config_dict st x) as [[st1 outx]|e] eqn:Ex; [|discriminate].
    cbn [mbind result_bind] in H.
    destruct (scan config_dict st1 r) as [[st2 outr]|e] eqn:Er; [|discriminate].
    cbn [mbind result_bind] in H. injection H as <- <-.
    apply scan_line_state in Ex as [_ Ex].
    destruct (IH _ _ _ Er) as [[Hr Hk]|(l1 & o & l2 & m & key & -> & Ho & Hg & Hk & Hl2)].
    + destruct (re_match parent_key_match_pattern x) as [m|] eqn:Ep.
      * destruct Ex as (key & Hg & Hk'). right.
        exists [], x, r, m, key. split_and!; try done. congruence.
      * left. split; [|congruence]. intros l [<-|Hl]; [done|by apply Hr].
    + right. by exists (x :: l1), o, l2, m, key.
Qed.

Lemma scan_section_initial (config_dict : gmap pystr (gmap pystr pyvalue))
    (lines : list pystr) (st : scan_state) (out : list pystr) :
  scan config_dict initial_scan_state lines = Ok (st, out) ->
  section_at lines (current_parent_key st).
Proof.
  intros H. destruct (scan_section _ _ _ _ _ H) as [[Hr Hk]|Hs].
  - left. by split.
  - right. exact Hs.
Qed.

(** The section of a line is determined by the lines before it. *)
Lemma section_at_unique (lines : list pystr) (a b : pystr) :
  section_at lines a -> section_at lines b -> a = b.
Proof.
  assert (Hno : forall l1 o l2 m,
            (forall l, In l (l1 ++ o :: l2) ->
                       re_match parent_key_match_pattern l = None) ->
            re_match parent_key_match_pattern o = Some m -> False).
  { intros l1 o l2 m Hall Ho. rewrite Hall in Ho; [done|].
    apply in_or_app. right. by left. }
  intros [[Ha ->]|(l1 & o & l2 & m & key & -> & Ho & Hg & -> & Hl2)]
         [[Hb ->]|(l1' & o' & l2' & m' & key' & E & Ho' & Hg' & -> & Hl2')];
    [done|exfalso; rewrite E in Ha; by eapply Hno|exfalso; by eapply Hno|].
  assert (Hlast : forall (p q : list pystr) x y s t,
             p ++ x :: s = q ++ y :: t ->
             (forall l, In l s -> re_match parent_key_match_pattern l = None) ->
             (forall l, In l t -> re_match parent_key_match_pattern l = None) ->
             is_Some (re_match parent_key_match_pattern x) ->
             is_Some (re_match parent_key_match_pattern y) ->
             x = y).
  { induction p as [|a p IH]; intros q x y s t Eq Hs Ht Hx Hy.
    - destruct q as [|b q]; [by injection Eq|].
      injection Eq as -> ->. destruct Hy as [? Hy]. rewrite Hs in Hy; [done|].
      apply in_or_app. right. by left.
    - destruct q as [|b q].
      + injection Eq as -> <-. destruct Hx as [? Hx]. rewrite Ht in Hx; [done|].
        apply in_or_app. right. by left.
      + injection Eq as _ Eq. by apply (IH q x y s t). }
  assert (o = o') as <- by (apply (Hlast l1 l1' o o' l2 l2'); try done; by eexists).
  congruence.
Qed.






(* ===================================================================== *)
(** * Lines that end with a line feed *)
(* ===================================================================== *)








(* ===================================================================== *)
(** * Reading back what was written *)
(* ===================================================================== *)





(* ===================================================================== *)
(** * What [SaveConfig] writes, line by line of the file *)
(* ===================================================================== *)


(** The loop of a [SaveConfig] that returns, cut at one line of the
    file. *)
Lemma SaveConfig_at_line (env : environment) (config : ServerSettings) (w w' : world)
    (text : pystr) (before after : list raw_line) (line : raw_line) :
  config_yaml w = Some text ->
  raw_lines text = before ++ line :: after ->
  SaveConfig env config w = (Ok tt, w') ->
  exists d st1 out_before st2 out_line st3 out_after,
    save_dict env config = Ok d /\
    scan d initial_scan_state (map line_as_read before) = Ok (st1, out_before) /\
    scan_line d st1 (line_as_read line) = Ok (st2, out_line) /\
    scan d st2 (map line_as_read after) = Ok (st3, out_after) /\
    config_yaml w'
    = Some (written env (concat out_before) ++ written env (concat out_line)
              ++ written env (concat out_after)).
Proof.
  intros Hf Hl (d & text' & st & new_lines & Hd & Hf' & Hs & Hw)%SaveConfig_returns.
  assert (text' = text) as -> by congruence.
  rewrite readlines_raw, Hl, map_app in Hs. cbn [map] in Hs.
  apply scan_split in Hs as (st1 & out1 & st2 & outx & out2 & H1 & Hx & H2 & ->).
  exists d, st1, out1, st2, outx, st, out2. split_and!; try done.
  rewrite Hw. unfold written. by rewrite !concat_app, !translate_newlines_app.
Qed.

(* ===================================================================== *)
(** * C1: scalar lines *)
(* ===================================================================== *)




(* ===================================================================== *)
(** * C2: lines of no recognized shape *)
(* ===================================================================== *)




(* ===================================================================== *)
(** * C9: list blocks, written and read again *)
(* ===================================================================== *)

(** No list block is open after lines on which the loop ends with
    [in_list] unset. *)
Lemma not_inside_list_block (config_dict : gmap pystr (gmap pystr pyvalue))
    (lines : list pystr) :
  match scan config_dict initial_scan_state lines with
  | Ok (st, _) => in_list st = false
  | Raise _ => False
  end ->
  ~ inside_list_block lines.
Proof.
  destruct (scan config_dict initial_scan_state lines) as [[st out]|e] eqn:E; [|done].
  intros Hi Hins. apply (scan_in_list_initial _ _ _ _ E) in Hins. congruence.
Qed.





(* ===================================================================== *)
(** * A scalar line that holds the value of the document *)
(* ===================================================================== *)

(** X15.  A scalar line that already holds the text [SaveConfig] writes for
    the value of its field is left as it is.  Take a line of the file made
    of the indent, a plain key, a colon and a blank, the text written for
    the value [v], and a comma; let that text be a token of the scalar
    pattern and the line no list-opening line; let no list block be open at
    the line, and let the document hold [v] for the field in the section
    the line stands in.  Then a [SaveConfig] that returns writes the line
    again, with its line break turned into [os.linesep], between what the
    loop made of the lines before it and of the lines after it.  Being a
    line of the file, it holds no line break, so neither does the text of
    the value.  For a text without quotes (a number made of digits and
    dots, [true], [false], [null]) the line is never a list-opening line.
    The text written for an [int] that is not negative, for a [bool] and
    for [None] is of that kind; the text written for a string or a path
    without line feed is a token. *)
Theorem written_scalar_line_is_kept
    (env : environment) (config : ServerSettings) (w w' : world) (text : pystr)
    (before after : list raw_line) (line : raw_line)
    (d : gmap pystr (gmap pystr pyvalue)) (name key : pystr)
    (section : gmap pystr pyvalue) (v : pyvalue) :
  config_yaml w = Some text ->
  raw_lines text = before ++ line :: after ->
  line_body line = indent 8 ++ key ++ u ": " ++ value_real_of v ++ [comma] ->
  plain_key key ->
  value_token (value_real_of v) ->
  (bare_token (value_real_of v) \/
   re_match list_start_pattern (line_as_read line) = None) ->
  ~ inside_list_block (map line_as_read before) ->
  SaveConfig env config w = (Ok tt, w') ->
  save_dict env config = Ok d ->
  section_at (map line_as_read before) name ->
  d !! name = Some section ->
  section !! unquote key = Some v ->
  (exists st1 out_before st2 out_after,
     scan d initial_scan_state (map line_as_read before) = Ok (st1, out_before) /\
     scan d st1 (map line_as_read after) = Ok (st2, out_after) /\
     config_yaml w'
     = Some (written env (concat out_before)
               ++ line_as_written (os_linesep env) line
               ++ written env (concat out_after))) /\
  (LF ∉ value_real_of v) /\ (CR ∉ value_real_of v) /\
  ((exists n, v = VInt n /\ (0 <= n)%Z) \/ (exists b, v = VBool b) \/ v = VNone ->
   bare_token (value_real_of v)) /\
  (forall s, v = VStr s \/ v = VPath s -> forallb any_char s = true ->
             value_token (value_real_of v)).
Proof.
  intros Hf Hl Hbody Hkey Htok Hls Hout Hsave Hd Hname Hsec Hv.
  assert (Hline : In line (raw_lines text)).
  { rewrite Hl. apply in_or_app. right. by left. }
  destruct (raw_lines_body text line Hline) as [Hlf Hcr].
  destruct written_values_are_tokens as (Ti & Tb & Tn & Ts & Tp).
  split_and!.
  - destruct (SaveConfig_at_line _ _ _ _ _ _ _ _ Hf Hl Hsave)
      as (d' & st1 & out1 & st2 & outx & st3 & out2 & Hd' & H1 & Hx & H2 & Hw).
    assert (d' = d) as -> by congruence.
    assert (Hin : in_list st1 = false).
    { destruct (in_list st1) eqn:Ei; [|done].
      exfalso. by apply Hout, (scan_in_list_initial _ _ _ _ H1). }
    assert (current_parent_key st1 = name) as Hcur.
    { apply (section_at_unique (map line_as_read before)); [|done].
      by apply (scan_section_initial d _ _ out1). }
    set (rest := match line_end line with NoEnd => [] | _ => [LF] end).
    assert (Hrest : rest = [] \/ rest = [LF]) by (subst rest; destruct (line_end line); auto).
    assert (Hshape : line_as_read line = scalar_line key (value_real_of v) rest).
    { unfold line_as_read, scalar_line. rewrite Hbody. by rewrite <- !app_assoc. }
    assert (Hls' : re_match list_start_pattern (line_as_read line) = None).
    { destruct Hls as [Hb|Hls]; [|done]. rewrite Hshape.
      destruct (bare_token_chars _ Hb) as (Hs & Hdq & Hbr).
      by apply scalar_line_not_list_start. }
    destruct (key_value_match_complete key (value_real_of v) rest Hkey Htok Hrest)
      as [pos Hm].
    rewrite <- Hshape in Hm.
    rewrite (scan_line_scalar d st1 (line_as_read line) _ key (value_real_of v)
               section v Hin Hls' Hm eq_refl) in Hx by (by rewrite ?Hcur).
    assert (Est : st2 = st1) by congruence.
    assert (Eo : outx = [line_as_read line]).
    { rewrite Hshape. unfold scalar_line. cbn [m_rest] in Hx. congruence. }
    subst st2 outx.
    exists st1, out1, st3, out2. split; [done|]. split; [done|].
    rewrite Hw. cbn [concat]. rewrite app_nil_r.
    unfold written at 2. by rewrite translate_line_as_read.
  - intros H. apply Hlf. rewrite Hbody, !elem_of_app. auto.
  - intros H. apply Hcr. rewrite Hbody, !elem_of_app. auto.
  - intros [(n & -> & Hn)|[(b & ->)| ->]]; auto.
  - intros s [-> | ->] Hs; auto.
Qed.

(** The line written for [debug] set to [True], found again by a second
    call with the same document. *)
Lemma written_scalar_line_is_kept_witness :
  let text :=
    Sample.ln "    'general': {" ++
    Sample.ln "        'debug': true," ++
    Sample.ln "    }," in
  let before := [RawLine (u "    'general': {") EndLF] in
  let line := RawLine (u "        'debug': true,") EndLF in
  let after := [RawLine (u "    },") EndLF] in
  let w := Sample.on_disk text in
  let w' := (SaveConfig Sample.linux Sample.debug_on w).2 in
  raw_lines text = before ++ line :: after /\
  plain_key (u "'debug'") /\
  ~ inside_list_block (map line_as_read before) /\
  SaveConfig Sample.linux Sample.debug_on w = (Ok tt, w') /\
  section_at (map line_as_read before) (u "general") /\
  (exists prefix suffix, config_yaml w' = Some (prefix ++ line_on_disk line ++ suffix)) /\
  config_yaml w' = Some text.
Proof.
  intros text before line after w w'.
  assert (Hl : raw_lines text = before ++ line :: after) by (vm_compute; reflexivity).
  assert (Hk : plain_key (u "'debug'")).
  { exists squote, (u "debug"). split_and!; [by vm_compute|by left| |by vm_compute].
    apply not_elem_of_literal. by vm_compute. }
  assert (Hs : scan (dict_of Sample.debug_on) initial_scan_state (map line_as_read before)
               = Ok (Sample.in_general, map line_as_read before))
    by (vm_compute; reflexivity).
  assert (Hout : ~ inside_list_block (map line_as_read before)).
  { apply (not_inside_list_block (dict_of Sample.debug_on)). by rewrite Hs. }
  assert (Hsave : SaveConfig Sample.linux Sample.debug_on w = (Ok tt, w'))
    by (vm_compute; reflexivity).
  assert (Hname : section_at (map line_as_read before) (u "general"))
    by apply (scan_section_initial _ _ _ _ Hs).
  split; [exact Hl|]. split; [exact Hk|]. split; [exact Hout|]. split; [exact Hsave|].
  split; [exact Hname|]. split; [|vm_compute; reflexivity].
  destruct (written_scalar_line_is_kept Sample.linux Sample.debug_on w w' text
              before after line (dict_of Sample.debug_on) (u "general") (u "'debug'")
              {[ u "debug" := VBool true ]} (VBool true) eq_refl Hl)
    as [(st1 & out1 & st2 & out2 & _ & _ & Hw) _];
    [vm_compute; reflexivity|exact Hk|left; right; by left|left; right; by left|
     exact Hout|exact Hsave|reflexivity|exact Hname|vm_compute; reflexivity|
     vm_compute; reflexivity|].
  eexists _, _. rewrite Hw.
  rewrite (proj2 (line_as_written_same (os_linesep Sample.linux) line))
    by (right; reflexivity).
  reflexivity.
Defined.
